(** * Specify CLI (specify_cli/__init__.py): a shallow embedding

    The development follows the layout of the Python module:
    - [Py]              the Python string primitives the code relies on;
    - [Github]          [_github_token] and [_github_auth_headers];
    - [Tracker]         the [StepTracker] class;
    - [Classifier]      [_scan_project_state] and [classify_project_state];
    - [TemplateSource]  the choice of the release asset in
                        [download_template_from_github];
    - [Permissions]     [ensure_executable_scripts];
    - [Installer]       [download_and_extract_template] over a tree model of
                        the file system;
    - [Analysis]        [analyze_existing_project] and its helpers;
    - [Menu]            [get_key] and [select_with_arrows];
    - [TrackerView]     [StepTracker.render];
    - [Tools]           [check_tool], [check_tool_for_tracker] and the
                        [check] command.
    The modules [ScanSpec], [AnalysisSpec], [PermissionsEffect] and
    [InstallerSpec] hold the notions the properties are stated with.
    The properties follow the definitions, component by component.

    Python [str] values are modelled as Rocq strings (sequences of bytes, the
    UTF-8 encoding of the text).  Dictionaries with a fixed set of keys are
    records; dictionaries used as maps (the process environment, HTTP
    headers) are [gmap]s.  Floats are the kernel's binary64 numbers, so that
    sums such as [0.7 + 0.1] carry the rounding error they carry in CPython. *)

From Stdlib Require Import ZArith NArith List String Ascii Floats Uint63 Lia.
From stdpp Require Import base option list strings gmap pretty.

Set Warnings "-inexact-float,-register-all".
Local Open Scope string_scope.
Local Open Scope list_scope.

(** ** Python string primitives *)
Module Py.

(** Truthiness of a [str]: the empty string is falsy. *)
Definition truthy (s : string) : bool :=
  match s with EmptyString => false | String _ _ => true end.

(** [a or b] on [str | None] operands. *)
Definition or_ (a b : option string) : option string :=
  match a with
  | Some s => if truthy s then a else b
  | None => b
  end.

(** [a or ""], whose result is always a [str]. *)
Definition or_str (a : option string) (d : string) : string :=
  match a with
  | Some s => if truthy s then s else d
  | None => d
  end.

(** The characters that [str.strip], [str.isspace] and [str.split] take for
    whitespace.  A [str] is held as its UTF-8 encoding, so a character is
    one, two or three bytes here.  In the ASCII range: tab, line feed,
    vertical tab, form feed, carriage return, the four separators
    0x1c..0x1f and the space. *)
Definition is_space (c : ascii) : bool :=
  let n := nat_of_ascii c in
  ((9 <=? n) && (n <=? 13) || (28 <=? n) && (n <=? 32))%nat.

(** U+0085 (next line) and U+00A0 (no-break space): [C2 85] and [C2 A0]. *)
Definition is_space2 (a b : ascii) : bool :=
  let x := nat_of_ascii a in
  let y := nat_of_ascii b in
  ((x =? 194) && ((y =? 133) || (y =? 160)))%nat.

(** U+1680 [E1 9A 80]; U+2000..U+200A [E2 80 80] .. [E2 80 8A]; U+2028 and
    U+2029 [E2 80 A8], [E2 80 A9]; U+202F [E2 80 AF]; U+205F [E2 81 9F];
    U+3000 [E3 80 80]. *)
Definition is_space3 (a b c : ascii) : bool :=
  let x := nat_of_ascii a in
  let y := nat_of_ascii b in
  let z := nat_of_ascii c in
  ((x =? 225) && (y =? 154) && (z =? 128)
   || (x =? 226) && (y =? 128)
      && ((128 <=? z) && (z <=? 138) || (168 <=? z) && (z <=? 169)
          || (z =? 175))
   || (x =? 226) && (y =? 129) && (z =? 159)
   || (x =? 227) && (y =? 128) && (z =? 128))%nat.

(** What follows the whitespace character [s] begins with, if it begins
    with one. *)
Definition skip_space (s : string) : option string :=
  match s with
  | String a r =>
      if is_space a then Some r
      else match r with
           | String b r2 =>
               if is_space2 a b then Some r2
               else match r2 with
                    | String c r3 => if is_space3 a b c then Some r3 else None
                    | EmptyString => None
                    end
           | EmptyString => None
           end
  | EmptyString => None
  end.

(** [s.lstrip()]: the leading whitespace characters are dropped, one
    character at a time. *)
Fixpoint lstrip (s : string) : string :=
  match s with
  | EmptyString => EmptyString
  | String a r =>
      if is_space a then lstrip r
      else match r with
           | String b r2 =>
               if is_space2 a b then lstrip r2
               else match r2 with
                    | String c r3 => if is_space3 a b c then lstrip r3 else s
                    | EmptyString => s
                    end
           | EmptyString => s
           end
  end.

(** Every character of [s] is whitespace ([s.isspace()], or [s] is
    empty). *)
Fixpoint all_space (s : string) : bool :=
  match s with
  | EmptyString => true
  | String a r =>
      if is_space a then all_space r
      else match r with
           | String b r2 =>
               if is_space2 a b then all_space r2
               else match r2 with
                    | String c r3 => is_space3 a b c && all_space r3
                    | EmptyString => false
                    end
           | EmptyString => false
           end
  end.

(** [s.rstrip()]: the string is cut where its last run of whitespace
    characters begins.  A whitespace character begins with a byte below
    0x80 or with one of the lead bytes C2, E1, E2, E3, none of which occurs
    inside another character: the cut never falls within a character. *)
Fixpoint rstrip (s : string) : string :=
  match s with
  | EmptyString => EmptyString
  | String c r => if all_space s then EmptyString else String c (rstrip r)
  end.

(** [s.strip()] *)
Definition strip (s : string) : string := rstrip (lstrip s).
Definition lower_ascii (c : ascii) : ascii :=
  let n := nat_of_ascii c in
  if ((65 <=? n) && (n <=? 90))%nat then ascii_of_nat (n + 32) else c.

(** [s.lower()]; only the letters A..Z change (code points outside ASCII
    never lower to a string of the valid project types). *)
Fixpoint lower (s : string) : string :=
  match s with
  | EmptyString => EmptyString
  | String c r => String (lower_ascii c) (lower r)
  end.

(** [s.startswith(p)] *)
Fixpoint startswith (p s : string) : bool :=
  match p, s with
  | EmptyString, _ => true
  | String a p', String b s' => Ascii.eqb a b && startswith p' s'
  | String _ _, EmptyString => false
  end.

(** [p in s] for strings: [p] occurs in [s] at some offset. *)
Fixpoint contains (p s : string) : bool :=
  startswith p s ||
  match s with
  | EmptyString => false
  | String _ s' => contains p s'
  end.

(** [s.endswith(p)] *)
Fixpoint endswith (p s : string) : bool :=
  String.eqb p s ||
  match s with
  | EmptyString => false
  | String _ s' => endswith p s'
  end.

(** [sep.join(l)] *)
Fixpoint join (sep : string) (l : list string) : string :=
  match l with
  | [] => ""
  | [x] => x
  | x :: r => x +:+ sep +:+ join sep r
  end.

(** [x in l] for a list or set of strings. *)
Definition mem (x : string) (l : list string) : bool :=
  existsb (String.eqb x) l.

End Py.

(** ** GitHub token handling *)
Module Github.

(** The process environment, read through [os.getenv]. *)
Definition environ := gmap string string.

Definition getenv (env : environ) (k : string) : option string := env !! k.

(** [_github_token]: the CLI argument takes precedence over [GH_TOKEN],
    which takes precedence over [GITHUB_TOKEN]; the chosen value is
    stripped and an empty result becomes [None]. *)
Definition _github_token (env : environ) (cli_token : option string)
  : option string :=
  let chosen :=
    Py.or_str (Py.or_ (Py.or_ cli_token (getenv env "GH_TOKEN"))
                      (getenv env "GITHUB_TOKEN")) "" in
  let t := Py.strip chosen in
  if Py.truthy t then Some t else None.

(** [_github_auth_headers] *)
Definition _github_auth_headers (env : environ) (cli_token : option string)
  : gmap string string :=
  match _github_token env cli_token with
  | Some token => {[ "Authorization" := "Bearer " +:+ token ]}
  | None => ∅
  end.

End Github.

(** ** StepTracker *)
Module Tracker.

Inductive status := Pending | Running | Done | Error | Skipped.

(** One entry of [self.steps]: the dict [{key, label, status, detail}]. *)
Record step := Step {
  key : string;
  label : string;
  st : status;
  detail : string
}.

(** The tracker object.  The refresh callback only redraws a display: it is
    modelled by whether one is attached and by the number of times it has
    been invoked. *)
Record t := Make {
  title : string;
  steps : list step;
  refresh_cb : bool;
  refreshes : nat
}.

Definition init (title : string) : t := Make title [] false 0.

Definition attach_refresh (tr : t) : t :=
  Make (title tr) (steps tr) true (refreshes tr).

Definition _maybe_refresh (tr : t) : t :=
  if refresh_cb tr
  then Make (title tr) (steps tr) true (S (refreshes tr))
  else tr.

Definition with_steps (tr : t) (l : list step) : t :=
  Make (title tr) l (refresh_cb tr) (refreshes tr).

Definition add (tr : t) (k lbl : string) : t :=
  if Py.mem k (map key (steps tr)) then tr
  else _maybe_refresh (with_steps tr (steps tr ++ [Step k lbl Pending ""])).

(** The loop of [_update]: the first step whose key matches is rewritten
    and the loop returns; [None] when no step matches. *)
Fixpoint update_first (k : string) (s' : status) (d : string)
    (l : list step) : option (list step) :=
  match l with
  | [] => None
  | s :: r =>
      if String.eqb (key s) k
      then Some (Step (key s) (label s) s'
                   (if Py.truthy d then d else detail s) :: r)
      else option_map (cons s) (update_first k s' d r)
  end.

Definition _update (tr : t) (k : string) (s' : status) (d : string) : t :=
  match update_first k s' d (steps tr) with
  | Some l => _maybe_refresh (with_steps tr l)
  | None => _maybe_refresh (with_steps tr (steps tr ++ [Step k k s' d]))
  end.

Definition start (tr : t) (k d : string) : t := _update tr k Running d.
Definition complete (tr : t) (k d : string) : t := _update tr k Done d.
Definition error (tr : t) (k d : string) : t := _update tr k Error d.
Definition skip (tr : t) (k d : string) : t := _update tr k Skipped d.

(** The first step stored under a key. *)
Definition find (tr : t) (k : string) : option step :=
  List.find (fun s => String.eqb (key s) k) (steps tr).

End Tracker.

(** ** Exceptions raised by the modelled functions *)
Inductive exn :=
| BadParameter (msg : string)      (* typer.BadParameter *)
| Exit (code : Z)                  (* typer.Exit *)
| RuntimeError (msg : string)
| OSError (msg : string)           (* any filesystem or archive failure *)
| ValueError (msg : string)
| OverflowError (msg : string).

(** [str(e)] *)
Definition exn_str (e : exn) : string :=
  match e with
  | BadParameter m | RuntimeError m | OSError m | ValueError m
  | OverflowError m => m
  | Exit c => pretty c
  end.

(** ** Project-state classifier *)
Module Classifier.

(** *** Binary64 arithmetic, as CPython performs it *)

(** [float(n)] for a small non-negative integer. *)
Definition float_of_N (n : N) : float :=
  PrimFloat.of_uint63 (Uint63.of_Z (Z.of_N n)).

(** [min(a, b)] on floats: the first argument unless the second is
    strictly smaller. *)
Definition fmin (a b : float) : float :=
  if PrimFloat.ltb b a then b else a.

(** Nearest integer of [m * 2^e], ties to even. *)
Definition round_half_even (m : positive) (e : Z) : Z :=
  if (0 <=? e)%Z then Z.pos m * 2 ^ e
  else
    let d := (2 ^ (- e))%Z in
    let q := (Z.pos m / d)%Z in
    match (2 * (Z.pos m mod d) ?= d)%Z with
    | Lt => q
    | Gt => (q + 1)%Z
    | Eq => if Z.even q then q else (q + 1)%Z
    end.

(** [int(round(x))]: [round] raises on infinities and on NaN. *)
Definition py_round (x : float) : exn + Z :=
  match Prim2SF x with
  | S754_zero _ => inr 0%Z
  | S754_finite s m e =>
      let z := round_half_even m e in inr (if s then (- z)%Z else z)
  | S754_infinity _ =>
      inl (OverflowError "cannot convert float infinity to integer")
  | S754_nan => inl (ValueError "cannot convert float NaN to integer")
  end.

(** *** Constants *)

Definition CONFIG_FILE_MARKERS : list string :=
  [ "package.json"; "pnpm-lock.yaml"; "yarn.lock"; "pyproject.toml";
    "requirements.txt"; "composer.json"; "Gemfile"; "Cargo.toml"; "go.mod";
    "pom.xml"; "build.gradle"; "Dockerfile"; "docker-compose.yml";
    "next.config.js"; "vite.config.js"; "vite.config.ts"; "tsconfig.json";
    "Makefile" ].

Definition MAX_CLASSIFICATION_SCAN : nat := 800.

Definition VALID_PROJECT_TYPES : list string :=
  [ "auto"; "greenfield"; "brownfield"; "ongoing" ].

Definition SCAN_EXCLUDE_DIRS : list string :=
  [ ".git"; ".specify"; "__pycache__"; "node_modules"; ".venv"; ".idea";
    ".vscode" ].

(** *** The directory, as [os.walk] and the [Path] queries observe it *)

(** A directory lists its non-directory entries ([files]) and its
    sub-directories ([dirs]).  [Unlistable] stands for a path [os.walk]
    yields nothing for: a symlinked directory (links are not followed), a
    directory whose listing fails (errors are ignored), or a path that is
    not a directory. *)
Inductive tree :=
| Listing (files : list string) (dirs : list (string * tree))
| Unlistable.

(** What the classifier reads from the outside world:
    - [tree_of]: the tree [os.walk] sees at [project_path], [None] when
      [project_path.exists()] is false;
    - [git_rev_count]: the number printed by [git rev-list --count HEAD],
      [None] when the command fails or prints no number;
    - [path_error]: the exception that [project_path.resolve()] or
      [project_path.exists()] raises, if any ([exists] returns false for a
      missing path but raises on, say, a parent that cannot be searched or
      a name that is too long);
    - [specify_probe], [specs_probe]: the outcomes of
      [(project_path / ".specify").exists()] and
      [(project_path / "specs").exists()], a boolean or the exception
      raised.  They are observations of their own: [exists] follows
      symbolic links, so it can deny a name the walk lists. *)
Record target := Target {
  tree_of : option tree;
  git_rev_count : option N;
  path_error : option exn;
  specify_probe : exn + bool;
  specs_probe : exn + bool
}.

(** [_safe_git_commit_count] *)
Definition _safe_git_commit_count (tg : target) : N :=
  match git_rev_count tg with Some n => n | None => 0%N end.

(** [os.walk(project_path)] top-down, with the consumer's in-place pruning
    [dirs[:] = [d for d in dirs if d not in SCAN_EXCLUDE_DIRS]] applied
    before the walk descends.  Each item is [(root, files)], [root] being
    the path components below [project_path]. *)
Fixpoint os_walk (root : list string) (tr : tree)
  : list (list string * list string) :=
  match tr with
  | Unlistable => []
  | Listing files dirs =>
      (root, files) ::
      (fix walk_dirs (ds : list (string * tree)) :=
         match ds with
         | [] => []
         | (d, sub) :: ds' =>
             if Py.mem d SCAN_EXCLUDE_DIRS then walk_dirs ds'
             else os_walk (root ++ [d]) sub ++ walk_dirs ds'
         end) dirs
  end.

(** The three accumulators of [_scan_project_state]. *)
Record scan_acc := Acc {
  acc_file_count : nat;
  acc_config_hits : list string;
  acc_sample_paths : list string
}.

(** One iteration of the inner loop, up to the cap test. *)
Definition scan_file (root : list string) (name : string) (a : scan_acc)
  : scan_acc :=
  let rel_path := Py.join "/" (root ++ [name]) in
  Acc (S (acc_file_count a))
      (if Py.mem name CONFIG_FILE_MARKERS
          && (length (acc_config_hits a) <? 12)%nat
       then acc_config_hits a ++ [rel_path] else acc_config_hits a)
      (if (length (acc_sample_paths a) <? 6)%nat
       then acc_sample_paths a ++ [rel_path] else acc_sample_paths a).

(** [for name in files: ...; if file_count >= MAX: break] *)
Fixpoint scan_files (root : list string) (files : list string)
    (a : scan_acc) : scan_acc :=
  match files with
  | [] => a
  | name :: rest =>
      let a' := scan_file root name a in
      if (MAX_CLASSIFICATION_SCAN <=? acc_file_count a')%nat then a'
      else scan_files root rest a'
  end.

(** [for root, dirs, files in os.walk(..): ...; if file_count >= MAX: break] *)
Fixpoint scan_walk (items : list (list string * list string))
    (a : scan_acc) : scan_acc :=
  match items with
  | [] => a
  | (root, files) :: rest =>
      let a' := scan_files root files a in
      if (MAX_CLASSIFICATION_SCAN <=? acc_file_count a')%nat then a'
      else scan_walk rest a'
  end.

(** The dict returned by [_scan_project_state]. *)
Record scan := Scan {
  scan_file_count : nat;
  scan_config_hits : list string;
  scan_sample_paths : list string;
  scan_has_specify : bool;
  scan_has_specs_dir : bool;
  scan_git_commits : N
}.

(** Lines 124-140: the two loops, from empty accumulators. *)
Definition scan_loops (tr : tree) : scan_acc :=
  scan_walk (os_walk [] tr) (Acc 0 [] []).

(** [_scan_project_state]: the loops, then the two [exists()] queries,
    either of which may raise, then the commit count. *)
Definition _scan_project_state (tr : tree) (tg : target) : exn + scan :=
  let a := scan_loops tr in
  match specify_probe tg with
  | inl e => inl e
  | inr has_specify =>
      match specs_probe tg with
      | inl e => inl e
      | inr has_specs_dir =>
          inr (Scan (acc_file_count a) (acc_config_hits a)
                 (acc_sample_paths a) has_specify has_specs_dir
                 (_safe_git_commit_count tg))
      end
  end.

(** *** The verdict *)

(** [detected["stats"]]; the last three keys are absent when the target
    directory does not exist. *)
Record stats := Stats {
  file_count : nat;
  git_commits : N;
  config_hits : list string;
  sample_paths : option (list string);
  has_specify : option bool;
  has_specs_dir : option bool
}.

(** The dict [detected] before the final [update]. *)
Record detected := Detected {
  d_project_type : string;
  d_confidence : float;
  d_reason : string;
  d_stats : stats;
  d_signals : list string;
  d_safeguard_required : bool;
  d_requires_confirmation : bool;
  d_override_origin : option string
}.

(** The dict returned by [classify_project_state]. *)
Record verdict := Verdict {
  project_type : string;
  confidence : float;
  reason : string;
  v_stats : stats;
  signals : list string;
  safeguard_required : bool;
  requires_confirmation : bool;
  override_origin : option string;
  analysis_timestamp : string;
  confidence_score : Z;
  migration_recommendations : list string;
  override_applied : bool;
  existing_files_count : nat;
  warnings : list string
}.

(** *** The heuristic *)

Definition auto_type_of (sc : scan) : string :=
  let auto_type := "greenfield" in
  let auto_type :=
    if scan_has_specify sc || scan_has_specs_dir sc then "ongoing"
    else auto_type in
  if (20 <=? scan_git_commits sc)%N
     || (2 <=? length (scan_config_hits sc))%nat
     || (120 <=? scan_file_count sc)%nat
  then "brownfield"
  else if negb (String.eqb auto_type "ongoing")
          && ((1 <=? scan_git_commits sc)%N
              || (1 <=? length (scan_config_hits sc))%nat
              || (12 <=? scan_file_count sc)%nat)
  then "ongoing"
  else auto_type.

Definition confidence_of (auto_type : string) (sc : scan) : float :=
  let confidence := 0.75%float in
  if String.eqb auto_type "greenfield" then
    if (scan_file_count sc =? 0)%nat then 0.95%float else 0.8%float
  else if String.eqb auto_type "ongoing" then
    let confidence :=
      (0.65 + 0.05 * float_of_N (N.min (scan_git_commits sc) 4))%float in
    let confidence :=
      (confidence
       + 0.05 * float_of_N
                  (N.of_nat (Nat.min (length (scan_config_hits sc)) 2)))%float in
    let confidence :=
      if scan_has_specify sc then (confidence + 0.1)%float else confidence in
    fmin confidence 0.9%float
  else if String.eqb auto_type "brownfield" then
    let confidence := 0.7%float in
    let confidence :=
      if (20 <=? scan_git_commits sc)%N then (confidence + 0.1)%float
      else confidence in
    let confidence :=
      if (2 <=? length (scan_config_hits sc))%nat then (confidence + 0.1)%float
      else confidence in
    let confidence :=
      if (120 <=? scan_file_count sc)%nat then (confidence + 0.05)%float
      else confidence in
    fmin confidence 0.98%float
  else confidence.

(** The signals appended after [detected] is built, in order. *)
Definition heuristic_signals (sc : scan) : list string :=
  [ "Files detected: " +:+ pretty (scan_file_count sc) ]
  ++ (if (scan_git_commits sc =? 0)%N then []
      else [ "Git commits detected: " +:+ pretty (scan_git_commits sc) ])
  ++ (match scan_config_hits sc with
      | [] => []
      | hits =>
          [ "Config markers: " +:+ Py.join ", " (firstn 4 hits)
            +:+ (if (4 <? length hits)%nat then " …" else "") ]
      end)
  ++ (if scan_has_specify sc then [ "Existing .specify directory present" ]
      else [])
  ++ (if scan_has_specs_dir sc then [ "Existing specs/ directory present" ]
      else []).

(** Line 177, under [path_exists]: the scan of an existing directory,
    [None] for a path that does not exist. *)
Definition scanned (tg : target) : exn + option scan :=
  match tree_of tg with
  | None => inr None
  | Some tr =>
      match _scan_project_state tr tg with
      | inl e => inl e
      | inr sc => inr (Some sc)
      end
  end.

(** The branch on [path_exists] (lines 166-238): the dict [detected] for
    a missing path, or from the scan. *)
Definition detect (found : option scan) : detected :=
  match found with
  | None =>
      Detected "greenfield" 0.98%float "target directory does not exist yet"
        (Stats 0 0 [] None None None)
        [ "Target directory absent: treating as new project" ]
        false false None
  | Some sc =>
      let auto_type := auto_type_of sc in
      Detected auto_type (confidence_of auto_type sc) "heuristic analysis"
        (Stats (scan_file_count sc) (scan_git_commits sc)
           (scan_config_hits sc) (Some (scan_sample_paths sc))
           (Some (scan_has_specify sc)) (Some (scan_has_specs_dir sc)))
        (heuristic_signals sc)
        (String.eqb auto_type "brownfield")
        (negb (scan_file_count sc =? 0)%nat
         && negb (String.eqb auto_type "greenfield"))
        None
  end.

(** The block under [if override_applied:]. *)
Definition apply_override (override_normalized : string) (d : detected)
  : detected :=
  Detected override_normalized 0.99%float "manual override" (d_stats d)
    (d_signals d ++ [ "Manual override requested: " +:+ override_normalized ])
    (String.eqb override_normalized "brownfield")
    (d_requires_confirmation d
     || Py.mem override_normalized [ "brownfield"; "ongoing" ])
    (Some override_normalized).

Definition recommendations (ptype : string) : list string :=
  if String.eqb ptype "brownfield" then
    [ "Create a backup branch before initializing templates";
      "Document mapping between existing architecture and Spec Kit artifacts";
      "Review dependency versions to avoid template overwrites" ]
  else if String.eqb ptype "ongoing" then
    [ "Align new artifacts with existing feature directories";
      "Verify SPECIFY_FEATURE matches current working branch" ]
  else [].

Definition warnings_of (ptype : string) (git : N) (existing : nat)
    (override_applied : bool) : list string :=
  (if String.eqb ptype "brownfield" && (git =? 0)%N
   then [ "Significant file volume without git history detected" ] else [])
  ++ (if String.eqb ptype "greenfield" && negb (existing =? 0)%nat
      then [ "Non-empty directory classified as greenfield; review before proceeding" ]
      else [])
  ++ (if override_applied then [ "Project type forced via --project-type" ]
      else []).

(** [classify_project_state(project_path, override)].  [utcnow] is the text
    of [datetime.utcnow().isoformat()]; the [debug] flag only prints.  The
    override is checked first; then come the queries on the path, each of
    which may raise. *)
Definition classify_project_state (tg : target) (override : option string)
    (utcnow : string) : exn + verdict :=
  let override_normalized := Py.lower (Py.or_str override "auto") in
  if negb (Py.mem override_normalized VALID_PROJECT_TYPES) then
    inl (BadParameter
           ("Invalid project type '" +:+ Py.or_str override "auto"
            +:+ "'. Choose from auto, brownfield, greenfield, ongoing."))
  else
    match path_error tg with
    | Some e => inl e
    | None =>
        let path_exists := bool_decide (is_Some (tree_of tg)) in
        match scanned tg with
        | inl e => inl e
        | inr found =>
            let d := detect found in
            let override_applied :=
              negb (String.eqb override_normalized "auto") in
            let d :=
              if override_applied then apply_override override_normalized d
              else d in
            let migration_recommendations :=
              recommendations (d_project_type d) in
            match py_round (d_confidence d * 100)%float with
            | inl e => inl e
            | inr score =>
                let existing :=
                  if path_exists then file_count (d_stats d) else 0%nat in
                inr (Verdict (d_project_type d) (d_confidence d) (d_reason d)
                       (d_stats d) (d_signals d) (d_safeguard_required d)
                       (d_requires_confirmation d) (d_override_origin d)
                       (utcnow +:+ "Z") score migration_recommendations
                       override_applied existing
                       (warnings_of (d_project_type d)
                          (git_commits (d_stats d)) existing
                          override_applied))
            end
        end
    end.

(** *** Notions used to state the properties *)

(** The files of a tree that are not below an excluded or unlistable
    directory. *)
Fixpoint visible_files (tr : tree) : nat :=
  match tr with
  | Unlistable => 0
  | Listing files dirs =>
      length files
      + (fix below (ds : list (string * tree)) : nat :=
           match ds with
           | [] => 0
           | (d, sub) :: ds' =>
               (if Py.mem d SCAN_EXCLUDE_DIRS then 0 else visible_files sub)
               + below ds'
           end) dirs
  end.

(** The number of file names a walk yields. *)
Definition items_total (items : list (list string * list string)) : nat :=
  list_sum (map (λ it, length (snd it)) items).

(** A confidence lies in [0, 1] and its score, [int(round(x * 100))], is
    defined and lies in [0, 100]. *)
Definition score_ok (x : float) : bool :=
  PrimFloat.leb 0 x && PrimFloat.leb x 1
  && match py_round (x * 100)%float with
     | inr z => (0 <=? z)%Z && (z <=? 100)%Z
     | inl _ => false
     end.

(** The score of the heuristic in exact arithmetic, in hundredths, as the
    specification words it: 0.95 or 0.80 for greenfield;
    0.65 + 0.05 min(commits, 4) + 0.05 min(hits, 2) + 0.10 with [.specify],
    capped at 0.90, for ongoing; 0.70 + 0.10 + 0.10 + 0.05 for the three
    thresholds, capped at 0.98, for brownfield. *)
Definition decimal_score (auto_type : string) (sc : scan) : Z :=
  if String.eqb auto_type "greenfield" then
    if (scan_file_count sc =? 0)%nat then 95 else 80
  else if String.eqb auto_type "ongoing" then
    Z.min (65 + 5 * Z.of_N (N.min (scan_git_commits sc) 4)
           + 5 * Z.of_nat (Nat.min (length (scan_config_hits sc)) 2)
           + (if scan_has_specify sc then 10 else 0)) 90
  else if String.eqb auto_type "brownfield" then
    Z.min (70 + (if (20 <=? scan_git_commits sc)%N then 10 else 0)
           + (if (2 <=? length (scan_config_hits sc))%nat then 10 else 0)
           + (if (120 <=? scan_file_count sc)%nat then 5 else 0)) 98
  else 75.

(** An override argument the function accepts. *)
Definition valid_override (override : option string) : Prop :=
  Py.mem (Py.lower (Py.or_str override "auto")) VALID_PROJECT_TYPES = true.

(** The first query on the path that raises, in the order the function
    makes them: [resolve()] and [exists()] on the path itself, then, for an
    existing path, the two [exists()] of the scan. *)
Definition query_error (tg : target) : option exn :=
  match path_error tg with
  | Some e => Some e
  | None =>
      match tree_of tg with
      | None => None
      | Some _ =>
          match specify_probe tg, specs_probe tg with
          | inl e, _ => Some e
          | inr _, inl e => Some e
          | inr _, inr _ => None
          end
      end
  end.

(** [z] is the integer nearest to the binary64 number [x], the even one
    when [x] lies half-way between two integers: what [round] must return,
    stated on the sign, mantissa and exponent of [x]. *)
Definition nearest_even (x : float) (z : Z) : Prop :=
  match Prim2SF x with
  | S754_zero _ => z = 0%Z
  | S754_finite s m e =>
      let a := if s then (- z)%Z else z in
      (0 <= a)%Z
      ∧ if (0 <=? e)%Z then a = (Z.pos m * 2 ^ e)%Z
        else
          let d := (2 ^ (- e))%Z in
          (Z.abs (2 * (Z.pos m - a * d)) <= d)%Z
          ∧ (Z.abs (2 * (Z.pos m - a * d)) = d → Z.even a = true)
  | _ => False
  end.

End Classifier.

(** ** Template source: choosing the release asset *)
Module TemplateSource.

(** One element of [release_data["assets"]]. *)
Record asset := Asset {
  name : string;
  browser_download_url : string;
  size : N
}.

(** [f"spec-kit-template-{ai_assistant}-{script_type}"] *)
Definition pattern (ai_assistant script_type : string) : string :=
  "spec-kit-template-" +:+ ai_assistant +:+ "-" +:+ script_type.

(** The condition of the list comprehension. *)
Definition matches (pat : string) (a : asset) : bool :=
  Py.contains pat (name a) && Py.endswith ".zip" (name a).

Definition matching_assets (assets : list asset) (pat : string)
  : list asset :=
  List.filter (matches pat) assets.

(** Lines 858-872 of [download_template_from_github]: the asset, or the
    message printed on the console together with [typer.Exit(1)]. *)
Definition select_asset (assets : list asset)
    (ai_assistant script_type : string) : (string * exn) + asset :=
  let pat := pattern ai_assistant script_type in
  match matching_assets assets pat with
  | a :: _ => inr a
  | [] =>
      inl ("No matching release asset found for " +:+ ai_assistant
           +:+ " (expected pattern: " +:+ pat +:+ ")", Exit 1)
  end.

(** "The name contains the pattern and ends with the archive extension",
    in terms of concatenation. *)
Definition name_matches (pat : string) (a : asset) : Prop :=
  (∃ u v, name a = u +:+ pat +:+ v) ∧ (∃ u, name a = u +:+ ".zip").

End TemplateSource.

(** ** Permission pass over the scripts directory *)
Module Permissions.

(** Permission bits, written in octal in the source. *)
Definition o400 : Z := 256.
Definition o040 : Z := 32.
Definition o004 : Z := 4.
Definition o100 : Z := 64.
Definition o010 : Z := 8.
Definition o001 : Z := 1.
Definition o111 : Z := 73.

(** A path below [scripts_root], with what the loop observes of it:
    [head] is the result of [f.read(2)] ([None] when opening or reading
    raises), [chmod_error] the message of the exception [os.chmod] raises
    on it, if any. *)
Record entry := Entry {
  path : list string;
  is_symlink : bool;
  is_file : bool;
  head : option string;
  st_mode : Z;
  chmod_error : option string
}.

(** The last component of a path. *)
Definition basename (p : list string) : string := List.last p "".

(** [scripts_root.rglob("*.sh")]: the entries whose name ends in [.sh]. *)
Definition rglob_sh (entries : list entry) : list entry :=
  List.filter (fun e => Py.endswith ".sh" (basename (path e))) entries.

(** The mode handed to [os.chmod]. *)
Definition new_mode (mode : Z) : Z :=
  let nm := mode in
  let nm := if Z.eqb (Z.land mode o400) 0 then nm else Z.lor nm o100 in
  let nm := if Z.eqb (Z.land mode o040) 0 then nm else Z.lor nm o010 in
  let nm := if Z.eqb (Z.land mode o004) 0 then nm else Z.lor nm o001 in
  if Z.eqb (Z.land nm o100) 0 then Z.lor nm o100 else nm.

(** What one iteration of the loop does. *)
Inductive action :=
| Skip                                 (* [continue] *)
| Chmod (p : list string) (mode : Z)   (* [os.chmod] succeeded *)
| Failure (msg : string).              (* caught by [except Exception] *)

Definition visit (e : entry) : action :=
  if is_symlink e || negb (is_file e) then Skip
  else match head e with
       | None => Skip
       | Some h =>
           if negb (String.eqb h "#!") then Skip
           else if negb (Z.eqb (Z.land (st_mode e) o111) 0) then Skip
           else match chmod_error e with
                | Some msg =>
                    Failure (Py.join "/" (path e) +:+ ": " +:+ msg)
                | None => Chmod (path e) (new_mode (st_mode e))
                end
       end.

(** The effects of the pass: the successful [os.chmod] calls in order, the
    counter [updated] and the list [failures]. *)
Record outcome := Outcome {
  chmods : list (list string * Z);
  updated : nat;
  failures : list string
}.

Fixpoint run_loop (l : list entry) (o : outcome) : outcome :=
  match l with
  | [] => o
  | e :: r =>
      run_loop r
        match visit e with
        | Skip => o
        | Chmod p m => Outcome (chmods o ++ [(p, m)]) (S (updated o))
                         (failures o)
        | Failure msg => Outcome (chmods o) (updated o) (failures o ++ [msg])
        end
  end.

(** Report to the tracker, when there is one. *)
Definition report (o : outcome) (tr : Tracker.t) : Tracker.t :=
  let detail :=
    pretty (updated o) +:+ " updated"
    +:+ (match failures o with
         | [] => ""
         | fs => ", " +:+ pretty (length fs) +:+ " failed"
         end) in
  let tr := Tracker.add tr "chmod" "Set script permissions recursively" in
  match failures o with
  | [] => Tracker.complete tr "chmod" detail
  | _ => Tracker.error tr "chmod" detail
  end.

(** [ensure_executable_scripts]: [os_name] is [os.name], [root_is_dir] is
    [scripts_root.is_dir()], [below] lists every path under
    [.specify/scripts].  Without a tracker the function prints the same
    figures on the console, which is not part of the state. *)
Definition ensure_executable_scripts (os_name : string) (root_is_dir : bool)
    (below : list entry) (tracker : option Tracker.t)
  : outcome * option Tracker.t :=
  if String.eqb os_name "nt" then (Outcome [] 0 [], tracker)
  else if negb root_is_dir then (Outcome [] 0 [], tracker)
  else
    let o := run_loop (rglob_sh below) (Outcome [] 0 []) in
    (o, option_map (report o) tracker).

(** *** Notions used to state the properties *)

(** A regular file, not a symlink, that starts with the shebang and has no
    execute bit. *)
Definition shebang_without_exec (e : entry) : bool :=
  negb (is_symlink e) && is_file e
  && match head e with Some h => String.eqb h "#!" | None => false end
  && Z.eqb (Z.land (st_mode e) o111) 0.

(** Such a file, named [*.sh], on which [os.chmod] succeeds. *)
Definition counted (e : entry) : bool :=
  Py.endswith ".sh" (basename (path e)) && shebang_without_exec e
  && match chmod_error e with None => true | Some _ => false end.

End Permissions.

(** ** Archive installer *)
Module Installer.

(** *** The file system *)

(** A file with its bytes, or a directory with its entries in listing
    order. *)
Inductive node :=
| File (content : string)
| Dir (entries : list (string * node)).

Definition path := list string.

Fixpoint assoc (c : string) (es : list (string * node)) : option node :=
  match es with
  | [] => None
  | (k, n) :: r => if String.eqb k c then Some n else assoc c r
  end.

(** Removes every entry called [c]. *)
Definition adel (c : string) (es : list (string * node))
  : list (string * node) :=
  List.filter (fun e => negb (String.eqb (fst e) c)) es.

(** Replaces the entry called [c], or appends one. *)
Fixpoint aset (c : string) (x : node) (es : list (string * node))
  : list (string * node) :=
  match es with
  | [] => [(c, x)]
  | (k, n) :: r => if String.eqb k c then (k, x) :: r else (k, n) :: aset c x r
  end.

Fixpoint lookup (n : node) (p : path) : option node :=
  match p with
  | [] => Some n
  | c :: p' =>
      match n with
      | Dir es => match assoc c es with
                  | Some m => lookup m p'
                  | None => None
                  end
      | File _ => None
      end
  end.

(** [p.exists()] and [p.is_dir()] *)
Definition exists_ (n : node) (p : path) : bool :=
  match lookup n p with Some _ => true | None => false end.

Definition is_dir (n : node) (p : path) : bool :=
  match lookup n p with Some (Dir _) => true | _ => false end.

(** Binds [x] at [p]; the parent of [p] must be a directory. *)
Fixpoint put (n : node) (p : path) (x : node) : option node :=
  match p with
  | [] => Some x
  | c :: p' =>
      match n with
      | File _ => None
      | Dir es =>
          match p' with
          | [] => Some (Dir (aset c x es))
          | _ => m ← assoc c es; m' ← put m p' x; Some (Dir (aset c m' es))
          end
      end
  end.

(** The tree without [p] and what is below it. *)
Fixpoint remove (n : node) (p : path) : node :=
  match p with
  | [] => n
  | c :: p' =>
      match n with
      | File _ => n
      | Dir es =>
          match p' with
          | [] => Dir (adel c es)
          | _ => match assoc c es with
                 | Some m => Dir (aset c (remove m p') es)
                 | None => n
                 end
          end
      end
  end.

(** [shutil.rmtree(p)]: removes the directory [p] with everything below
    it.  On a path that is not a directory (a regular file; in Python a
    symbolic link as well) it raises, [NotADirectoryError] for a file, and
    removes nothing. *)
Definition rmtree (n : node) (p : path) : option node :=
  if is_dir n p then Some (remove n p) else None.

(** [os.makedirs(p, exist_ok=True)]: fails when a file is in the way. *)
Fixpoint mkdir_p (n : node) (p : path) : option node :=
  match n with
  | File _ => None
  | Dir es =>
      match p with
      | [] => Some n
      | c :: p' =>
          m' ← mkdir_p (default (Dir []) (assoc c es)) p';
          Some (Dir (aset c m' es))
      end
  end.

(** [Path.mkdir(parents=True)]: as above, but [p] must not exist. *)
Definition mkdir_parents (n : node) (p : path) : option node :=
  if exists_ n p then None else mkdir_p n p.

(** Opens [p] for writing and stores [content]. *)
Definition write_file (n : node) (p : path) (content : string)
  : option node :=
  if is_dir n p then None else put n p (File content).

(** [Path.rmdir]: the directory must be empty. *)
Definition rmdir (n : node) (p : path) : option node :=
  match p, lookup n p with
  | _ :: _, Some (Dir []) => Some (remove n p)
  | _, _ => None
  end.

(** [list(p.iterdir())], as entry names. *)
Definition iterdir (n : node) (p : path) : option (list string) :=
  match lookup n p with
  | Some (Dir es) => Some (map fst es)
  | _ => None
  end.

Definition basename (p : path) : string := List.last p "".

(** [shutil.move(src, dst)]: into [dst] when it is a directory; never onto
    an existing directory, and a directory never onto a file. *)
Definition move (n : node) (src dst : path) : option node :=
  x ← lookup n src;
  let real_dst := if is_dir n dst then dst ++ [basename src] else dst in
  match lookup n real_dst, x with
  | None, _ | Some (File _), File _ => put (remove n src) real_dst x
  | _, _ => None
  end.

(** [shutil.copy2(src, dst)] for a file with bytes [content] called
    [name]. *)
Definition copy2 (n : node) (name content : string) (dst : path)
  : option node :=
  write_file n (if is_dir n dst then dst ++ [name] else dst) content.

(** [shutil.copytree(src, dst)]: [dst] must not exist. *)
Definition copytree (n : node) (x : node) (dst : path) : option node :=
  if exists_ n dst then None else put n dst x.

(** The regular files of [item.rglob('*')], with their paths relative to
    [item]. *)
Fixpoint files_under (n : node) : list (path * string) :=
  match n with
  | File _ => []
  | Dir es =>
      (fix go (l : list (string * node)) : list (path * string) :=
         match l with
         | [] => []
         | (k, File c) :: r => ([k], c) :: go r
         | (k, sub) :: r =>
             map (fun pc => (k :: fst pc, snd pc)) (files_under sub) ++ go r
         end) es
  end.

(** A member of the archive: its name split at the separators, and its
    bytes ([None] for a directory member). *)
Definition member : Type := path * option string.

(** [ZipFile._extract_member]: the upper directories are created as
    needed. *)
Definition extract_member (target : path) (m : member) (n : node)
  : option node :=
  match snd m with
  | None => mkdir_p n (target ++ fst m)
  | Some content =>
      n' ← mkdir_p n (target ++ removelast (fst m));
      write_file n' (target ++ fst m) content
  end.

(** Nothing exists at [p] or below it. *)
Definition absent (n : node) (p : path) : Prop :=
  ∀ q, lookup n (p ++ q) = None.

(** *** State, failures and the tracker *)

(** The file system, the optional tracker, and the schedule of injected
    failures: each file-system call of the [try] block consumes one flag
    and raises when the flag is set. *)
Record world := World {
  fs : node;
  tracker : option Tracker.t;
  faults : list bool
}.

Definition M (A : Type) : Type := world → (exn + A) * world.

#[local] Instance M_ret : MRet M := λ A x w, (inr x, w).
#[local] Instance M_bind : MBind M := λ A B f m w,
  match m w with
  | (inr x, w') => f x w'
  | (inl e, w') => (inl e, w')
  end.

Definition raise {A} (e : exn) : M A := λ w, (inl e, w).

Definition tick : M unit := λ w,
  match faults w with
  | [] => (inr tt, w)
  | b :: r =>
      let w' := World (fs w) (tracker w) r in
      if b then (inl (OSError "file system call failed"), w') else (inr tt, w')
  end.

(** The effect of a call on the tree; [None] is a failure of the call. *)
Definition update_fs (what : string) (f : node → option node) : M unit :=
  λ w, match f (fs w) with
       | Some n => (inr tt, World n (tracker w) (faults w))
       | None => (inl (OSError what), w)
       end.

Definition read_fs {A} (what : string) (f : node → option A) : M A :=
  λ w, match f (fs w) with
       | Some x => (inr x, w)
       | None => (inl (OSError what), w)
       end.

(** A file-system call of the [try] block that changes the tree. *)
Definition fs_call (what : string) (f : node → option node) : M unit :=
  tick;; update_fs what f.

(** A file-system call of the [try] block that reads the tree. *)
Definition fs_read {A} (what : string) (f : node → option A) : M A :=
  tick;; read_fs what f.

(** A tracker method call, under [if tracker:]. *)
Definition track (f : Tracker.t → Tracker.t) : M unit := λ w,
  (inr tt, World (fs w) (option_map f (tracker w)) (faults w)).

(** A call that cannot fail (clean-up outside the [try] body). *)
Definition fs_total (f : node → node) : M unit := λ w,
  (inr tt, World (f (fs w)) (tracker w) (faults w)).

Definition get_fs : M node := λ w, (inr (fs w), w).

(** [try: body  except Exception as e: ...]: hands the outcome over. *)
Definition try_ {A} (body : M A) : M (exn + A) := λ w,
  let '(r, w') := body w in (inr r, w').

Fixpoint for_each {A} (l : list A) (f : A → M unit) : M unit :=
  match l with
  | [] => mret tt
  | x :: r => f x;; for_each r f
  end.

(** [n:,]: decimal digits with a comma between groups of three. *)
Fixpoint group3 (l : list ascii) (k : nat) : list ascii :=
  match l with
  | [] => []
  | c :: r =>
      match k with
      | 3 => ","%char :: c :: group3 r 1
      | _ => c :: group3 r (S k)
      end
  end.

Definition commas (n : N) : string :=
  string_of_list_ascii
    (rev (group3 (rev (list_ascii_of_string (pretty n))) 0)).

(** [Path.mkdir()] without parents, as [tempfile.mkdtemp] does. *)
Definition mkdir (n : node) (p : path) : option node :=
  if exists_ n p then None else put n p (Dir []).

(** What the release endpoint and the download deliver: the [metadata]
    dict and the bytes of the asset. *)
Record fetched := Fetched {
  filename : string;
  size : N;
  release : string;
  body : string
}.

(** [download_template_from_github], seen from the file system: the
    network exchange is an input ([None] when any step of it failed, which
    the function turns into [typer.Exit(1)]); on success the bytes are
    written to [download_dir / filename]. *)
Definition download_template_from_github (download_dir : path)
    (net : option fetched) : M (path * fetched) :=
  match net with
  | None => raise (Exit 1)
  | Some d =>
      let zip_path := download_dir ++ [filename d] in
      r ← try_ (update_fs "open" (λ n, write_file n zip_path (body d)));
      match r with
      | inl _ => raise (Exit 1)
      | inr _ => mret (zip_path, d)
      end
  end.

Section Install.

(** [ZipFile(zip_path).infolist()] as a function of the bytes of the
    file; [None] when they are not a readable archive. *)
Variable read_zip : string → option (list member).

(** [zip_ref.extractall(target)]: member after member. *)
Definition extractall (target : path) (ms : list member) : M unit :=
  for_each ms (λ m, fs_call "extract" (extract_member target m)).

(** [with zipfile.ZipFile(zip_path, 'r') as zip_ref: zip_ref.namelist()] *)
Definition open_zip (zip_path : path) : M (list member) :=
  bytes ← fs_read "open"
            (λ n, match lookup n zip_path with
                  | Some (File c) => Some c
                  | _ => None
                  end);
  match read_zip bytes with
  | Some ms => mret ms
  | None => raise (OSError "File is not a zip file")
  end.

(** [with tempfile.TemporaryDirectory() as temp_dir: body]: the
    directory is removed however the body ends. *)
Definition with_temp {A} (temp_dir : path) (body : M A) : M A :=
  fs_call "mkdtemp" (λ n, mkdir n temp_dir);;
  r ← try_ body;
  fs_total (λ n, remove n temp_dir);;
  match r with
  | inl e => raise e
  | inr x => mret x
  end.

(** One iteration of [for item in source_dir.iterdir()]. *)
Definition merge_item (project_path source_dir : path) (name : string)
  : M unit :=
  let dest_path := project_path ++ [name] in
  item ← fs_read "stat" (λ n, lookup n (source_dir ++ [name]));
  match item with
  | Dir _ =>
      n ← get_fs;
      if exists_ n dest_path then
        for_each (files_under item) (λ pc,
          let dest_file := dest_path ++ fst pc in
          fs_call "mkdir" (λ n, mkdir_p n (removelast dest_file));;
          fs_call "copy2"
            (λ n, copy2 n (basename (fst pc)) (snd pc) dest_file))
      else fs_call "copytree" (λ n, copytree n item dest_path)
  | File content => fs_call "copy2" (λ n, copy2 n name content dest_path)
  end.

(** The current-directory branch: extract to a scratch directory, then
    merge into [project_path]. *)
Definition merge_extract (project_path temp_dir : path)
    (zip_contents : list member) : M unit :=
  with_temp temp_dir (
    extractall temp_dir zip_contents;;
    extracted_items ← fs_read "iterdir" (λ n, iterdir n temp_dir);
    track (λ t, Tracker.start t "extracted-summary" "");;
    track (λ t, Tracker.complete t "extracted-summary"
                  ("temp " +:+ pretty (length extracted_items)
                   +:+ " items"));;
    n ← get_fs;
    source_dir ←
      match extracted_items with
      | [d] =>
          if is_dir n (temp_dir ++ [d]) then
            track (λ t, Tracker.add t "flatten" "Flatten nested directory");;
            track (λ t, Tracker.complete t "flatten" "");;
            mret (temp_dir ++ [d])
          else mret temp_dir
      | _ => mret temp_dir
      end;
    names ← fs_read "iterdir" (λ n, iterdir n source_dir);
    for_each names (merge_item project_path source_dir)).

(** The fresh-target branch: extract in place, then hoist a single
    top-level directory. *)
Definition fresh_extract (project_path : path)
    (zip_contents : list member) : M unit :=
  extractall project_path zip_contents;;
  extracted_items ← fs_read "iterdir" (λ n, iterdir n project_path);
  track (λ t, Tracker.start t "extracted-summary" "");;
  track (λ t, Tracker.complete t "extracted-summary"
                (pretty (length extracted_items) +:+ " top-level items"));;
  n ← get_fs;
  match extracted_items with
  | [d] =>
      if is_dir n (project_path ++ [d]) then
        let nested_dir := project_path ++ [d] in
        let temp_move_dir :=
          removelast project_path ++ [basename project_path +:+ "_temp"] in
        fs_call "move" (λ n, move n nested_dir temp_move_dir);;
        fs_call "rmdir" (λ n, rmdir n project_path);;
        fs_call "move" (λ n, move n temp_move_dir project_path);;
        track (λ t, Tracker.add t "flatten" "Flatten nested directory");;
        track (λ t, Tracker.complete t "flatten" "")
      else mret tt
  | _ => mret tt
  end.

(** The body of the second [try]. *)
Definition extract_body (project_path : path) (is_current_dir : bool)
    (zip_path temp_dir : path) : M unit :=
  (if is_current_dir then mret tt
   else fs_call "mkdir" (λ n, mkdir_parents n project_path));;
  zip_contents ← open_zip zip_path;
  track (λ t, Tracker.start t "zip-list" "");;
  track (λ t, Tracker.complete t "zip-list"
                (pretty (length zip_contents) +:+ " entries"));;
  if is_current_dir then merge_extract project_path temp_dir zip_contents
  else fresh_extract project_path zip_contents.

(** The [except Exception] clause of the second [try], up to its last
    statement [raise typer.Exit(1)].  [shutil.rmtree] of a directory is
    taken to succeed; on anything else it raises. *)
Definition on_extract_error (project_path : path) (is_current_dir : bool)
    (e : exn) : M unit :=
  track (λ t, Tracker.error t "extract" (exn_str e));;
  n ← get_fs;
  if negb is_current_dir && exists_ n project_path
  then update_fs "[Errno 20] Not a directory"
         (λ n, rmtree n project_path)
  else mret tt.

(** The [finally] clause.  The archive is the file the download has
    written; its [unlink] is taken to succeed. *)
Definition cleanup (zip_path : path) : M unit :=
  track (λ t, Tracker.add t "cleanup" "Remove temporary archive");;
  n ← get_fs;
  if exists_ n zip_path then
    fs_total (λ n, remove n zip_path);;
    track (λ t, Tracker.complete t "cleanup" "")
  else mret tt.

(** The first [try] statement (lines 1023-1046): fetch and download, with
    the tracker told of the outcome; a failure is raised again. *)
Definition fetch_template (cwd : path) (net : option fetched)
  : M (path * fetched) :=
  track (λ t, Tracker.start t "fetch" "contacting GitHub API");;
  r ← try_ (download_template_from_github cwd net);
  match r with
  | inl e => track (λ t, Tracker.error t "fetch" (exn_str e));; raise e
  | inr (zip_path, meta) =>
      track (λ t, Tracker.complete t "fetch"
                    ("release " +:+ release meta +:+ " ("
                     +:+ commas (size meta) +:+ " bytes)"));;
      track (λ t, Tracker.add t "download" "Download template");;
      track (λ t, Tracker.complete t "download" (filename meta));;
      mret (zip_path, meta)
  end.

(** Lines 1048-1052: the extraction step is announced. *)
Definition announce_extract : M unit :=
  track (λ t, Tracker.add t "extract" "Extract template");;
  track (λ t, Tracker.start t "extract" "").

(** The second [try] statement with its [except], [else] and [finally]
    clauses, and the final [return] (lines 1054-1171).  What the [except]
    clause raises, [typer.Exit(1)] or the exception of its own
    [shutil.rmtree], propagates once the [finally] clause has run. *)
Definition try_extract (project_path : path) (is_current_dir : bool)
    (zip_path temp_dir : path) : M path :=
  r ← try_ (extract_body project_path is_current_dir zip_path temp_dir);
  res ← try_ (match r with
              | inl e =>
                  on_extract_error project_path is_current_dir e;;
                  raise (Exit 1)
              | inr _ => track (λ t, Tracker.complete t "extract" "")
              end);
  cleanup zip_path;;
  match res with
  | inl e => raise e
  | inr _ => mret project_path
  end.

(** [download_and_extract_template] without [local_templates] (with
    them the function only delegates to [copy_local_templates]).
    [cwd] is [Path.cwd()], [temp_dir] the name [tempfile] picks, [net]
    the outcome of the network exchange. *)
Definition download_and_extract_template (project_path : path)
    (is_current_dir : bool) (cwd temp_dir : path) (net : option fetched)
  : M path :=
  zm ← fetch_template cwd net;
  announce_extract;;
  try_extract project_path is_current_dir (fst zm) temp_dir.

End Install.

(** *** A sample installation, for the examples *)

Definition sample_fs : node :=
  Dir [ ("home", Dir [ ("u", Dir [ ("README.md", File "mine") ]) ]);
        ("tmp", Dir []) ].

(** An archive with a single top-level directory. *)
Definition sample_members : list member :=
  [ ([ "root" ], None);
    ([ "root"; "a.txt" ], Some "A");
    ([ "root"; "sub"; "b.txt" ], Some "B") ].

Definition sample_read_zip (bytes : string) : option (list member) :=
  if String.eqb bytes "PK-sample" then Some sample_members else None.

Definition sample_fetched : fetched :=
  Fetched "spec-kit-template-claude-sh-v1.zip" 1234567 "v1" "PK-sample".

(** An installation from [/home/u], into [/home/u/proj] or into the current
    directory, under a schedule of failures. *)
Definition sample_run (is_current_dir : bool) (schedule : list bool)
  : (exn + path) * world :=
  download_and_extract_template sample_read_zip
    (if is_current_dir then [ "home"; "u" ] else [ "home"; "u"; "proj" ])
    is_current_dir [ "home"; "u" ] [ "tmp"; "tmpx1" ] (Some sample_fetched)
    (World sample_fs (Some (Tracker.init "Initialize Specify Project"))
       schedule).

End Installer.

(** ** Legacy maturity analysis (lines 690-823) *)
Module Analysis.

(** A value of [tech_patterns]; [calculate_confidence] reads the confidence
    with [.get('confidence', 0)]. *)
Record tech_info := Tech {
  tech_type : string;
  tech_confidence : option float
}.

Definition confidence_or_zero (t : tech_info) : float :=
  match tech_confidence t with Some c => c | None => 0%float end.

(** What [subprocess.run(["git", "rev-list", "--count", "HEAD"],
    cwd=project_path, check=True, ...)] followed by
    [int(result.stdout.strip())] comes to. *)
Inductive git_run :=
| GitCount (n : Z)      (* the command succeeds and prints [n] *)
| GitFailed             (* [CalledProcessError]: non-zero exit status;
                           [FileNotFoundError]: no [git], no such [cwd] *)
| GitRaised (e : exn).  (* anything else, such as [PermissionError] for a
                           [cwd] that cannot be entered or [ValueError]
                           for an output that is no number *)

(** [get_git_history_length]: the number printed, 0 for the two
    exceptions the function catches; any other exception propagates. *)
Definition get_git_history_length (git : git_run) : exn + Z :=
  match git with
  | GitCount n => inr n
  | GitFailed => inr 0%Z
  | GitRaised e => inl e
  end.

(** [Path.glob] on one path component: [*] stands for any run of
    characters, every other character for itself (the patterns below use
    nothing else).  Names are compared case-sensitively, as on POSIX, and
    an entry of the directory is something that exists: a dangling
    symbolic link, which [glob] skips for a pattern without wildcard and
    [exists] denies, is not modelled. *)
Fixpoint glob_match (pat s : string) : bool :=
  match pat with
  | EmptyString => match s with EmptyString => true | _ => false end
  | String c pat' =>
      if Ascii.eqb c "*"%char then
        (fix star (s : string) : bool :=
           glob_match pat' s
           || match s with
              | EmptyString => false
              | String _ s' => star s'
              end) s
      else match s with
           | String d s' => Ascii.eqb c d && glob_match pat' s'
           | EmptyString => false
           end
  end.

Definition config_patterns : list string :=
  [ "*.json"; "*.yaml"; "*.yml"; "*.toml"; "*.ini"; "*.conf"; "Dockerfile";
    "docker-compose.*"; ".env*"; "Makefile" ].

(** [detect_config_files]: the entries of the directory matched by each
    pattern in turn, appended without removing repetitions. *)
Definition detect_config_files (entries : list string) : list string :=
  flat_map (λ pat, List.filter (glob_match pat) entries) config_patterns.

(** [detect_tech_stack]: the first pattern, in insertion order, whose file
    exists.  [exists_ filename] is the outcome of
    [(project_path / filename).exists()]: a boolean, or the exception it
    raises (it is not caught). *)
Fixpoint detect_tech_stack (exists_ : string → exn + bool)
    (tech_patterns : list (string * tech_info)) : exn + tech_info :=
  match tech_patterns with
  | [] => inr (Tech "unknown" (Some 0.1%float))
  | (filename, info) :: rest =>
      match exists_ filename with
      | inl e => inl e
      | inr true => inr info
      | inr false => detect_tech_stack exists_ rest
      end
  end.

(** [calculate_confidence] *)
Definition calculate_confidence (file_count git_commits config_complexity : Z)
    (tech_stack : tech_info) : Z :=
  let score := 0%Z in
  let score := if (20 <? file_count)%Z then (score + 30)%Z
               else if (10 <? file_count)%Z then (score + 20)%Z
               else if (5 <? file_count)%Z then (score + 10)%Z
               else score in
  let score := if (50 <? git_commits)%Z then (score + 30)%Z
               else if (20 <? git_commits)%Z then (score + 20)%Z
               else if (10 <? git_commits)%Z then (score + 10)%Z
               else score in
  let score := if (10 <? config_complexity)%Z then (score + 20)%Z
               else if (5 <? config_complexity)%Z then (score + 15)%Z
               else if (2 <? config_complexity)%Z then (score + 10)%Z
               else score in
  let score :=
    if PrimFloat.ltb 0.8%float (confidence_or_zero tech_stack)
    then (score + 20)%Z
    else if PrimFloat.ltb 0.5%float (confidence_or_zero tech_stack)
    then (score + 10)%Z
    else score in
  Z.min score 100.

(** [determine_project_type]; the list of files is not used. *)
Definition determine_project_type (confidence_score : Z) : string :=
  if (70 <? confidence_score)%Z then "mature_brownfield"
  else if (40 <? confidence_score)%Z then "moderate_brownfield"
  else if (20 <? confidence_score)%Z then "light_brownfield"
  else "greenfield".

(** [generate_migration_path] *)
Definition generate_migration_path (confidence_score : Z) : list string :=
  if (70 <? confidence_score)%Z then
    [ "Full project analysis recommended";
      "Create comprehensive backup";
      "Document existing architecture";
      "Plan gradual migration strategy" ]
  else if (40 <? confidence_score)%Z then
    [ "Selective integration approach";
      "Preserve core functionality";
      "Add spec-kit incrementally" ]
  else
    [ "Standard spec-kit initialization";
      "Minimal interference with existing code" ].

Definition tech_patterns : list (string * tech_info) :=
  [ ("package.json", Tech "nodejs" (Some 0.9%float));
    ("requirements.txt", Tech "python" (Some 0.9%float));
    ("pyproject.toml", Tech "python" (Some 0.95%float));
    ("Cargo.toml", Tech "rust" (Some 0.95%float));
    ("pom.xml", Tech "java" (Some 0.9%float));
    ("build.gradle", Tech "java" (Some 0.9%float));
    ("go.mod", Tech "go" (Some 0.95%float));
    ("composer.json", Tech "php" (Some 0.9%float));
    ("Gemfile", Tech "ruby" (Some 0.9%float));
    ("mix.exs", Tech "elixir" (Some 0.9%float)) ].

(** The dict returned by [analyze_existing_project]. *)
Record analysis := Analysis {
  confidence_score : Z;
  project_type : string;
  safeguard_required : bool;
  migration_recommendations : list string;
  existing_files_count : nat;
  git_commits : Z;
  config_files_count : nat
}.

(** [analyze_existing_project].  [entries] is the outcome of
    [list(project_path.iterdir())]: the names, or the exception raised;
    [git] that of the git command; [exists_] answers the [exists()] of
    [detect_tech_stack].  None of the exceptions is caught here, and the
    calls are made in this order. *)
Definition analyze_existing_project (entries : exn + list string)
    (git : git_run) (exists_ : string → exn + bool) : exn + analysis :=
  match entries with
  | inl e => inl e
  | inr existing_files =>
      match get_git_history_length git with
      | inl e => inl e
      | inr git_history =>
          let config_files := detect_config_files existing_files in
          match detect_tech_stack exists_ tech_patterns with
          | inl e => inl e
          | inr tech_stack =>
              let score :=
                calculate_confidence (Z.of_nat (length existing_files))
                  git_history (Z.of_nat (length config_files)) tech_stack in
              inr (Analysis score (determine_project_type score)
                     (30 <? score)%Z (generate_migration_path score)
                     (length existing_files) git_history
                     (length config_files))
          end
      end
  end.

End Analysis.

(** ** Arrow-key selection (lines 446-546) *)
Module Menu.

(** What [readchar.readkey] delivers, as [get_key] tells the cases apart. *)
Inductive keypress :=
| KUp | KDown | KEnter | KEsc | KCtrlC
| KOther (raw : string).

(** How [select_with_arrows] ends. *)
Inductive outcome :=
| Selected (key : string)        (* the function returns the key *)
| Cancelled                      (* "Selection cancelled", [typer.Exit(1)] *)
| Crashed (what : string)        (* an exception the loop does not catch *)
| Waiting (selected_index : Z).  (* blocked in [readkey]: no key left *)

(** [option_keys.index(default_key)] for a key known to be present. *)
Fixpoint index_of (k : string) (l : list string) : Z :=
  match l with
  | [] => 0
  | x :: r => if String.eqb x k then 0 else (1 + index_of k r)%Z
  end.

(** The choice of the start index. *)
Definition initial_index (option_keys : list string)
    (default_key : option string) : Z :=
  match default_key with
  | Some d =>
      if Py.truthy d && Py.mem d option_keys then index_of d option_keys
      else 0%Z
  | None => 0%Z
  end.

(** The [while True] loop of [run_selection_loop], one key per
    iteration. *)
Fixpoint run_selection_loop (option_keys : list string) (selected_index : Z)
    (keys : list keypress) : outcome :=
  match keys with
  | [] => Waiting selected_index
  | k :: rest =>
      let n := Z.of_nat (length option_keys) in
      match k with
      | KUp =>
          if (n =? 0)%Z then Crashed "ZeroDivisionError"
          else run_selection_loop option_keys ((selected_index - 1) mod n)%Z
                 rest
      | KDown =>
          if (n =? 0)%Z then Crashed "ZeroDivisionError"
          else run_selection_loop option_keys ((selected_index + 1) mod n)%Z
                 rest
      | KEnter =>
          match nth_error option_keys (Z.to_nat selected_index) with
          | Some key => Selected key
          | None => Crashed "IndexError"
          end
      | KEsc => Cancelled
      | KCtrlC => Cancelled
      | KOther _ => run_selection_loop option_keys selected_index rest
      end
  end.

(** [select_with_arrows(options, prompt_text, default_key)]: [options] is
    the dict in insertion order, [keys] the keys the user presses. *)
Definition select_with_arrows (options : list (string * string))
    (default_key : option string) (keys : list keypress) : outcome :=
  let option_keys := map fst options in
  run_selection_loop option_keys (initial_index option_keys default_key) keys.

End Menu.

(** ** Rendering of the tracker (lines 401-436) *)
Module TrackerView.

Definition symbol (s : Tracker.status) : string :=
  match s with
  | Tracker.Done => "[green]●[/green]"
  | Tracker.Pending => "[green dim]○[/green dim]"
  | Tracker.Running => "[cyan]○[/cyan]"
  | Tracker.Error => "[red]●[/red]"
  | Tracker.Skipped => "[yellow]○[/yellow]"
  end.

(** The line added to the tree for one step. *)
Definition render_line (step : Tracker.step) : string :=
  let label := Tracker.label step in
  let detail_text :=
    if Py.truthy (Tracker.detail step) then Py.strip (Tracker.detail step)
    else "" in
  let symbol := symbol (Tracker.st step) in
  match Tracker.st step with
  | Tracker.Pending =>
      if Py.truthy detail_text
      then symbol +:+ " [bright_black]" +:+ label +:+ " (" +:+ detail_text
           +:+ ")[/bright_black]"
      else symbol +:+ " [bright_black]" +:+ label +:+ "[/bright_black]"
  | _ =>
      if Py.truthy detail_text
      then symbol +:+ " [white]" +:+ label +:+ "[/white] [bright_black]("
           +:+ detail_text +:+ ")[/bright_black]"
      else symbol +:+ " [white]" +:+ label +:+ "[/white]"
  end.

(** [render]: the label of the root and the lines below it. *)
Definition render (tr : Tracker.t) : string * list string :=
  ("[cyan]" +:+ Tracker.title tr +:+ "[/cyan]",
   map render_line (Tracker.steps tr)).

End TrackerView.

(** ** The scan, as a pipeline over the walk *)
Module ScanSpec.

(** The files of one item of the walk: name and path relative to the
    project. *)
Definition item_files (it : list string * list string)
  : list (string * string) :=
  map (λ name, (name, Py.join "/" (fst it ++ [name]))) (snd it).

(** Every file the walk yields, in the order of the walk. *)
Definition walk_files (tr : Classifier.tree) : list (string * string) :=
  flat_map item_files (Classifier.os_walk [] tr).

Definition is_marker (f : string * string) : bool :=
  Py.mem (fst f) Classifier.CONFIG_FILE_MARKERS.

(** The accumulators hold what the loops would have gathered from the
    files [seen]. *)
Definition gathered (seen : list (string * string)) (a : Classifier.scan_acc)
  : Prop :=
  Classifier.acc_file_count a = length seen
  ∧ Classifier.acc_sample_paths a = map snd (firstn 6 seen)
  ∧ Classifier.acc_config_hits a
    = map snd (firstn 12 (List.filter is_marker seen)).

End ScanSpec.

(** ** Notions used to state the properties of the legacy analysis *)
Module AnalysisSpec.

(** The points [calculate_confidence] awards for each criterion. *)
Definition file_points (file_count : Z) : Z :=
  if (20 <? file_count)%Z then 30
  else if (10 <? file_count)%Z then 20
  else if (5 <? file_count)%Z then 10 else 0.

Definition git_points (git_commits : Z) : Z :=
  if (50 <? git_commits)%Z then 30
  else if (20 <? git_commits)%Z then 20
  else if (10 <? git_commits)%Z then 10 else 0.

Definition config_points (config_complexity : Z) : Z :=
  if (10 <? config_complexity)%Z then 20
  else if (5 <? config_complexity)%Z then 15
  else if (2 <? config_complexity)%Z then 10 else 0.

Definition tech_points (t : Analysis.tech_info) : Z :=
  if PrimFloat.ltb 0.8%float (Analysis.confidence_or_zero t) then 20
  else if PrimFloat.ltb 0.5%float (Analysis.confidence_or_zero t) then 10
  else 0.

(** The names [detect_config_files] reports, in words: by suffix, by exact
    name, or by prefix. *)
Definition config_name (name : string) : bool :=
  Py.endswith ".json" name || Py.endswith ".yaml" name
  || Py.endswith ".yml" name || Py.endswith ".toml" name
  || Py.endswith ".ini" name || Py.endswith ".conf" name
  || String.eqb "Dockerfile" name || Py.startswith "docker-compose." name
  || Py.startswith ".env" name || String.eqb "Makefile" name.

(** The first failure of [analyze_existing_project], in the order of its
    calls: [iterdir], the git command, then the [exists()] on the tech
    patterns up to the first that answers yes. *)
Fixpoint probe_error (exists_ : string → exn + bool) (names : list string)
  : option exn :=
  match names with
  | [] => None
  | name :: rest =>
      match exists_ name with
      | inl e => Some e
      | inr true => None
      | inr false => probe_error exists_ rest
      end
  end.

Definition first_error (entries : exn + list string) (git : Analysis.git_run)
    (exists_ : string → exn + bool) : option exn :=
  match entries, git with
  | inl e, _ => Some e
  | inr _, Analysis.GitRaised e => Some e
  | inr _, _ => probe_error exists_ (map fst Analysis.tech_patterns)
  end.

(** A pattern without wildcard. *)
Fixpoint literal (pat : string) : bool :=
  match pat with
  | EmptyString => true
  | String c r => negb (Ascii.eqb c "*"%char) && literal r
  end.

End AnalysisSpec.

(** ** The scripts directory after the permission pass *)
Module PermissionsEffect.

(** An entry after the loop has visited it: a successful
    [os.chmod(script, new_mode)] leaves the file with that mode, every
    other visit leaves the entry as it was; entries that [rglob("*.sh")]
    does not yield are not visited. *)
Definition after_visit (e : Permissions.entry) : Permissions.entry :=
  if Py.endswith ".sh" (Permissions.basename (Permissions.path e)) then
    match Permissions.visit e with
    | Permissions.Chmod _ m =>
        Permissions.Entry (Permissions.path e) (Permissions.is_symlink e)
          (Permissions.is_file e) (Permissions.head e) m
          (Permissions.chmod_error e)
    | _ => e
    end
  else e.

(** The entries under the scripts directory after
    [ensure_executable_scripts]: untouched on Windows and when the
    directory is missing. *)
Definition after_pass (os_name : string) (root_is_dir : bool)
    (below : list Permissions.entry) : list Permissions.entry :=
  if String.eqb os_name "nt" then below
  else if negb root_is_dir then below
  else map after_visit below.

(** The message a visit adds to [failures], if any. *)
Definition failure_of (e : Permissions.entry) : list string :=
  match Permissions.visit e with
  | Permissions.Failure msg => [msg]
  | _ => []
  end.

End PermissionsEffect.

(** ** Notions used to state what an installation leaves behind *)
Module InstallerSpec.

(** [p] is [q] or lies above it. *)
Fixpoint is_prefix (p q : Installer.path) : bool :=
  match p, q with
  | [], _ => true
  | c :: p', k :: q' => String.eqb c k && is_prefix p' q'
  | _ :: _, [] => false
  end.

Definition same_kind (x y : Installer.node) : bool :=
  match x, y with
  | Installer.File _, Installer.File _ => true
  | Installer.Dir _, Installer.Dir _ => true
  | _, _ => false
  end.

(** [p] is a regular file. *)
Definition is_file (n : Installer.node) (p : Installer.path) : bool :=
  match Installer.lookup n p with
  | Some (Installer.File _) => true
  | _ => false
  end.

(** What [n] has at [q], [n'] has too, and it is of the same kind: a file
    stays a file, a directory a directory. *)
Definition kept (n n' : Installer.node) (q : Installer.path) : bool :=
  match Installer.lookup n q with
  | None => true
  | Some x =>
      match Installer.lookup n' q with
      | Some x' => same_kind x x'
      | None => false
      end
  end.

(** Every path that is not at or below one of [roots] is kept. *)
Definition keeps (roots : list Installer.path) (n n' : Installer.node)
  : Prop :=
  ∀ q, existsb (λ r, is_prefix r q) roots = false → kept n n' q = true.

(** The status recorded under a key, if any. *)
Definition status_of (tr : option Tracker.t) (k : string)
  : option Tracker.status :=
  match tr with
  | Some t => option_map Tracker.st (Tracker.find t k)
  | None => None
  end.

(** A tracker stays a tracker, and only the steps called [keys] may have
    changed status. *)
Definition frames (keys : list string) (t t' : option Tracker.t) : Prop :=
  (is_Some t → is_Some t')
  ∧ ∀ k, Py.mem k keys = false → status_of t' k = status_of t k.

(** Two worlds whose trees are related by [K] and whose trackers by [T]. *)
Definition related (K : Installer.node → Installer.node → Prop)
    (T : option Tracker.t → option Tracker.t → Prop)
    (w w' : Installer.world) : Prop :=
  K (Installer.fs w) (Installer.fs w')
  ∧ T (Installer.tracker w) (Installer.tracker w').

(** Every run of [m], whether it returns or raises, ends in a world related
    to the one it started in. *)
Definition preserves {A} (K : Installer.node → Installer.node → Prop)
    (T : option Tracker.t → option Tracker.t → Prop)
    (m : Installer.M A) : Prop :=
  ∀ w, related K T w (snd (m w)).

(** A run of [m] from a tree that satisfies [P] ends, when it returns
    [x], in a tree that satisfies [Q x], and when it raises, in one that
    satisfies [E]. *)
Definition triple {A} (P : Installer.node → Prop) (m : Installer.M A)
    (Q : A → Installer.node → Prop) (E : Installer.node → Prop) : Prop :=
  ∀ w, P (Installer.fs w) →
       match m w with
       | (inr x, w') => Q x (Installer.fs w')
       | (inl _, w') => E (Installer.fs w')
       end.

End InstallerSpec.

(** ** Tool detection and the [check] command (lines 617-642, 1563-1604) *)
Module Tools.

(** [if shutil.which(tool):] where [which] gives the path of the
    executable, if there is one. *)
Definition found (which : string → option string) (tool : string) : bool :=
  match which tool with
  | Some p => Py.truthy p
  | None => false
  end.

Definition check_tool_for_tracker (which : string → option string)
    (tool : string) (tracker : Tracker.t) : bool * Tracker.t :=
  if found which tool then (true, Tracker.complete tracker tool "available")
  else (false, Tracker.error tracker tool "not found").

(** [check_tool]: [local_exists] and [local_is_file] are
    [CLAUDE_LOCAL_PATH.exists()] and [CLAUDE_LOCAL_PATH.is_file()]; the
    install hint is not used. *)
Definition check_tool (local_exists local_is_file : bool)
    (which : string → option string) (tool : string) : bool :=
  if String.eqb tool "claude" && (local_exists && local_is_file) then true
  else if found which tool then true
  else false.

(** What [check] shows: the tracker it renders, the rendering, and whether
    each of the two tips is printed. *)
Record report := Report {
  tracker : Tracker.t;
  shown : string * list string;
  tip_git : bool;
  tip_agent : bool
}.

Definition check (which : string → option string) : report :=
  let tracker := Tracker.init "Check Available Tools" in
  let tracker := Tracker.add tracker "git" "Git version control" in
  let tracker := Tracker.add tracker "claude" "Claude Code CLI" in
  let tracker := Tracker.add tracker "gemini" "Gemini CLI" in
  let tracker := Tracker.add tracker "qwen" "Qwen Code CLI" in
  let tracker := Tracker.add tracker "code" "Visual Studio Code" in
  let tracker :=
    Tracker.add tracker "code-insiders" "Visual Studio Code Insiders" in
  let tracker := Tracker.add tracker "cursor-agent" "Cursor IDE agent" in
  let tracker := Tracker.add tracker "windsurf" "Windsurf IDE" in
  let tracker := Tracker.add tracker "kilocode" "Kilo Code IDE" in
  let tracker := Tracker.add tracker "opencode" "opencode" in
  let tracker := Tracker.add tracker "codex" "Codex CLI" in
  let tracker := Tracker.add tracker "auggie" "Auggie CLI" in
  let '(git_ok, tracker) := check_tool_for_tracker which "git" tracker in
  let '(claude_ok, tracker) :=
    check_tool_for_tracker which "claude" tracker in
  let '(gemini_ok, tracker) :=
    check_tool_for_tracker which "gemini" tracker in
  let '(qwen_ok, tracker) := check_tool_for_tracker which "qwen" tracker in
  let '(code_ok, tracker) := check_tool_for_tracker which "code" tracker in
  let '(code_insiders_ok, tracker) :=
    check_tool_for_tracker which "code-insiders" tracker in
  let '(cursor_ok, tracker) :=
    check_tool_for_tracker which "cursor-agent" tracker in
  let '(windsurf_ok, tracker) :=
    check_tool_for_tracker which "windsurf" tracker in
  let '(kilocode_ok, tracker) :=
    check_tool_for_tracker which "kilocode" tracker in
  let '(opencode_ok, tracker) :=
    check_tool_for_tracker which "opencode" tracker in
  let '(codex_ok, tracker) := check_tool_for_tracker which "codex" tracker in
  let '(auggie_ok, tracker) :=
    check_tool_for_tracker which "auggie" tracker in
  Report tracker (TrackerView.render tracker) (negb git_ok)
    (negb (claude_ok || gemini_ok || cursor_ok || qwen_ok || windsurf_ok
           || kilocode_ok || opencode_ok || codex_ok || auggie_ok)).

(** *** Notions used to state the properties *)

(** The step a tool ends with. *)
Definition step_for (which : string → option string)
    (tool : string * string) : Tracker.step :=
  Tracker.Step (fst tool) (snd tool)
    (if found which (fst tool) then Tracker.Done else Tracker.Error)
    (if found which (fst tool) then "available" else "not found").

(** The tools in the order of the report, with their labels. *)
Definition listed : list (string * string) :=
  [ ("git", "Git version control");
    ("claude", "Claude Code CLI");
    ("gemini", "Gemini CLI");
    ("qwen", "Qwen Code CLI");
    ("code", "Visual Studio Code");
    ("code-insiders", "Visual Studio Code Insiders");
    ("cursor-agent", "Cursor IDE agent");
    ("windsurf", "Windsurf IDE");
    ("kilocode", "Kilo Code IDE");
    ("opencode", "opencode");
    ("codex", "Codex CLI");
    ("auggie", "Auggie CLI") ].

(** The tools that count as an AI assistant for the second tip. *)
Definition assistants : list string :=
  [ "claude"; "gemini"; "cursor-agent"; "qwen"; "windsurf"; "kilocode";
    "opencode"; "codex"; "auggie" ].

End Tools.

(** * Properties *)

(** ** Strings *)

Lemma startswith_spec (p s : string) :
  Py.startswith p s = true ↔ ∃ v, s = p +:+ v.
Proof.
  revert s; induction p as [|a p IH]; intros s; simpl.
  - split; [intros _; now exists s | reflexivity].
  - destruct s as [|b s].
    + split; [discriminate | intros [v Hv]; discriminate].
    + rewrite andb_true_iff, Ascii.eqb_eq, IH. split.
      * intros [-> [v ->]]. now exists v.
      * intros [v Hv]. injection Hv as -> ->. split; [reflexivity | now exists v].
Qed.

Lemma contains_spec (p s : string) :
  Py.contains p s = true ↔ ∃ u v, s = u +:+ p +:+ v.
Proof.
  induction s as [|b s IH].
  - cbn [Py.contains]. rewrite orb_false_r, startswith_spec. split.
    + intros [v Hv]. now exists "", v.
    + intros [u [v Hv]]. destruct u; [now exists v | discriminate].
  - cbn [Py.contains]. rewrite orb_true_iff, startswith_spec, IH. split.
    + intros [[v Hv] | [u [v Hv]]].
      * now exists "", v.
      * exists (String b u), v. simpl. now rewrite Hv.
    + intros [u [v Hv]]. destruct u as [|c u].
      * left. now exists v.
      * right. simpl in Hv. injection Hv as _ Hv. now exists u, v.
Qed.

Lemma endswith_spec (p s : string) :
  Py.endswith p s = true ↔ ∃ u, s = u +:+ p.
Proof.
  induction s as [|b s IH].
  - cbn [Py.endswith]. rewrite orb_false_r, String.eqb_eq. split.
    + intros ->. now exists "".
    + intros [u Hu]. destruct u; [now simpl in Hu | discriminate].
  - cbn [Py.endswith]. rewrite orb_true_iff, String.eqb_eq, IH. split.
    + intros [-> | [u ->]]; [now exists "" | now exists (String b u)].
    + intros [u Hu]. destruct u as [|c u].
      * left. now simpl in Hu.
      * right. simpl in Hu. injection Hu as _ Hu. now exists u.
Qed.

Lemma append_cons (c : ascii) (s t : string) :
  String c s +:+ t = String c (s +:+ t).
Proof. reflexivity. Qed.

Lemma append_nil (t : string) : "" +:+ t = t.
Proof. reflexivity. Qed.

Lemma append_assoc (x y z : string) : (x +:+ y) +:+ z = x +:+ (y +:+ z).
Proof. induction x as [|c x IH]; [reflexivity|]. now rewrite !append_cons, IH. Qed.

Lemma lstrip_eq (s : string) :
  Py.lstrip s = match Py.skip_space s with
                | Some r => Py.lstrip r
                | None => s
                end.
Proof.
  destruct s as [|a [|b [|c r]]]; cbn [Py.skip_space];
    try destruct (Py.is_space a) eqn:Ha;
    try destruct (Py.is_space2 a b) eqn:Hb;
    try destruct (Py.is_space3 a b c) eqn:Hc;
    cbn [Py.lstrip]; rewrite ?Ha, ?Hb, ?Hc; reflexivity.
Qed.

Lemma all_space_eq (s : string) :
  Py.all_space s = match s with
                   | EmptyString => true
                   | String _ _ =>
                       match Py.skip_space s with
                       | Some r => Py.all_space r
                       | None => false
                       end
                   end.
Proof.
  destruct s as [|a [|b [|c r]]]; cbn [Py.skip_space];
    try destruct (Py.is_space a) eqn:Ha;
    try destruct (Py.is_space2 a b) eqn:Hb;
    try destruct (Py.is_space3 a b c) eqn:Hc;
    cbn [Py.all_space]; rewrite ?Ha, ?Hb, ?Hc; reflexivity.
Qed.

Lemma skip_space_split (s r : string) :
  Py.skip_space s = Some r →
  ∃ w, s = w +:+ r ∧ w ≠ "" ∧ ∀ t, Py.skip_space (w +:+ t) = Some t.
Proof.
  destruct s as [|a [|b [|c r3]]]; cbn [Py.skip_space]; try discriminate.
  - destruct (Py.is_space a) eqn:Ha; [|discriminate]. intros [= <-].
    exists (String a ""). split; [reflexivity|]. split; [discriminate|]. intros t. rewrite !append_cons, append_nil. cbn [Py.skip_space]. now rewrite Ha.
  - destruct (Py.is_space a) eqn:Ha.
    { intros [= <-]. exists (String a ""). split; [reflexivity|]. split; [discriminate|].
      intros t. rewrite !append_cons, append_nil. cbn [Py.skip_space]. now rewrite Ha. }
    destruct (Py.is_space2 a b) eqn:Hb; [|discriminate]. intros [= <-].
    exists (String a (String b "")). split; [reflexivity|]. split; [discriminate|].
    intros t. rewrite !append_cons, append_nil. cbn [Py.skip_space]. now rewrite Ha, Hb.
  - destruct (Py.is_space a) eqn:Ha.
    { intros [= <-]. exists (String a ""). split; [reflexivity|]. split; [discriminate|].
      intros t. rewrite !append_cons, append_nil. cbn [Py.skip_space]. now rewrite Ha. }
    destruct (Py.is_space2 a b) eqn:Hb.
    { intros [= <-]. exists (String a (String b "")). split; [reflexivity|]. split; [discriminate|].
      intros t. rewrite !append_cons, append_nil. cbn [Py.skip_space]. now rewrite Ha, Hb. }
    destruct (Py.is_space3 a b c) eqn:Hc; [|discriminate]. intros [= <-].
    exists (String a (String b (String c ""))). split; [reflexivity|]. split; [discriminate|].
    intros t. rewrite !append_cons, append_nil. cbn [Py.skip_space]. now rewrite Ha, Hb, Hc.
Qed.

Lemma skip_space_shorter (s r : string) :
  Py.skip_space s = Some r → String.length r < String.length s.
Proof.
  intros (w & -> & Hw & _)%skip_space_split.
  destruct w as [|c w]; [congruence|]. rewrite append_cons.
  cbn [String.length]. clear. induction w as [|d w IH]; [rewrite append_nil; lia|].
  rewrite append_cons. cbn [String.length]. lia.
Qed.

Lemma skip_space_app (s r t : string) :
  Py.skip_space s = Some r → Py.skip_space (s +:+ t) = Some (r +:+ t).
Proof.
  intros (w & -> & _ & Hw)%skip_space_split.
  rewrite append_assoc. apply Hw.
Qed.

(** Induction one whitespace character at a time. *)
Lemma space_ind (P : string → Prop) :
  (∀ s, Py.skip_space s = None → P s) →
  (∀ s r, Py.skip_space s = Some r → P r → P s) →
  ∀ s, P s.
Proof.
  intros Hn Hs s.
  remember (String.length s) as n eqn:Hlen.
  revert s Hlen. induction (lt_wf n) as [n _ IH]. intros s ->.
  destruct (Py.skip_space s) as [r|] eqn:E; [|now apply Hn].
  apply (Hs s r E). apply (IH (String.length r)); [|reflexivity].
  now apply skip_space_shorter.
Qed.

Lemma lstrip_all_space (s : string) :
  Py.all_space s = true → Py.lstrip s = "".
Proof.
  induction s as [s E | s r E IH] using space_ind;
    rewrite all_space_eq, lstrip_eq, E.
  - now destruct s.
  - destruct s; [discriminate | exact IH].
Qed.

Lemma all_space_app (s t : string) :
  Py.all_space s = true → Py.all_space t = true → Py.all_space (s +:+ t) = true.
Proof.
  intros Hs Ht. induction s as [s E | s r E IH] using space_ind.
  - rewrite all_space_eq, E in Hs. destruct s; [exact Ht | discriminate].
  - rewrite all_space_eq, E in Hs. destruct s; [discriminate|].
    rewrite all_space_eq, (skip_space_app _ _ t E). rewrite ?append_cons, ?append_nil.
    now apply IH.
Qed.

(** [rstrip] cuts a run of whitespace off the end. *)
Lemma rstrip_split (s : string) :
  ∃ w, s = Py.rstrip s +:+ w ∧ Py.all_space w = true.
Proof.
  induction s as [|c r (w & Hr & Hw)]; [now exists ""|].
  cbn [Py.rstrip]. destruct (Py.all_space (String c r)) eqn:E.
  - now exists (String c r).
  - exists w. rewrite ?append_cons, ?append_nil. now rewrite <- Hr.
Qed.

Lemma rstrip_all_space (s : string) :
  Py.all_space s = true → Py.rstrip s = "".
Proof. destruct s; [reflexivity|]. cbn [Py.rstrip]. now intros ->. Qed.

Lemma strip_all_space (s : string) :
  Py.all_space s = true → Py.strip s = "".
Proof. intros H. unfold Py.strip. now rewrite lstrip_all_space. Qed.

(** ** GitHub token *)

Lemma github_token_cli_wins (env : Github.environ) (cli : string) :
  cli ≠ "" →
  Github._github_token env (Some cli)
  = (if Py.truthy (Py.strip cli) then Some (Py.strip cli) else None).
Proof.
  intros Hne. unfold Github._github_token.
  destruct cli as [|c r]; [congruence|]. reflexivity.
Qed.

(** C10: a non-empty explicit token made of whitespace only (any of the
    characters [str.strip] removes, ASCII or not) yields [None] and no
    [Authorization] header, whatever the environment holds (so also when
    [GH_TOKEN] or [GITHUB_TOKEN] carry a token); more generally a non-empty
    explicit argument makes the result independent of the environment,
    which is read only for [None] and for the empty string. *)
Theorem github_token_whitespace_cli (env : Github.environ) (cli : string) :
  cli ≠ "" → Py.all_space cli = true →
  Github._github_token env (Some cli) = None
  ∧ Github._github_auth_headers env (Some cli) = ∅
  ∧ (∀ env' s, s ≠ "" →
       Github._github_token env' (Some s) = Github._github_token env (Some s))
  ∧ Github._github_token env None = Github._github_token env (Some "")
  ∧ Github._github_token env None
    = (let t := Py.strip (Py.or_str (Py.or_ (Github.getenv env "GH_TOKEN")
                                           (Github.getenv env "GITHUB_TOKEN")) "") in
       if Py.truthy t then Some t else None).
Proof.
  intros Hne Hsp.
  assert (Github._github_token env (Some cli) = None) as Htok.
  { rewrite github_token_cli_wins by assumption.
    now rewrite strip_all_space. }
  split; [exact Htok|]. split.
  { unfold Github._github_auth_headers. now rewrite Htok. }
  split.
  { intros env' s Hs. now rewrite !github_token_cli_wins. }
  split; reflexivity.
Qed.

Lemma github_token_whitespace_cli_witness :
  let env : Github.environ :=
    <["GH_TOKEN" := "ghp_env"]> (<["GITHUB_TOKEN" := "ghp_other"]> ∅) in
  (* a space, U+00A0, U+3000 and a tab *)
  let blank : string :=
    String " " (String "194" (String "160" (String "227" (String "128"
      (String "128" (String "009" EmptyString))))))%char in
  Github._github_token env None = Some "ghp_env"
  ∧ Github._github_token env (Some blank) = None
  ∧ Github._github_auth_headers env (Some blank) = ∅.
Proof.
  intros env blank. split; [reflexivity|].
  pose proof (github_token_whitespace_cli env blank) as H.
  destruct H as (H1 & H2 & _); [discriminate | reflexivity |].
  split; [exact H1 | exact H2].
Defined.

(** ** StepTracker *)

Lemma maybe_refresh_steps (tr : Tracker.t) :
  Tracker.steps (Tracker._maybe_refresh tr) = Tracker.steps tr.
Proof. unfold Tracker._maybe_refresh. now destruct (Tracker.refresh_cb tr). Qed.

Lemma maybe_refresh_title (tr : Tracker.t) :
  Tracker.title (Tracker._maybe_refresh tr) = Tracker.title tr.
Proof. unfold Tracker._maybe_refresh. now destruct (Tracker.refresh_cb tr). Qed.

Lemma maybe_refresh_cb (tr : Tracker.t) :
  Tracker.refresh_cb (Tracker._maybe_refresh tr) = Tracker.refresh_cb tr.
Proof.
  unfold Tracker._maybe_refresh.
  now destruct (Tracker.refresh_cb tr) eqn:E.
Qed.

(** The loop of [_update] rewrites the first step stored under the key and
    nothing else. *)
Lemma update_first_present (k : string) (s' : Tracker.status) (d : string)
    (l : list Tracker.step) :
  Py.mem k (map Tracker.key l) = true →
  ∃ pre x post,
    l = pre ++ x :: post
    ∧ Forall (λ y, Tracker.key y ≠ k) pre
    ∧ Tracker.key x = k
    ∧ Tracker.update_first k s' d l
      = Some (pre ++ Tracker.Step k (Tracker.label x) s'
                       (if Py.truthy d then d else Tracker.detail x) :: post).
Proof.
  induction l as [|y l IH]; simpl; [discriminate|].
  destruct (String.eqb (Tracker.key y) k) eqn:E.
  - intros _. apply String.eqb_eq in E. exists [], y, l. simpl.
    rewrite E. repeat split; constructor.
  - rewrite String.eqb_sym, E. simpl. intros H.
    destruct (IH H) as (pre & x & post & -> & Hpre & Hx & Hup).
    exists (y :: pre), x, post. rewrite Hup. simpl.
    repeat split; try assumption.
    constructor; [|assumption]. now apply String.eqb_neq.
Qed.

Lemma update_first_absent (k : string) (s' : Tracker.status) (d : string)
    (l : list Tracker.step) :
  Py.mem k (map Tracker.key l) = false → Tracker.update_first k s' d l = None.
Proof.
  induction l as [|y l IH]; simpl; [reflexivity|].
  rewrite String.eqb_sym. destruct (String.eqb (Tracker.key y) k); simpl.
  - discriminate.
  - intros H. now rewrite IH.
Qed.

Lemma mem_app_key (k : string) (l : list Tracker.step) (x : Tracker.step) :
  Tracker.key x = k → Py.mem k (map Tracker.key (l ++ [x])) = true.
Proof.
  intros Hx. unfold Py.mem. rewrite map_app, existsb_app. simpl.
  rewrite Hx, String.eqb_refl. now rewrite orb_true_r.
Qed.

Lemma add_present (tr : Tracker.t) (k lbl : string) :
  Py.mem k (map Tracker.key (Tracker.steps (Tracker.add tr k lbl))) = true.
Proof.
  unfold Tracker.add.
  destruct (Py.mem k (map Tracker.key (Tracker.steps tr))) eqn:E;
    [assumption|].
  rewrite maybe_refresh_steps. simpl. now apply mem_app_key.
Qed.

Lemma find_first (k : string) (pre post : list Tracker.step)
    (x : Tracker.step) (tr : Tracker.t) :
  Tracker.steps tr = pre ++ x :: post →
  Forall (λ y, Tracker.key y ≠ k) pre → Tracker.key x = k →
  Tracker.find tr k = Some x.
Proof.
  intros Hs Hpre Hx. unfold Tracker.find. rewrite Hs. clear Hs.
  induction Hpre as [|y pre Hy _ IH]; simpl.
  - now rewrite Hx, String.eqb_refl.
  - apply String.eqb_neq in Hy. now rewrite Hy.
Qed.

(** The decomposition of a list around the first element with a given key
    is unique. *)
Lemma first_key_unique (k : string) (pre pre' post post' : list Tracker.step)
    (x x' : Tracker.step) :
  pre ++ x :: post = pre' ++ x' :: post' →
  Forall (λ y, Tracker.key y ≠ k) pre → Tracker.key x = k →
  Forall (λ y, Tracker.key y ≠ k) pre' → Tracker.key x' = k →
  pre = pre' ∧ x = x' ∧ post = post'.
Proof.
  intros Heq Hpre Hx. revert pre' Heq.
  induction Hpre as [|y pre Hy _ IH]; intros pre' Heq Hpre' Hx'.
  - destruct pre' as [|z pre']; simpl in Heq.
    + injection Heq as -> ->. auto.
    + injection Heq as -> _. inversion Hpre'; subst. congruence.
  - destruct pre' as [|z pre']; simpl in Heq.
    + injection Heq as -> _. congruence.
    + injection Heq as -> Heq. inversion Hpre'; subst.
      destruct (IH _ Heq) as (-> & -> & ->); auto.
Qed.

(** C6: after [add(key, label)] and [start(key, "msg")], the call
    [complete(key, "")] turns the status of the step stored under the key
    to done and leaves its detail at "msg"; its key and label, every other
    step, the order of the steps, the title and the attached callback stay
    as they were. *)
Theorem complete_blank_keeps_detail (tr : Tracker.t) (k lbl : string) :
  let t2 := Tracker.start (Tracker.add tr k lbl) k "msg" in
  let t3 := Tracker.complete t2 k "" in
  ∃ pre s post,
    Tracker.steps t2 = pre ++ s :: post
    ∧ Forall (λ y, Tracker.key y ≠ k) pre
    ∧ Tracker.key s = k
    ∧ Tracker.st s = Tracker.Running
    ∧ Tracker.detail s = "msg"
    ∧ Tracker.find t2 k = Some s
    ∧ Tracker.steps t3
      = pre ++ Tracker.Step k (Tracker.label s) Tracker.Done "msg" :: post
    ∧ Tracker.find t3 k
      = Some (Tracker.Step k (Tracker.label s) Tracker.Done "msg")
    ∧ Tracker.title t3 = Tracker.title t2
    ∧ Tracker.refresh_cb t3 = Tracker.refresh_cb t2.
Proof.
  intros t2 t3.
  destruct (update_first_present k Tracker.Running "msg" _ (add_present tr k lbl))
    as (pre & x & post & Hadd & Hpre & Hx & Hup).
  set (s := Tracker.Step k (Tracker.label x) Tracker.Running "msg").
  assert (Tracker.steps t2 = pre ++ s :: post) as H2.
  { unfold t2, Tracker.start, Tracker._update. rewrite Hup.
    now rewrite maybe_refresh_steps. }
  assert (Py.mem k (map Tracker.key (Tracker.steps t2)) = true) as Hmem.
  { rewrite H2. unfold Py.mem. rewrite map_app, existsb_app. simpl.
    rewrite String.eqb_refl. now rewrite orb_true_r. }
  destruct (update_first_present k Tracker.Done "" _ Hmem)
    as (pre' & y & post' & Hdec & Hpre' & Hy & Hup').
  rewrite H2 in Hdec.
  destruct (first_key_unique k _ _ _ _ _ _ Hdec Hpre eq_refl Hpre' Hy)
    as (<- & <- & <-).
  assert (Tracker.steps t3
          = pre ++ Tracker.Step k (Tracker.label s) Tracker.Done "msg" :: post)
    as H3.
  { unfold t3, Tracker.complete, Tracker._update. rewrite Hup'.
    now rewrite maybe_refresh_steps. }
  exists pre, s, post. repeat split; try assumption.
  - now apply (find_first k pre post).
  - now apply (find_first k pre post).
  - unfold t3, Tracker.complete, Tracker._update. rewrite Hup'.
    now rewrite maybe_refresh_title.
  - unfold t3, Tracker.complete, Tracker._update. rewrite Hup'.
    now rewrite maybe_refresh_cb.
Qed.

(** The scenario of C6 on the tracker of an installation in progress. *)
Example complete_blank_keeps_detail_run :
  let tr := Tracker.add (Tracker.attach_refresh (Tracker.init "Initialize"))
              "fetch" "Fetch latest release" in
  let t3 := Tracker.complete
              (Tracker.start (Tracker.add tr "extract" "Extract template")
                 "extract" "msg") "extract" "" in
  Tracker.steps t3
  = [ Tracker.Step "fetch" "Fetch latest release" Tracker.Pending "";
      Tracker.Step "extract" "Extract template" Tracker.Done "msg" ]
  ∧ Tracker.refreshes t3 = 4.
Proof. split; reflexivity. Qed.

(** ** Template source *)

Lemma matches_spec (pat : string) (a : TemplateSource.asset) :
  TemplateSource.matches pat a = true ↔ TemplateSource.name_matches pat a.
Proof.
  unfold TemplateSource.matches, TemplateSource.name_matches.
  now rewrite andb_true_iff, contains_spec, endswith_spec.
Qed.

Lemma matching_assets_none (pat : string) (assets : list TemplateSource.asset) :
  Forall (λ a, ¬ TemplateSource.name_matches pat a) assets →
  TemplateSource.matching_assets assets pat = [].
Proof.
  unfold TemplateSource.matching_assets.
  induction 1 as [|a l Ha _ IH]; simpl; [reflexivity|].
  destruct (TemplateSource.matches pat a) eqn:E; [|assumption].
  now apply matches_spec in E.
Qed.

(** Either no asset matches, or the list splits around its first match. *)
Lemma first_match_split (pat : string) (assets : list TemplateSource.asset) :
  Forall (λ a, ¬ TemplateSource.name_matches pat a) assets
  ∨ ∃ pre a post,
      assets = pre ++ a :: post
      ∧ Forall (λ b, ¬ TemplateSource.name_matches pat b) pre
      ∧ TemplateSource.name_matches pat a.
Proof.
  induction assets as [|a l IH]; [left; constructor|].
  destruct (TemplateSource.matches pat a) eqn:E.
  - right. exists [], a, l. apply matches_spec in E.
    repeat split; try apply E. constructor.
  - assert (¬ TemplateSource.name_matches pat a) as Ha.
    { rewrite <- matches_spec. congruence. }
    destruct IH as [IH | (pre & b & post & -> & Hpre & Hb)].
    + left. now constructor.
    + right. exists (a :: pre), b, post. repeat split; try apply Hb.
      now constructor.
Qed.

Lemma select_first_match (ai st : string) (pre post : list TemplateSource.asset)
    (a : TemplateSource.asset) :
  Forall (λ b, ¬ TemplateSource.name_matches (TemplateSource.pattern ai st) b)
    pre →
  TemplateSource.name_matches (TemplateSource.pattern ai st) a →
  TemplateSource.select_asset (pre ++ a :: post) ai st = inr a.
Proof.
  intros Hpre Ha. unfold TemplateSource.select_asset,
    TemplateSource.matching_assets.
  rewrite List.filter_app. fold (TemplateSource.matching_assets pre
                              (TemplateSource.pattern ai st)).
  rewrite matching_assets_none by assumption. simpl.
  apply matches_spec in Ha. now rewrite Ha.
Qed.

(** C7: when no asset of the release has a name that contains
    [spec-kit-template-{assistant}-{script_type}] and ends with [.zip], the
    selection prints its message and raises [typer.Exit(1)]; when at least
    one asset matches, the first match in listing order is selected, however
    many further assets match. *)
Theorem select_asset_zero_or_first (assets : list TemplateSource.asset)
    (ai st : string) :
  let pat := TemplateSource.pattern ai st in
  (Forall (λ a, ¬ TemplateSource.name_matches pat a) assets →
   ∃ msg, TemplateSource.select_asset assets ai st = inl (msg, Exit 1))
  ∧ (Exists (TemplateSource.name_matches pat) assets →
     ∃ pre a post,
       assets = pre ++ a :: post
       ∧ Forall (λ b, ¬ TemplateSource.name_matches pat b) pre
       ∧ TemplateSource.name_matches pat a
       ∧ TemplateSource.select_asset assets ai st = inr a).
Proof.
  intros pat. split.
  - intros Hnone. unfold TemplateSource.select_asset. fold pat.
    rewrite matching_assets_none by assumption. eauto.
  - intros Hsome.
    destruct (first_match_split pat assets)
      as [Hnone | (pre & a & post & -> & Hpre & Ha)].
    + exfalso. apply Exists_exists in Hsome as (a & Hin & Ha).
      rewrite Forall_forall in Hnone. exact (Hnone a Hin Ha).
    + exists pre, a, post. repeat split; try apply Ha; try assumption.
      now apply select_first_match.
Qed.

(** Two assets match the pattern for [claude] and [sh]: the first one in
    listing order is returned; no asset matches for [gemini]. *)
Example select_asset_run :
  let assets :=
    [ TemplateSource.Asset "spec-kit-template-copilot-sh-v1.zip" "u0" 10;
      TemplateSource.Asset "spec-kit-template-claude-sh-v1.zip" "u1" 11;
      TemplateSource.Asset "spec-kit-template-claude-sh-v1.zip.sha256" "u2" 1;
      TemplateSource.Asset "old-spec-kit-template-claude-sh.zip" "u3" 12 ] in
  TemplateSource.select_asset assets "claude" "sh"
  = inr (TemplateSource.Asset "spec-kit-template-claude-sh-v1.zip" "u1" 11)
  ∧ TemplateSource.select_asset assets "gemini" "sh"
    = inl ("No matching release asset found for gemini (expected pattern: spec-kit-template-gemini-sh)", Exit 1).
Proof. split; reflexivity. Qed.

(** ** Classifier: the verdict *)

Import Classifier.

Lemma round_override_confidence : py_round (0.99 * 100)%float = inr 99%Z.
Proof. vm_compute. reflexivity. Qed.

(** A verdict exists only for a valid override. *)
Lemma classify_inr_valid (tg : target) (override : option string)
    (utcnow : string) (v : verdict) :
  classify_project_state tg override utcnow = inr v → valid_override override.
Proof.
  unfold classify_project_state, valid_override.
  destruct (Py.mem _ VALID_PROJECT_TYPES); [reflexivity | discriminate].
Qed.

(** The queries on the path succeed exactly when none of them raises. *)
Lemma query_error_scanned (tg : target) :
  match query_error tg with
  | None => path_error tg = None ∧ ∃ found, scanned tg = inr found
  | Some e =>
      path_error tg = Some e
      ∨ path_error tg = None ∧ scanned tg = inl e
  end.
Proof.
  unfold query_error, scanned, _scan_project_state.
  destruct (path_error tg) as [e|]; [now left|].
  destruct (tree_of tg) as [tr|]; [|eauto].
  destruct (specify_probe tg) as [e|b1]; [now right|].
  destruct (specs_probe tg) as [e|b2]; [now right | eauto].
Qed.

(** What is left of the function once the override is accepted and the
    queries have succeeded. *)
Lemma classify_queries (tg : target) (override : option string)
    (utcnow : string) (found : option scan) :
  valid_override override → path_error tg = None →
  scanned tg = inr found →
  classify_project_state tg override utcnow
  = let o := Py.lower (Py.or_str override "auto") in
    let applied := negb (String.eqb o "auto") in
    let d := if applied then apply_override o (detect found)
             else detect found in
    match py_round (d_confidence d * 100)%float with
    | inl e => inl e
    | inr score =>
        let existing :=
          if bool_decide (is_Some (tree_of tg)) then file_count (d_stats d)
          else 0 in
        inr (Verdict (d_project_type d) (d_confidence d) (d_reason d)
               (d_stats d) (d_signals d) (d_safeguard_required d)
               (d_requires_confirmation d) (d_override_origin d)
               (utcnow +:+ "Z") score (recommendations (d_project_type d))
               applied existing
               (warnings_of (d_project_type d) (git_commits (d_stats d))
                  existing applied))
    end.
Proof.
  unfold classify_project_state, valid_override. intros Hv Hp Hs.
  now rewrite Hv, Hp, Hs.
Qed.

(** A call that returns has made its queries. *)
Lemma classify_inr_queries (tg : target) (override : option string)
    (utcnow : string) (v : verdict) :
  classify_project_state tg override utcnow = inr v →
  path_error tg = None ∧ ∃ found, scanned tg = inr found.
Proof.
  unfold classify_project_state.
  destruct (Py.mem _ VALID_PROJECT_TYPES); [|discriminate]. cbn [negb].
  destruct (path_error tg); [discriminate|].
  destruct (scanned tg) as [e|found]; [discriminate | eauto].
Qed.

(** The verdict of an applied override, field by field. *)
Lemma classify_override (tg : target) (override : option string)
    (utcnow : string) (v : verdict) :
  let o := Py.lower (Py.or_str override "auto") in
  o ≠ "auto" →
  classify_project_state tg override utcnow = inr v →
  project_type v = o
  ∧ confidence v = 0.99%float
  ∧ confidence_score v = 99%Z
  ∧ override_applied v = true
  ∧ override_origin v = Some o
  ∧ safeguard_required v = String.eqb o "brownfield".
Proof.
  intros o Hauto Hv.
  destruct (classify_inr_queries _ _ _ _ Hv) as (Hp & found & Hs).
  rewrite (classify_queries _ _ _ _ (classify_inr_valid _ _ _ _ Hv) Hp Hs)
    in Hv.
  cbv zeta in Hv. fold o in Hv.
  apply String.eqb_neq in Hauto. rewrite Hauto in Hv. cbn [negb] in Hv.
  cbn [apply_override d_confidence] in Hv.
  rewrite round_override_confidence in Hv.
  injection Hv as <-. cbn. repeat split.
Qed.

(** The verdict without override carries the fields of [detect]. *)
Lemma classify_auto (tg : target) (override : option string)
    (utcnow : string) (v : verdict) :
  Py.lower (Py.or_str override "auto") = "auto" →
  classify_project_state tg override utcnow = inr v →
  ∃ found,
    scanned tg = inr found
    ∧ project_type v = d_project_type (detect found)
    ∧ confidence v = d_confidence (detect found)
    ∧ py_round (confidence v * 100)%float = inr (confidence_score v)
    ∧ safeguard_required v = d_safeguard_required (detect found)
    ∧ override_applied v = false
    ∧ override_origin v = d_override_origin (detect found).
Proof.
  intros Ho Hv.
  destruct (classify_inr_queries _ _ _ _ Hv) as (Hp & found & Hs).
  rewrite (classify_queries _ _ _ _ (classify_inr_valid _ _ _ _ Hv) Hp Hs)
    in Hv.
  cbv zeta in Hv. rewrite Ho in Hv.
  cbn [String.eqb Ascii.eqb Bool.eqb negb] in Hv.
  destruct (py_round (d_confidence (detect found) * 100)%float) as [e|z] eqn:E;
    [discriminate|].
  injection Hv as <-. exists found. cbn. repeat split; assumption.
Qed.

Lemma detect_safeguard (found : option scan) :
  d_safeguard_required (detect found) = true →
  d_project_type (detect found) = "brownfield".
Proof.
  unfold detect. destruct found as [sc|]; cbn; [|discriminate].
  now intros H%String.eqb_eq.
Qed.

Lemma detect_no_origin (found : option scan) :
  d_override_origin (detect found) = None.
Proof. unfold detect. now destruct found. Qed.

(** C1: whatever the directory and the override, a verdict that requires
    the safeguard has the final project type brownfield. *)
Theorem safeguard_implies_brownfield (tg : target) (override : option string)
    (utcnow : string) (v : verdict) :
  classify_project_state tg override utcnow = inr v →
  safeguard_required v = true →
  project_type v = "brownfield".
Proof.
  intros Hv Hs.
  destruct (String.eqb_spec (Py.lower (Py.or_str override "auto")) "auto")
    as [Ho | Ho].
  - destruct (classify_auto tg override utcnow v Ho Hv)
      as (found & _ & -> & _ & _ & Hsg & _).
    apply detect_safeguard. now rewrite <- Hsg.
  - destruct (classify_override tg override utcnow v Ho Hv)
      as (Hpt & _ & _ & _ & _ & Hsg).
    rewrite Hpt. apply String.eqb_eq. now rewrite <- Hsg.
Qed.

(** ** Classifier: the confidence and its score *)

(** For a negative exponent the result of [round_half_even] is a nearest
    integer of [m * 2^e], and an even one on a tie. *)
Lemma round_half_even_nearest (m : positive) (e : Z) :
  (e < 0)%Z →
  let d := (2 ^ (- e))%Z in
  let z := round_half_even m e in
  (Z.abs (2 * (Z.pos m - z * d)) <= d)%Z
  ∧ (Z.abs (2 * (Z.pos m - z * d)) = d → Z.even z = true).
Proof.
  intros He d z. unfold z, round_half_even.
  destruct (Z.leb_spec 0 e) as [H0|_]; [lia|]. fold d.
  assert (0 < d)%Z as Hd by (unfold d; apply Z.pow_pos_nonneg; lia).
  pose proof (Z.div_mod (Z.pos m) d ltac:(lia)) as Hdm.
  pose proof (Z.mod_pos_bound (Z.pos m) d Hd) as Hr.
  set (q := (Z.pos m / d)%Z) in *. set (r := (Z.pos m mod d)%Z) in *.
  destruct (Z.compare_spec (2 * r) d) as [Heq|Hlt|Hgt].
  - destruct (Z.even q) eqn:Hev.
    + split; [nia | auto].
    + split; [nia|]. intros _. rewrite Z.even_add, Hev. reflexivity.
  - split; [nia|]. intros Habs. nia.
  - split; [nia|]. intros Habs. nia.
Qed.

Lemma auto_type_cases (sc : scan) :
  In (auto_type_of sc) ["greenfield"; "ongoing"; "brownfield"].
Proof.
  unfold auto_type_of.
  destruct (_ || _ || _); [simpl; auto|].
  destruct (scan_has_specify sc || scan_has_specs_dir sc); cbn [String.eqb
    Ascii.eqb Bool.eqb negb andb].
  - simpl; auto.
  - destruct (_ || _ || _); simpl; auto.
Qed.

(** Every confidence the heuristic can produce is in range, with a score in
    range: the inputs enter only through a few tests and two clamped
    counts. *)
Lemma confidence_ok (t : string) (sc : scan) :
  In t ["greenfield"; "ongoing"; "brownfield"] →
  score_ok (confidence_of t sc) = true.
Proof.
  intros Ht. unfold confidence_of.
  assert (In (N.min (scan_git_commits sc) 4) [0; 1; 2; 3; 4]%N) as Hg
      by (simpl; lia).
  assert (In (Nat.min (length (scan_config_hits sc)) 2) [0; 1; 2]%nat) as Hc
      by (simpl; lia).
  revert Hg Hc.
  generalize (N.min (scan_git_commits sc) 4).
  generalize (Nat.min (length (scan_config_hits sc)) 2).
  intros c g Hg Hc.
  destruct (scan_file_count sc =? 0)%nat, (scan_has_specify sc),
    (20 <=? scan_git_commits sc)%N, (2 <=? length (scan_config_hits sc))%nat,
    (120 <=? scan_file_count sc)%nat;
    simpl in Ht, Hg, Hc;
    destruct Ht as [<-|[<-|[<-|[]]]];
    destruct Hg as [<-|[<-|[<-|[<-|[<-|[]]]]]];
    destruct Hc as [<-|[<-|[<-|[]]]];
    vm_compute; reflexivity.
Qed.

(** Binary64 rounding errors never move the score: it is the score of the
    exact decimal arithmetic. *)
Lemma confidence_score_decimal (t : string) (sc : scan) :
  In t ["greenfield"; "ongoing"; "brownfield"] →
  py_round (confidence_of t sc * 100)%float = inr (decimal_score t sc).
Proof.
  intros Ht. unfold confidence_of, decimal_score.
  assert (In (N.min (scan_git_commits sc) 4) [0; 1; 2; 3; 4]%N) as Hg
      by (simpl; lia).
  assert (In (Nat.min (length (scan_config_hits sc)) 2) [0; 1; 2]%nat) as Hc
      by (simpl; lia).
  revert Hg Hc.
  generalize (N.min (scan_git_commits sc) 4).
  generalize (Nat.min (length (scan_config_hits sc)) 2).
  intros c g Hg Hc.
  destruct (scan_file_count sc =? 0)%nat, (scan_has_specify sc),
    (20 <=? scan_git_commits sc)%N, (2 <=? length (scan_config_hits sc))%nat,
    (120 <=? scan_file_count sc)%nat;
    simpl in Ht, Hg, Hc;
    destruct Ht as [<-|[<-|[<-|[]]]];
    destruct Hg as [<-|[<-|[<-|[<-|[<-|[]]]]]];
    destruct Hc as [<-|[<-|[<-|[]]]];
    vm_compute; reflexivity.
Qed.

Lemma detect_confidence_ok (found : option scan) :
  score_ok (d_confidence (detect found)) = true.
Proof.
  unfold detect. destruct found as [sc|]; cbn [d_confidence].
  - apply confidence_ok, auto_type_cases.
  - vm_compute. reflexivity.
Qed.

Lemma score_ok_round (x : float) :
  score_ok x = true →
  ∃ z, py_round (x * 100)%float = inr z ∧ (0 <= z <= 100)%Z.
Proof.
  unfold score_ok. intros [_ H]%andb_true_iff.
  destruct (py_round (x * 100)%float) as [e|z]; [discriminate|].
  exists z. split; [reflexivity | lia].
Qed.

Lemma round_half_even_nonneg (m : positive) (e : Z) :
  (0 <= round_half_even m e)%Z.
Proof.
  unfold round_half_even. destruct (Z.leb_spec 0 e) as [He|He].
  - apply Z.mul_nonneg_nonneg; [lia | apply Z.pow_nonneg; lia].
  - assert (0 <= Z.pos m / 2 ^ (- e))%Z as Hq
        by (apply Z.div_pos; [lia | apply Z.pow_pos_nonneg; lia]).
    destruct (_ ?= _)%Z; [destruct (Z.even _)|..]; lia.
Qed.

(** What [py_round] returns is the nearest integer, the even one on a
    tie. *)
Lemma py_round_nearest (x : float) (z : Z) :
  py_round x = inr z → nearest_even x z.
Proof.
  unfold py_round, nearest_even.
  destruct (Prim2SF x) as [s|s| |s m e]; try discriminate.
  - now intros [= <-].
  - intros [= <-]. cbv zeta.
    assert ((if s
             then (- (if s then - round_half_even m e
                      else round_half_even m e))%Z
             else (if s then (- round_half_even m e)%Z
                   else round_half_even m e))
            = round_half_even m e) as -> by (destruct s; lia).
    split; [apply round_half_even_nonneg|].
    destruct (Z.leb_spec 0 e) as [He|He].
    + unfold round_half_even. now rewrite (proj2 (Z.leb_le 0 e) He).
    + now apply round_half_even_nearest.
Qed.

(** A valid override and queries that succeed give a verdict. *)
Lemma classify_returns (tg : target) (override : option string)
    (utcnow : string) :
  valid_override override → query_error tg = None →
  ∃ v, classify_project_state tg override utcnow = inr v.
Proof.
  intros Hv Hq. pose proof (query_error_scanned tg) as H. rewrite Hq in H.
  destruct H as (Hp & found & Hs).
  rewrite (classify_queries _ _ _ _ Hv Hp Hs). cbv zeta.
  destruct (String.eqb _ "auto"); cbn [negb].
  - destruct (score_ok_round _ (detect_confidence_ok found)) as (z & -> & _).
    eauto.
  - cbn [apply_override d_confidence]. rewrite round_override_confidence.
    eauto.
Qed.

(** C4: in every verdict the classifier returns, for any target and any
    override it accepts, [confidence_score] is the integer nearest to
    [confidence * 100], the even one on a tie (so not the truncation: 79.6
    gives 80), and lies between 0 and 100. *)
Theorem confidence_score_rounds (tg : target) (override : option string)
    (utcnow : string) (v : verdict) :
  classify_project_state tg override utcnow = inr v →
  nearest_even (confidence v * 100)%float (confidence_score v)
  ∧ (0 <= confidence_score v <= 100)%Z.
Proof.
  intros Hv.
  destruct (String.eqb_spec (Py.lower (Py.or_str override "auto")) "auto")
    as [Ho | Ho].
  - destruct (classify_auto tg override utcnow v Ho Hv)
      as (found & _ & _ & Hc & Hr & _).
    split; [now apply py_round_nearest|].
    destruct (score_ok_round _ (detect_confidence_ok found)) as (z & Hz & Hb).
    rewrite <- Hc, Hr in Hz. injection Hz as <-. exact Hb.
  - destruct (classify_override tg override utcnow v Ho Hv)
      as (_ & Hc & Hs & _).
    rewrite Hc, Hs. split; [|lia].
    apply py_round_nearest, round_override_confidence.
Qed.

Lemma confidence_score_rounds_witness :
  let tg := Target (Some (Listing [ "README.md"; "package.json" ]
                            [ (".git", Listing [ "HEAD" ] []);
                              ("src", Listing [ "main.py" ] []) ]))
              (Some 3%N) None (inr false) (inr false) in
  ∃ v, classify_project_state tg None "2025-01-01T00:00:00" = inr v
       ∧ project_type v = "ongoing"
       ∧ confidence_score v = 85%Z
       ∧ nearest_even (confidence v * 100)%float (confidence_score v)
       ∧ (0 <= confidence_score v <= 100)%Z.
Proof.
  intros tg. eexists. split; [vm_compute; reflexivity|].
  split; [reflexivity|]. split; [reflexivity|].
  apply (confidence_score_rounds tg None "2025-01-01T00:00:00").
  vm_compute. reflexivity.
Defined.

Lemma safeguard_implies_brownfield_witness :
  let tg := Target (Some (Listing [ "package.json"; "Makefile"; "README.md" ] []))
              None None (inr false) (inr false) in
  ∃ v, classify_project_state tg (Some "auto") "2025-01-01T00:00:00" = inr v
       ∧ safeguard_required v = true
       ∧ project_type v = "brownfield".
Proof.
  intros tg. eexists. split; [vm_compute; reflexivity|].
  split; [reflexivity|].
  eapply (safeguard_implies_brownfield tg (Some "auto") "2025-01-01T00:00:00");
    [vm_compute; reflexivity | reflexivity].
Defined.

(** ** Classifier: when a verdict is returned *)

(** With a valid override the function raises exactly what the first
    failing query on the path raises. *)
Lemma classify_raises (tg : target) (override : option string)
    (utcnow : string) (e : exn) :
  valid_override override → query_error tg = Some e →
  classify_project_state tg override utcnow = inl e.
Proof.
  unfold classify_project_state, valid_override, query_error, scanned,
    _scan_project_state.
  intros ->. cbn [negb].
  destruct (path_error tg); [now intros [= ->]|].
  destruct (tree_of tg); [|discriminate].
  destruct (specify_probe tg); [now intros [= ->]|].
  destruct (specs_probe tg); [now intros [= ->] | discriminate].
Qed.

(** The claim "for every directory" fails on a directory that can be
    listed but not searched (mode [r--]): [os.walk] lists it, the [exists()]
    on [.specify] raises [PermissionError], and the call raises with it
    whatever the override. *)
Lemma override_brownfield_may_raise :
  ¬ (∀ (tg : target) (utcnow : string),
       ∃ v, classify_project_state tg (Some "brownfield") utcnow = inr v
            ∧ project_type v = "brownfield"
            ∧ confidence_score v = 99%Z
            ∧ override_applied v = true).
Proof.
  intros H.
  destruct (H (Target (Some (Listing [ "README.md" ] [])) None None
                 (inl (OSError "[Errno 13] Permission denied: '.specify'"))
                 (inr false)) "2025-01-01T00:00:00") as (v & Hv & _).
  vm_compute in Hv. discriminate.
Qed.

(** C2, amended: with [override="brownfield"], for every target, existing
    or not, and whatever the scan finds: when no query on the path raises,
    a verdict is returned, with project type brownfield, score 99 and the
    override flag set; when one raises, the call raises that exception and
    returns no verdict. *)
Theorem override_brownfield_verdict (tg : target) (utcnow : string) :
  match query_error tg with
  | None =>
      ∃ v, classify_project_state tg (Some "brownfield") utcnow = inr v
           ∧ project_type v = "brownfield"
           ∧ confidence_score v = 99%Z
           ∧ override_applied v = true
  | Some e => classify_project_state tg (Some "brownfield") utcnow = inl e
  end.
Proof.
  destruct (query_error tg) as [e|] eqn:Hq.
  - now apply classify_raises.
  - destruct (classify_returns tg (Some "brownfield") utcnow) as [v Hv];
      [reflexivity | assumption |].
    destruct (classify_override tg (Some "brownfield") utcnow v)
      as (Hpt & _ & Hsc & Hap & _); [discriminate | assumption |].
    exists v. auto.
Qed.

(** The override wins over the scan of a large directory with a long
    history, and over a path that does not exist. *)
Example override_brownfield_runs :
  let busy := Target (Some (Listing [ "package.json"; "Makefile" ] []))
                (Some 250%N) None (inr true) (inr true) in
  let absent := Target None None None (inr false) (inr false) in
  (∃ v, classify_project_state busy (Some "brownfield") "t" = inr v
        ∧ (project_type v, confidence_score v, override_applied v)
          = ("brownfield", 99%Z, true))
  ∧ (∃ v, classify_project_state absent (Some "brownfield") "t" = inr v
          ∧ (project_type v, confidence_score v, override_applied v)
            = ("brownfield", 99%Z, true)).
Proof.
  split; (eexists; split; [vm_compute; reflexivity | reflexivity]).
Qed.

(** ** Classifier: the origin of an override *)

(** The claim "the origin is the raw override string" fails as soon as the
    caller uses an upper-case letter: the stored origin is the normalized
    string. *)
Lemma override_origin_is_not_raw :
  ¬ (∀ (tg : target) (raw : string) (utcnow : string) (v : verdict),
       classify_project_state tg (Some raw) utcnow = inr v →
       override_applied v = true →
       override_origin v = Some raw).
Proof.
  intros H.
  assert (∃ v, classify_project_state
                 (Target None None None (inr false) (inr false))
                 (Some "BROWNFIELD") "t"
               = inr v
               ∧ override_applied v = true
               ∧ override_origin v = Some "brownfield")
    as (v & Hv & Hap & Hor).
  { eexists. split; [vm_compute; reflexivity|]. split; reflexivity. }
  specialize (H _ _ _ _ Hv Hap). congruence.
Qed.

(** C9, amended: whenever an override is applied, [override_origin] is the
    lower-cased override string (hence the raw string exactly when the
    caller wrote it in lower case); without override the key is absent. *)
Theorem override_origin_is_normalized (tg : target) (override : option string)
    (utcnow : string) (v : verdict) :
  classify_project_state tg override utcnow = inr v →
  (override_applied v = true →
   ∃ raw, override = Some raw
          ∧ Py.lower raw ≠ "auto"
          ∧ override_origin v = Some (Py.lower raw)
          ∧ (Py.lower raw = raw → override_origin v = Some raw))
  ∧ (override_applied v = false → override_origin v = None).
Proof.
  intros Hv.
  destruct (String.eqb_spec (Py.lower (Py.or_str override "auto")) "auto")
    as [Ho | Ho].
  - destruct (classify_auto tg override utcnow v Ho Hv)
      as (found & _ & _ & _ & _ & _ & Hap & Hor).
    split; [congruence|]. intros _. now rewrite Hor, detect_no_origin.
  - destruct (classify_override tg override utcnow v Ho Hv)
      as (_ & _ & _ & Hap & Hor & _).
    split; [|congruence]. intros _.
    destruct override as [[|c r]|]; try (exfalso; now apply Ho).
    exists (String c r). cbn [Py.or_str Py.truthy] in Ho, Hor.
    repeat split; try assumption. intros <-. assumption.
Qed.

Lemma override_origin_is_normalized_witness :
  ∃ v, classify_project_state (Target None None None (inr false) (inr false))
         (Some "OnGoing") "t" = inr v
       ∧ override_applied v = true
       ∧ override_origin v = Some "ongoing".
Proof.
  eexists. split; [vm_compute; reflexivity|]. split; [reflexivity|].
  edestruct (override_origin_is_normalized
               (Target None None None (inr false) (inr false))
               (Some "OnGoing") "t") as [H _]; [vm_compute; reflexivity|].
  destruct (H eq_refl) as (raw & [= <-] & _ & Hor & _). exact Hor.
Defined.

(** ** Classifier: the bounded scan *)

Lemma items_total_app (l1 l2 : list (list string * list string)) :
  items_total (l1 ++ l2) = items_total l1 + items_total l2.
Proof. unfold items_total. now rewrite map_app, list_sum_app. Qed.

Lemma items_total_cons (root files : list string)
    (rest : list (list string * list string)) :
  items_total ((root, files) :: rest) = length files + items_total rest.
Proof. reflexivity. Qed.

(** The walk yields exactly the visible files. *)
Lemma os_walk_total : ∀ (tr : tree) (root : list string),
  items_total (os_walk root tr) = visible_files tr.
Proof.
  fix IH 1. intros [files dirs|] root; [|reflexivity].
  cbn [os_walk visible_files]. rewrite items_total_cons. f_equal.
  induction dirs as [|[d sub] ds IHds]; [reflexivity|].
  destruct (Py.mem d SCAN_EXCLUDE_DIRS) eqn:E.
  - exact IHds.
  - rewrite items_total_app, IH, IHds. reflexivity.
Qed.

(** The inner loop counts the files of one directory up to the cap. *)
Lemma scan_files_count (root files : list string) (a : scan_acc) :
  acc_file_count a < MAX_CLASSIFICATION_SCAN →
  acc_file_count (scan_files root files a)
  = Nat.min (acc_file_count a + length files) MAX_CLASSIFICATION_SCAN.
Proof.
  revert a. induction files as [|name rest IH]; intros a Ha.
  - cbn [scan_files length]. lia.
  - cbn [scan_files length].
    destruct (Nat.leb_spec MAX_CLASSIFICATION_SCAN
                (acc_file_count (scan_file root name a))) as [Hge|Hlt];
      cbn [scan_file acc_file_count] in *.
    + lia.
    + rewrite IH by (cbn [scan_file acc_file_count]; lia).
      cbn [scan_file acc_file_count]. lia.
Qed.

(** So does the outer loop over the whole walk. *)
Lemma scan_walk_count (items : list (list string * list string))
    (a : scan_acc) :
  acc_file_count a < MAX_CLASSIFICATION_SCAN →
  acc_file_count (scan_walk items a)
  = Nat.min (acc_file_count a + items_total items) MAX_CLASSIFICATION_SCAN.
Proof.
  revert a. induction items as [|[root files] rest IH]; intros a Ha.
  - cbn [scan_walk]. change (items_total []) with 0. lia.
  - cbn [scan_walk]. rewrite items_total_cons.
    pose proof (scan_files_count root files a Ha) as Hf.
    destruct (Nat.leb_spec MAX_CLASSIFICATION_SCAN
                (acc_file_count (scan_files root files a))) as [Hge|Hlt].
    + lia.
    + rewrite IH by assumption. lia.
Qed.

Lemma scan_loops_count (tr : tree) :
  acc_file_count (scan_loops tr)
  = Nat.min (visible_files tr) MAX_CLASSIFICATION_SCAN.
Proof.
  unfold scan_loops.
  rewrite scan_walk_count by (cbn [acc_file_count];
                              unfold MAX_CLASSIFICATION_SCAN; lia).
  now rewrite os_walk_total.
Qed.

(** The scan returns what its loops have gathered and what the two
    [exists()] answer, unless one of these raises. *)
Lemma scan_outcome (tr : tree) (tg : target) :
  match _scan_project_state tr tg with
  | inr sc =>
      scan_file_count sc = acc_file_count (scan_loops tr)
      ∧ scan_config_hits sc = acc_config_hits (scan_loops tr)
      ∧ scan_sample_paths sc = acc_sample_paths (scan_loops tr)
      ∧ specify_probe tg = inr (scan_has_specify sc)
      ∧ specs_probe tg = inr (scan_has_specs_dir sc)
      ∧ scan_git_commits sc = _safe_git_commit_count tg
  | inl e =>
      specify_probe tg = inl e
      ∨ (∃ b, specify_probe tg = inr b) ∧ specs_probe tg = inl e
  end.
Proof.
  unfold _scan_project_state.
  destruct (specify_probe tg) as [e|b1]; [now left|].
  destruct (specs_probe tg) as [e|b2]; [right; eauto|].
  cbn. repeat split.
Qed.

Lemma scan_file_count_min (tr : tree) (tg : target) (sc : scan) :
  _scan_project_state tr tg = inr sc →
  scan_file_count sc = Nat.min (visible_files tr) MAX_CLASSIFICATION_SCAN.
Proof.
  intros H. pose proof (scan_outcome tr tg) as Ho. rewrite H in Ho.
  destruct Ho as (-> & _). apply scan_loops_count.
Qed.

(** C5: a directory with 5000 files outside excluded sub-directories is
    reported with [file_count = 800]: the counter stands at the cap when the
    loops end, and that is the count in the dict the scan returns (it
    returns one unless one of its two [exists()] raises). *)
Theorem scan_cap_truncates (tr : tree) (tg : target) :
  visible_files tr = 5000 →
  acc_file_count (scan_loops tr) = 800
  ∧ match _scan_project_state tr tg with
    | inr sc => scan_file_count sc = 800
    | inl e => specify_probe tg = inl e ∨ specs_probe tg = inl e
    end.
Proof.
  intros H.
  assert (acc_file_count (scan_loops tr) = 800) as Hc.
  { rewrite scan_loops_count, H. unfold MAX_CLASSIFICATION_SCAN.
    apply Nat.min_r. lia. }
  split; [exact Hc|].
  pose proof (scan_outcome tr tg) as Ho.
  destruct (_scan_project_state tr tg) as [e|sc].
  - destruct Ho as [Ho | [_ Ho]]; auto.
  - destruct Ho as (-> & _). exact Hc.
Qed.

Lemma scan_cap_truncates_witness :
  let tr :=
    Listing (map (λ i : nat, "notes" +:+ pretty i +:+ ".txt") (seq 0 4000))
      [ (".git", Listing [ "HEAD"; "config" ] []);
        ("src", Listing (map (λ i : nat, "mod" +:+ pretty i +:+ ".py")
                           (seq 0 1000)) []) ] in
  let tg := Target (Some tr) None None (inr false) (inr false) in
  visible_files tr = 5000
  ∧ ∃ sc, _scan_project_state tr tg = inr sc ∧ scan_file_count sc = 800.
Proof.
  intros tr tg.
  assert (visible_files tr = 5000) as H by (vm_compute; reflexivity).
  split; [exact H|].
  destruct (scan_cap_truncates tr tg H) as [_ Hs].
  destruct (_scan_project_state tr tg) as [e|sc] eqn:E.
  - exfalso. destruct Hs as [Hs | Hs]; discriminate Hs.
  - exists sc. split; [reflexivity | exact Hs].
Defined.

(** ** Permission pass *)

(** Testing one bit with a mask. *)
Lemma land_bit_test (m k : Z) :
  (0 <= k)%Z → Z.eqb (Z.land m (2 ^ k)) 0 = negb (Z.testbit m k).
Proof.
  intros Hk. destruct (Z.testbit m k) eqn:E; cbn [negb].
  - apply Z.eqb_neq. intros H.
    assert (Z.testbit (Z.land m (2 ^ k)) k = true) as Hb.
    { rewrite Z.land_spec, E, Z.pow2_bits_true by assumption. reflexivity. }
    rewrite H, Z.bits_0 in Hb. discriminate.
  - apply Z.eqb_eq. apply Z.bits_inj'. intros n Hn.
    rewrite Z.land_spec, Z.bits_0, Z.pow2_bits_eqb by assumption.
    destruct (Z.eqb_spec k n) as [<-|_]; [now rewrite E | apply andb_false_r].
Qed.

Lemma lor_pow2_bit (x k i : Z) :
  (0 <= k)%Z → (0 <= i)%Z →
  Z.testbit (Z.lor x (2 ^ k)) i = Z.testbit x i || Z.eqb k i.
Proof. intros Hk Hi. now rewrite Z.lor_spec, Z.pow2_bits_eqb. Qed.

(** The bits of the mode handed to [os.chmod]: owner-execute is set, group
    and other execute are set when they were or when the matching read bit
    is, and no other bit changes. *)
Lemma new_mode_bits (m i : Z) :
  (0 <= i)%Z →
  Z.testbit (Permissions.new_mode m) i
  = Z.testbit m i || Z.eqb 6 i
    || (Z.eqb 3 i && Z.testbit m 5) || (Z.eqb 0 i && Z.testbit m 2).
Proof.
  intros Hi. unfold Permissions.new_mode.
  change Permissions.o400 with (2 ^ 8)%Z. change Permissions.o040 with (2 ^ 5)%Z.
  change Permissions.o004 with (2 ^ 2)%Z. change Permissions.o100 with (2 ^ 6)%Z.
  change Permissions.o010 with (2 ^ 3)%Z. change Permissions.o001 with (2 ^ 0)%Z.
  rewrite !land_bit_test by lia.
  destruct (Z.testbit m 8) eqn:E8, (Z.testbit m 5) eqn:E5,
    (Z.testbit m 2) eqn:E2, (Z.testbit m 6) eqn:E6; cbn [negb];
    rewrite ?lor_pow2_bit, ?E6 by lia;
    change (6 =? 6)%Z with true; change (3 =? 6)%Z with false;
    change (0 =? 6)%Z with false; cbn [negb orb];
    rewrite ?lor_pow2_bit by lia;
    destruct (Z.eqb_spec 6 i) as [H6|H6], (Z.eqb_spec 3 i) as [H3|H3],
      (Z.eqb_spec 0 i) as [H0|H0]; try lia;
    try (rewrite <- H6, ?E6);
    destruct (Z.testbit m i); reflexivity.
Qed.

Lemma no_exec_bits (m : Z) :
  Z.land m Permissions.o111 = 0%Z →
  Z.testbit m 6 = false ∧ Z.testbit m 3 = false ∧ Z.testbit m 0 = false.
Proof.
  intros H.
  assert (∀ k, Z.testbit Permissions.o111 k = true → Z.testbit m k = false)
    as Hk.
  { intros k Hk. pose proof (Z.land_spec m Permissions.o111 k) as Hl.
    rewrite H, Z.bits_0, Hk, andb_true_r in Hl. now symmetry. }
  repeat split; apply Hk; reflexivity.
Qed.

Lemma visit_chmod (e : Permissions.entry) :
  Permissions.shebang_without_exec e = true →
  Permissions.chmod_error e = None →
  Permissions.visit e
  = Permissions.Chmod (Permissions.path e)
      (Permissions.new_mode (Permissions.st_mode e)).
Proof.
  unfold Permissions.shebang_without_exec, Permissions.visit.
  intros [[[Hs Hf]%andb_true_iff Hh]%andb_true_iff Hm]%andb_true_iff Hc.
  apply negb_true_iff in Hs. rewrite Hs, Hf. cbn [negb orb].
  destruct (Permissions.head e) as [h|]; [|discriminate].
  rewrite Hh, Hm, Hc. reflexivity.
Qed.

(** The counter is the number of visited entries whose [os.chmod]
    succeeded. *)
Lemma run_loop_updated (l : list Permissions.entry) (o : Permissions.outcome) :
  Permissions.updated (Permissions.run_loop l o)
  = Permissions.updated o
    + length (List.filter
                (λ e, Permissions.shebang_without_exec e
                      && match Permissions.chmod_error e with
                         | None => true
                         | Some _ => false
                         end) l).
Proof.
  revert o. induction l as [|e l IH]; intros o; cbn [Permissions.run_loop
    List.filter length]; [lia|].
  rewrite IH. unfold Permissions.visit, Permissions.shebang_without_exec.
  destruct (Permissions.is_symlink e), (Permissions.is_file e);
    cbn [negb orb andb length Permissions.updated]; try lia.
  destruct (Permissions.head e) as [h|];
    cbn [negb orb andb length Permissions.updated]; [|lia].
  destruct (String.eqb h "#!");
    cbn [negb orb andb length Permissions.updated]; [|lia].
  destruct (Z.eqb (Z.land (Permissions.st_mode e) Permissions.o111) 0);
    cbn [negb orb andb length Permissions.updated]; [|lia].
  destruct (Permissions.chmod_error e);
    cbn [negb orb andb length Permissions.updated]; lia.
Qed.

Lemma run_loop_keeps (l : list Permissions.entry) (o : Permissions.outcome)
    (c : list string * Z) :
  In c (Permissions.chmods o) →
  In c (Permissions.chmods (Permissions.run_loop l o)).
Proof.
  revert o. induction l as [|e l IH]; intros o Hc; [assumption|].
  cbn [Permissions.run_loop]. apply IH.
  destruct (Permissions.visit e); cbn [Permissions.chmods]; try assumption.
  apply in_or_app. now left.
Qed.

Lemma run_loop_chmods (l : list Permissions.entry) (o : Permissions.outcome)
    (e : Permissions.entry) (p : list string) (m : Z) :
  In e l → Permissions.visit e = Permissions.Chmod p m →
  In (p, m) (Permissions.chmods (Permissions.run_loop l o)).
Proof.
  revert o. induction l as [|x l IH]; intros o Hin Hv; [destruct Hin|].
  cbn [Permissions.run_loop]. destruct Hin as [-> | Hin].
  - rewrite Hv. apply run_loop_keeps. cbn [Permissions.chmods].
    apply in_or_app. right. now left.
  - now apply IH.
Qed.

Lemma filter_filter {A} (f g : A → bool) (l : list A) :
  List.filter f (List.filter g l) = List.filter (λ x, g x && f x) l.
Proof.
  induction l as [|x l IH]; [reflexivity|]. cbn [List.filter].
  destruct (g x); cbn [List.filter andb]; [|assumption].
  destruct (f x); now rewrite IH.
Qed.

Lemma counted_filter (below : list Permissions.entry) :
  List.filter
    (λ e, Permissions.shebang_without_exec e
          && match Permissions.chmod_error e with
             | None => true
             | Some _ => false
             end) (Permissions.rglob_sh below)
  = List.filter Permissions.counted below.
Proof.
  unfold Permissions.rglob_sh. rewrite filter_filter.
  apply List.filter_ext. intros e. unfold Permissions.counted.
  now rewrite andb_assoc.
Qed.

(** The claim for every file under the scripts directory fails on a script
    whose name does not end in [.sh]: the loop never sees it. *)
Lemma script_without_sh_suffix_is_skipped :
  ¬ (∀ (below : list Permissions.entry) (e : Permissions.entry),
       In e below →
       Permissions.shebang_without_exec e = true →
       Permissions.chmod_error e = None →
       let o := fst (Permissions.ensure_executable_scripts "posix" true below
                       None) in
       In (Permissions.path e, Permissions.new_mode (Permissions.st_mode e))
          (Permissions.chmods o)
       ∧ 1 <= Permissions.updated o).
Proof.
  intros H.
  pose (e := Permissions.Entry [ "bash"; "setup" ] false true (Some "#!")
               33184 None).
  destruct (H [e] e) as [Hin _]; [now left | reflexivity | reflexivity |].
  vm_compute in Hin. exact Hin.
Qed.

(** C8, amended: on POSIX, every regular non-symlink file under the scripts
    directory whose name ends in [.sh], that starts with the shebang, has no
    execute bit and on which [os.chmod] does not fail, is given the mode in
    which owner-execute is set and group and other execute mirror the group
    and other read bits, every other bit kept; it is counted in [updated],
    which is the number of such files. *)
Theorem sh_script_gets_execute_bits (os_name : string)
    (below : list Permissions.entry) (tracker : option Tracker.t)
    (e : Permissions.entry) :
  os_name ≠ "nt" → In e below →
  Py.endswith ".sh" (Permissions.basename (Permissions.path e)) = true →
  Permissions.shebang_without_exec e = true →
  Permissions.chmod_error e = None →
  let o := fst (Permissions.ensure_executable_scripts os_name true below
                  tracker) in
  let m := Permissions.st_mode e in
  let nm := Permissions.new_mode m in
  In (Permissions.path e, nm) (Permissions.chmods o)
  ∧ Permissions.updated o = length (List.filter Permissions.counted below)
  ∧ 1 <= Permissions.updated o
  ∧ Z.testbit nm 6 = true
  ∧ (Z.testbit m 8 = true → Z.testbit nm 6 = true)
  ∧ Z.testbit nm 3 = Z.testbit m 5
  ∧ Z.testbit nm 0 = Z.testbit m 2
  ∧ (∀ i, (0 <= i)%Z → i ≠ 6%Z → i ≠ 3%Z → i ≠ 0%Z →
          Z.testbit nm i = Z.testbit m i).
Proof.
  intros Hos Hin Hsh Hcand Hok o m nm.
  assert (o = Permissions.run_loop (Permissions.rglob_sh below)
                (Permissions.Outcome [] 0 [])) as Ho.
  { unfold o, Permissions.ensure_executable_scripts.
    apply String.eqb_neq in Hos. now rewrite Hos. }
  assert (In e (Permissions.rglob_sh below)) as Hin'.
  { unfold Permissions.rglob_sh. apply List.filter_In. auto. }
  assert (Permissions.updated o
          = length (List.filter Permissions.counted below)) as Hup.
  { rewrite Ho, run_loop_updated, counted_filter. reflexivity. }
  assert (Z.land m Permissions.o111 = 0%Z) as Hm.
  { unfold Permissions.shebang_without_exec in Hcand.
    apply andb_true_iff in Hcand as [_ Hz]. now apply Z.eqb_eq. }
  destruct (no_exec_bits m Hm) as (_ & Hm3 & Hm0).
  split.
  { rewrite Ho. apply (run_loop_chmods _ _ e); [assumption|].
    now apply visit_chmod. }
  split; [exact Hup|]. split.
  { rewrite Hup.
    assert (In e (List.filter Permissions.counted below)) as Hc.
    { apply List.filter_In. split; [assumption|]. unfold Permissions.counted.
      now rewrite Hsh, Hcand, Hok. }
    destruct (List.filter Permissions.counted below); [destruct Hc|].
    cbn [length]. lia. }
  unfold nm.
  split. { rewrite new_mode_bits by lia. cbn. now rewrite orb_true_r. }
  split. { intros _. rewrite new_mode_bits by lia. cbn. now rewrite orb_true_r. }
  split. { rewrite new_mode_bits by lia. rewrite Hm3. cbn.
           now rewrite orb_false_r. }
  split. { rewrite new_mode_bits by lia. rewrite Hm0. reflexivity. }
  intros i Hi H6 H3 H0. rewrite new_mode_bits by assumption.
  destruct (Z.eqb_spec 6 i), (Z.eqb_spec 3 i), (Z.eqb_spec 0 i); try congruence.
  cbn. now rewrite !orb_false_r.
Qed.

Lemma sh_script_gets_execute_bits_witness :
  let e := Permissions.Entry [ "bash"; "setup.sh" ] false true (Some "#!")
             33184 None in
  let below := [ Permissions.Entry [ "bash" ] false false None 16877 None;
                 e;
                 Permissions.Entry [ "bash"; "notes.sh" ] false true
                   (Some "ec") 33188 None ] in
  let o := fst (Permissions.ensure_executable_scripts "posix" true below
                  None) in
  In ([ "bash"; "setup.sh" ], 33256%Z) (Permissions.chmods o)
  ∧ Permissions.updated o = 1.
Proof.
  intros e below o.
  destruct (sh_script_gets_execute_bits "posix" below None e)
    as (Hc & Hu & _);
    [discriminate | right; now left | reflexivity | reflexivity | reflexivity |].
  split; [exact Hc | exact Hu].
Defined.

(** ** Archive installer: the file system *)

Lemma assoc_aset_eq (c : string) (x : Installer.node)
    (es : list (string * Installer.node)) :
  Installer.assoc c (Installer.aset c x es) = Some x.
Proof.
  induction es as [|[k n] es IH]; cbn [Installer.aset Installer.assoc].
  - now rewrite String.eqb_refl.
  - destruct (String.eqb k c) eqn:E; cbn [Installer.assoc]; now rewrite E.
Qed.

Lemma assoc_aset_ne (c k : string) (x : Installer.node)
    (es : list (string * Installer.node)) :
  k ≠ c → Installer.assoc k (Installer.aset c x es) = Installer.assoc k es.
Proof.
  intros Hne. induction es as [|[k' n] es IH];
    cbn [Installer.aset Installer.assoc].
  - apply String.eqb_neq in Hne. now rewrite String.eqb_sym, Hne.
  - destruct (String.eqb k' c) eqn:E; cbn [Installer.assoc].
    + apply String.eqb_eq in E as ->.
      apply String.eqb_neq in Hne. now rewrite String.eqb_sym, Hne.
    + now rewrite IH.
Qed.

Lemma assoc_adel_eq (c : string) (es : list (string * Installer.node)) :
  Installer.assoc c (Installer.adel c es) = None.
Proof.
  unfold Installer.adel.
  induction es as [|[k n] es IH]; cbn [List.filter fst]; [reflexivity|].
  destruct (String.eqb k c) eqn:E; cbn [negb]; [assumption|].
  cbn [Installer.assoc]. now rewrite E.
Qed.

Lemma assoc_adel_ne (c k : string) (es : list (string * Installer.node)) :
  k ≠ c → Installer.assoc k (Installer.adel c es) = Installer.assoc k es.
Proof.
  intros Hne. unfold Installer.adel.
  induction es as [|[k' n] es IH]; cbn [List.filter fst]; [reflexivity|].
  destruct (String.eqb k' c) eqn:E; cbn [negb Installer.assoc].
  - apply String.eqb_eq in E as ->.
    apply String.eqb_neq in Hne. now rewrite String.eqb_sym, Hne.
  - now rewrite IH.
Qed.

(** Below a missing path nothing exists. *)
Lemma lookup_none_app (n : Installer.node) (p q : Installer.path) :
  Installer.lookup n p = None → Installer.lookup n (p ++ q) = None.
Proof.
  revert n. induction p as [|c p IH]; intros n; cbn [Installer.lookup app].
  - discriminate.
  - destruct n as [content|es]; [reflexivity|].
    destruct (Installer.assoc c es); [apply IH | reflexivity].
Qed.

(** After [rmtree] the path is gone. *)
Lemma lookup_remove_self (n : Installer.node) (p : Installer.path) :
  p ≠ [] → Installer.lookup (Installer.remove n p) p = None.
Proof.
  revert n. induction p as [|c p IH]; intros n Hp; [congruence|].
  destruct n as [content|es]; [reflexivity|].
  destruct p as [|c' p'].
  - cbn [Installer.remove Installer.lookup]. now rewrite assoc_adel_eq.
  - cbn [Installer.remove].
    destruct (Installer.assoc c es) as [m|] eqn:E.
    + cbn [Installer.lookup]. rewrite assoc_aset_eq.
      fold (Installer.lookup (Installer.remove m (c' :: p')) (c' :: p')).
      now apply IH.
    + cbn [Installer.lookup]. now rewrite E.
Qed.

(** Removing a path creates nothing. *)
Lemma lookup_remove_none (n : Installer.node) (z p : Installer.path) :
  Installer.lookup n p = None →
  Installer.lookup (Installer.remove n z) p = None.
Proof.
  revert n p. induction z as [|c z IH]; intros n p Hp; [assumption|].
  destruct n as [content|es]; [assumption|].
  destruct p as [|k p]; [discriminate|].
  cbn [Installer.lookup] in Hp.
  destruct (String.eqb_spec k c) as [->|Hne].
  - destruct z as [|c' z'].
    + cbn [Installer.remove Installer.lookup]. now rewrite assoc_adel_eq.
    + cbn [Installer.remove].
      destruct (Installer.assoc c es) as [m|] eqn:E.
      * cbn [Installer.lookup]. rewrite assoc_aset_eq. now apply IH.
      * cbn [Installer.lookup]. now rewrite E.
  - destruct z as [|c' z'].
    + cbn [Installer.remove Installer.lookup].
      now rewrite assoc_adel_ne.
    + cbn [Installer.remove].
      destruct (Installer.assoc c es) as [m|] eqn:E.
      * cbn [Installer.lookup]. now rewrite assoc_aset_ne.
      * cbn [Installer.lookup]. assumption.
Qed.

Lemma absent_remove_self (n : Installer.node) (p : Installer.path) :
  p ≠ [] → Installer.absent (Installer.remove n p) p.
Proof. intros Hp q. apply lookup_none_app. now apply lookup_remove_self. Qed.

Lemma absent_missing (n : Installer.node) (p : Installer.path) :
  Installer.exists_ n p = false → Installer.absent n p.
Proof.
  unfold Installer.exists_. intros H q. apply lookup_none_app.
  destruct (Installer.lookup n p); [discriminate | reflexivity].
Qed.

Lemma absent_remove_other (n : Installer.node) (z p : Installer.path) :
  Installer.absent n p → Installer.absent (Installer.remove n z) p.
Proof. intros H q. apply lookup_remove_none, H. Qed.

(** ** Archive installer: what the file-system calls keep *)

Lemma same_kind_refl (x : Installer.node) : InstallerSpec.same_kind x x = true.
Proof. now destruct x. Qed.

Lemma same_kind_trans (x y z : Installer.node) :
  InstallerSpec.same_kind x y = true → InstallerSpec.same_kind y z = true →
  InstallerSpec.same_kind x z = true.
Proof. now destruct x, y, z. Qed.

Lemma kept_refl (n : Installer.node) (q : Installer.path) :
  InstallerSpec.kept n n q = true.
Proof.
  unfold InstallerSpec.kept.
  destruct (Installer.lookup n q); [apply same_kind_refl | reflexivity].
Qed.

Lemma kept_trans (a b c : Installer.node) (q : Installer.path) :
  InstallerSpec.kept a b q = true → InstallerSpec.kept b c q = true →
  InstallerSpec.kept a c q = true.
Proof.
  unfold InstallerSpec.kept.
  destruct (Installer.lookup a q) as [x|]; [|reflexivity].
  destruct (Installer.lookup b q) as [y|]; [|discriminate].
  destruct (Installer.lookup c q) as [z|]; [|now intros].
  apply same_kind_trans.
Qed.

Lemma kept_files (c c' : string) (q : Installer.path) :
  InstallerSpec.kept (Installer.File c) (Installer.File c') q = true.
Proof. now destruct q. Qed.

(** Replacing an entry of a directory by one that keeps everything keeps
    everything. *)
Lemma kept_aset (c : string) (m m' : Installer.node)
    (es : list (string * Installer.node)) (q : Installer.path) :
  Installer.assoc c es = Some m →
  (∀ q', InstallerSpec.kept m m' q' = true) →
  InstallerSpec.kept (Installer.Dir es)
    (Installer.Dir (Installer.aset c m' es)) q = true.
Proof.
  intros Hc Hm. destruct q as [|k q]; [reflexivity|].
  unfold InstallerSpec.kept. cbn [Installer.lookup].
  destruct (String.eqb_spec k c) as [->|Hne].
  - rewrite Hc, assoc_aset_eq. apply Hm.
  - rewrite assoc_aset_ne by exact Hne.
    destruct (Installer.assoc k es) as [x|]; [|reflexivity].
    apply kept_refl.
Qed.

Lemma kept_aset_new (c : string) (x : Installer.node)
    (es : list (string * Installer.node)) (q : Installer.path) :
  Installer.assoc c es = None →
  InstallerSpec.kept (Installer.Dir es)
    (Installer.Dir (Installer.aset c x es)) q = true.
Proof.
  intros Hc. destruct q as [|k q]; [reflexivity|].
  unfold InstallerSpec.kept. cbn [Installer.lookup].
  destruct (String.eqb_spec k c) as [->|Hne].
  - now rewrite Hc.
  - rewrite assoc_aset_ne by exact Hne.
    destruct (Installer.assoc k es) as [y|]; [|reflexivity].
    apply kept_refl.
Qed.

(** Binding a node at a free path, or a file over a file, keeps
    everything. *)
Lemma put_kept (n : Installer.node) (p : Installer.path)
    (x n' : Installer.node) :
  Installer.put n p x = Some n' →
  match Installer.lookup n p with
  | None => True
  | Some y => ∃ c c', y = Installer.File c ∧ x = Installer.File c'
  end →
  ∀ q, InstallerSpec.kept n n' q = true.
Proof.
  revert n n'. induction p as [|c p IH]; intros n n' Hput Hfree q.
  - cbn in Hput, Hfree. injection Hput as <-.
    destruct Hfree as (a & b & -> & ->). apply kept_files.
  - destruct n as [content|es]; [discriminate|].
    cbn [Installer.put] in Hput. cbn [Installer.lookup] in Hfree.
    destruct p as [|c' p'].
    + injection Hput as <-.
      destruct (Installer.assoc c es) as [m|] eqn:E.
      * cbn [Installer.lookup] in Hfree.
        destruct Hfree as (a & b & -> & ->).
        apply (kept_aset c (Installer.File a)); [exact E|].
        intros q'. apply kept_files.
      * now apply kept_aset_new.
    + destruct (Installer.assoc c es) as [m|] eqn:E; [|discriminate].
      cbn [mbind option_bind] in Hput.
      destruct (Installer.put m (c' :: p') x) as [m'|] eqn:Em;
        [|discriminate].
      injection Hput as <-.
      apply (kept_aset c m); [exact E|].
      intros q'. now apply (IH m m').
Qed.

Lemma mkdir_p_kept (n : Installer.node) (p : Installer.path)
    (n' : Installer.node) :
  Installer.mkdir_p n p = Some n' →
  ∀ q, InstallerSpec.kept n n' q = true.
Proof.
  revert n n'. induction p as [|c p IH]; intros n n' Hmk q;
    destruct n as [content|es]; try discriminate.
  - injection Hmk as <-. apply kept_refl.
  - cbn [Installer.mkdir_p] in Hmk.
    destruct (Installer.mkdir_p (default (Installer.Dir [])
                (Installer.assoc c es)) p) as [m'|] eqn:Em; [|discriminate].
    cbn [mbind option_bind] in Hmk. injection Hmk as <-.
    destruct (Installer.assoc c es) as [m|] eqn:E.
    + apply (kept_aset c m); [exact E|].
      intros q'. now apply (IH m m').
    + now apply kept_aset_new.
Qed.

Lemma lookup_free (n : Installer.node) (p : Installer.path) :
  Installer.exists_ n p = false → Installer.lookup n p = None.
Proof.
  unfold Installer.exists_.
  now destruct (Installer.lookup n p).
Qed.

Lemma write_file_kept (n : Installer.node) (p : Installer.path)
    (content : string) (n' : Installer.node) :
  Installer.write_file n p content = Some n' →
  ∀ q, InstallerSpec.kept n n' q = true.
Proof.
  unfold Installer.write_file, Installer.is_dir. intros Hw.
  destruct (Installer.lookup n p) as [[c|es]|] eqn:E; [| discriminate |];
    apply (put_kept _ _ _ _ Hw); rewrite E; eauto.
Qed.

Lemma mkdir_kept (n : Installer.node) (p : Installer.path)
    (n' : Installer.node) :
  Installer.mkdir n p = Some n' → ∀ q, InstallerSpec.kept n n' q = true.
Proof.
  unfold Installer.mkdir. intros Hm.
  destruct (Installer.exists_ n p) eqn:E; [discriminate|].
  apply (put_kept _ _ _ _ Hm). now rewrite (lookup_free _ _ E).
Qed.

Lemma copytree_kept (n x : Installer.node) (p : Installer.path)
    (n' : Installer.node) :
  Installer.copytree n x p = Some n' → ∀ q, InstallerSpec.kept n n' q = true.
Proof.
  unfold Installer.copytree. intros Hm.
  destruct (Installer.exists_ n p) eqn:E; [discriminate|].
  apply (put_kept _ _ _ _ Hm). now rewrite (lookup_free _ _ E).
Qed.

Lemma copy2_kept (n : Installer.node) (name content : string)
    (p : Installer.path) (n' : Installer.node) :
  Installer.copy2 n name content p = Some n' →
  ∀ q, InstallerSpec.kept n n' q = true.
Proof. unfold Installer.copy2. apply write_file_kept. Qed.

Lemma extract_member_kept (target : Installer.path) (m : Installer.member)
    (n n' : Installer.node) :
  Installer.extract_member target m n = Some n' →
  ∀ q, InstallerSpec.kept n n' q = true.
Proof.
  unfold Installer.extract_member. destruct (snd m) as [content|].
  - destruct (Installer.mkdir_p n _) as [n1|] eqn:E1; [|discriminate].
    cbn [mbind option_bind]. intros Hw q.
    apply (kept_trans n n1 n'); [now apply (mkdir_p_kept _ _ _ E1)|].
    now apply (write_file_kept _ _ _ _ Hw).
  - apply mkdir_p_kept.
Qed.

(** Removing a tree keeps what is not in it. *)
Lemma remove_kept (n : Installer.node) (z q : Installer.path) :
  InstallerSpec.is_prefix z q = false →
  InstallerSpec.kept n (Installer.remove n z) q = true.
Proof.
  revert n q. induction z as [|c z IH]; intros n q Hq; [discriminate|].
  destruct n as [content|es]; [apply kept_refl|].
  destruct q as [|k q].
  { unfold InstallerSpec.kept. cbn [Installer.remove Installer.lookup].
    destruct z; [reflexivity|]. now destruct (Installer.assoc c es). }
  cbn [InstallerSpec.is_prefix] in Hq.
  unfold InstallerSpec.kept. cbn [Installer.remove].
  destruct (String.eqb_spec c k) as [->|Hne].
  - cbn [andb] in Hq. destruct z as [|c' z']; [discriminate|].
    destruct (Installer.assoc k es) as [m|] eqn:E.
    + cbn [Installer.lookup]. rewrite E, assoc_aset_eq.
      apply (IH m q Hq).
    + apply kept_refl.
  - assert (k ≠ c) as Hne' by congruence.
    destruct z as [|c' z'].
    + cbn [Installer.lookup]. rewrite assoc_adel_ne by exact Hne'.
      destruct (Installer.assoc k es) as [x|]; [|reflexivity].
      apply kept_refl.
    + destruct (Installer.assoc c es) as [m|] eqn:E.
      * cbn [Installer.lookup]. rewrite assoc_aset_ne by exact Hne'.
        destruct (Installer.assoc k es) as [x|]; [|reflexivity].
        apply kept_refl.
      * apply kept_refl.
Qed.

Lemma keeps_refl (roots : list Installer.path) (n : Installer.node) :
  InstallerSpec.keeps roots n n.
Proof. intros q _. apply kept_refl. Qed.

Lemma keeps_trans (roots : list Installer.path) (a b c : Installer.node) :
  InstallerSpec.keeps roots a b → InstallerSpec.keeps roots b c →
  InstallerSpec.keeps roots a c.
Proof. intros H1 H2 q Hq. apply (kept_trans a b c); auto. Qed.

Lemma keeps_all (roots : list Installer.path) (n n' : Installer.node) :
  (∀ q, InstallerSpec.kept n n' q = true) → InstallerSpec.keeps roots n n'.
Proof. intros H q _. apply H. Qed.

Lemma keeps_remove (roots : list Installer.path) (n : Installer.node)
    (z : Installer.path) :
  In z roots → InstallerSpec.keeps roots n (Installer.remove n z).
Proof.
  intros Hz q Hq. apply remove_kept.
  destruct (InstallerSpec.is_prefix z q) eqn:E; [|reflexivity].
  assert (existsb (λ r, InstallerSpec.is_prefix r q) roots = true) as Ht.
  { apply existsb_exists. eauto. }
  congruence.
Qed.

(** ** Archive installer: failure of the extraction *)

Lemma bind_run {A B} (m : Installer.M A) (f : A → Installer.M B)
    (w : Installer.world) :
  @mbind Installer.M Installer.M_bind A B f m w
  = match m w with
    | (inr x, w1) => f x w1
    | (inl e, w1) => (inl e, w1)
    end.
Proof. reflexivity. Qed.

(** *** Triples *)

Lemma triple_weaken {A} (P P' : Installer.node → Prop) (m : Installer.M A)
    (Q Q' : A → Installer.node → Prop) (E E' : Installer.node → Prop) :
  InstallerSpec.triple P' m Q' E' →
  (∀ n, P n → P' n) → (∀ x n, Q' x n → Q x n) → (∀ n, E' n → E n) →
  InstallerSpec.triple P m Q E.
Proof.
  intros H HP HQ HE w Hw. specialize (H w (HP _ Hw)).
  destruct (m w) as [[e|x] w']; auto.
Qed.

Lemma triple_ret {A} (x : A) (P E : Installer.node → Prop) :
  InstallerSpec.triple P (@mret Installer.M Installer.M_ret A x) (λ _, P) E.
Proof. intros w Hw. exact Hw. Qed.

Lemma triple_raise {A} (e : exn) (P : Installer.node → Prop)
    (Q : A → Installer.node → Prop) (E : Installer.node → Prop) :
  (∀ n, P n → E n) → InstallerSpec.triple P (@Installer.raise A e) Q E.
Proof. intros H w Hw. now apply H. Qed.

Lemma triple_bind {A B} (P : Installer.node → Prop) (m : Installer.M A)
    (Q : A → Installer.node → Prop) (f : A → Installer.M B)
    (R : B → Installer.node → Prop) (E : Installer.node → Prop) :
  InstallerSpec.triple P m Q E →
  (∀ x, InstallerSpec.triple (Q x) (f x) R E) →
  InstallerSpec.triple P (@mbind Installer.M Installer.M_bind A B f m) R E.
Proof.
  intros Hm Hf w Hw. rewrite bind_run. specialize (Hm w Hw).
  destruct (m w) as [[e|x] w1]; [exact Hm|]. exact (Hf x w1 Hm).
Qed.

Lemma triple_track (f : Tracker.t → Tracker.t)
    (P E : Installer.node → Prop) :
  InstallerSpec.triple P (Installer.track f) (λ _, P) E.
Proof. intros w Hw. exact Hw. Qed.

Lemma triple_get_fs (P E : Installer.node → Prop) :
  InstallerSpec.triple P Installer.get_fs (λ x n, x = n ∧ P n) E.
Proof. intros w Hw. now split. Qed.

Lemma triple_tick (P E : Installer.node → Prop) :
  (∀ n, P n → E n) →
  InstallerSpec.triple P Installer.tick (λ _, P) E.
Proof.
  intros H w Hw. unfold Installer.tick.
  destruct (Installer.faults w) as [|[] r]; cbn [Installer.fs]; auto.
Qed.

Lemma triple_fs_call (what : string)
    (f : Installer.node → option Installer.node)
    (P Q E : Installer.node → Prop) :
  (∀ n, P n → E n) →
  (∀ n n', P n → f n = Some n' → Q n') →
  InstallerSpec.triple P (Installer.fs_call what f) (λ _, Q) E.
Proof.
  intros HE HQ. unfold Installer.fs_call.
  apply (triple_bind _ _ (λ _, P)); [now apply triple_tick|].
  intros _ w Hw. unfold Installer.update_fs.
  destruct (f (Installer.fs w)) as [n'|] eqn:Ef; cbn [Installer.fs]; eauto.
Qed.

Lemma triple_fs_read {A} (what : string) (f : Installer.node → option A)
    (P E : Installer.node → Prop) :
  (∀ n, P n → E n) →
  InstallerSpec.triple P (Installer.fs_read what f) (λ _, P) E.
Proof.
  intros HE. unfold Installer.fs_read.
  apply (triple_bind _ _ (λ _, P)); [now apply triple_tick|].
  intros _ w Hw. unfold Installer.read_fs.
  destruct (f (Installer.fs w)); auto.
Qed.

Lemma triple_for_each {A} (l : list A) (f : A → Installer.M unit)
    (I E : Installer.node → Prop) :
  (∀ x, InstallerSpec.triple I (f x) (λ _, I) E) →
  InstallerSpec.triple I (Installer.for_each l f) (λ _, I) E.
Proof.
  intros Hf. induction l as [|x l IH]; cbn [Installer.for_each].
  - apply triple_ret.
  - apply (triple_bind _ _ (λ _, I)); [apply Hf | intros _; exact IH].
Qed.

(** *** What the calls of the fresh branch do to the target *)

Lemma is_dir_not_file (n : Installer.node) (p : Installer.path) :
  Installer.is_dir n p = true → InstallerSpec.is_file n p = false.
Proof.
  unfold Installer.is_dir, InstallerSpec.is_file.
  now destruct (Installer.lookup n p) as [[]|].
Qed.

Lemma missing_not_file (n : Installer.node) (p : Installer.path) :
  Installer.lookup n p = None → InstallerSpec.is_file n p = false.
Proof. unfold InstallerSpec.is_file. now intros ->. Qed.

Lemma kept_is_dir (n n' : Installer.node) (p : Installer.path) :
  InstallerSpec.kept n n' p = true →
  Installer.is_dir n p = true → Installer.is_dir n' p = true.
Proof.
  unfold InstallerSpec.kept, Installer.is_dir.
  destruct (Installer.lookup n p) as [[c|es]|]; try discriminate.
  now destruct (Installer.lookup n' p) as [[c'|es']|].
Qed.

(** [makedirs] leaves a directory at every prefix of its path. *)
Lemma mkdir_p_is_dir (n n' : Installer.node) (p q : Installer.path) :
  Installer.mkdir_p n (p ++ q) = Some n' → Installer.is_dir n' p = true.
Proof.
  revert n n'. induction p as [|c p IH]; intros n n' H.
  - destruct n as [content|es]; [destruct q; discriminate|].
    destruct q as [|k q]; cbn [app Installer.mkdir_p] in H.
    + now injection H as <-.
    + destruct (Installer.mkdir_p _ q); [|discriminate].
      cbn [mbind option_bind] in H. now injection H as <-.
  - destruct n as [content|es]; [discriminate|].
    cbn [app Installer.mkdir_p] in H.
    destruct (Installer.mkdir_p (default (Installer.Dir [])
                (Installer.assoc c es)) (p ++ q)) as [m'|] eqn:Em;
      [|discriminate].
    cbn [mbind option_bind] in H. injection H as <-.
    unfold Installer.is_dir. cbn [Installer.lookup].
    rewrite assoc_aset_eq. exact (IH _ _ Em).
Qed.

Lemma mkdir_parents_is_dir (n n' : Installer.node) (p : Installer.path) :
  Installer.mkdir_parents n p = Some n' → Installer.is_dir n' p = true.
Proof.
  unfold Installer.mkdir_parents.
  destruct (Installer.exists_ n p); [discriminate|].
  intros H. apply (mkdir_p_is_dir n n' p []). now rewrite app_nil_r.
Qed.

(** Extraction leaves a directory at its target. *)
Lemma extract_member_is_dir (target : Installer.path) (m : Installer.member)
    (n n' : Installer.node) :
  Installer.extract_member target m n = Some n' →
  Installer.is_dir n' target = true.
Proof.
  unfold Installer.extract_member. destruct (snd m) as [content|].
  - destruct (Installer.mkdir_p n _) as [n1|] eqn:E1; [|discriminate].
    cbn [mbind option_bind]. intros Hw.
    apply (kept_is_dir n1); [now apply (write_file_kept _ _ _ _ Hw)|].
    exact (mkdir_p_is_dir _ _ _ _ E1).
  - apply mkdir_p_is_dir.
Qed.

(** What has just been bound at a path is found there. *)
Lemma lookup_put_self (n n' x : Installer.node) (q : Installer.path) :
  Installer.put n q x = Some n' → Installer.lookup n' q = Some x.
Proof.
  revert n n'. induction q as [|c q IH]; intros n n' H.
  - cbn in H |- *. congruence.
  - destruct n as [content|es]; [discriminate|].
    cbn [Installer.put] in H. destruct q as [|c' q'].
    + injection H as <-. cbn [Installer.lookup].
      now rewrite assoc_aset_eq.
    + destruct (Installer.assoc c es) as [m|]; [|discriminate].
      cbn [mbind option_bind] in H.
      destruct (Installer.put m (c' :: q') x) as [m'|] eqn:Em;
        [|discriminate].
      injection H as <-. cbn [Installer.lookup]. rewrite assoc_aset_eq.
      exact (IH _ _ Em).
Qed.

(** Above an entry there is a directory. *)
Lemma lookup_parent_is_dir (n x : Installer.node) (p : Installer.path)
    (d : string) :
  Installer.lookup n (p ++ [d]) = Some x → Installer.is_dir n p = true.
Proof.
  unfold Installer.is_dir.
  revert n. induction p as [|c p IH]; intros n; cbn [app Installer.lookup].
  - now destruct n.
  - destruct n as [content|es]; [discriminate|].
    destruct (Installer.assoc c es) as [m|]; [apply IH | discriminate].
Qed.

Lemma is_prefix_longer (r q : Installer.path) :
  length q < length r → InstallerSpec.is_prefix r q = false.
Proof.
  revert q. induction r as [|c r IH]; intros q H; [cbn in H; lia|].
  destruct q as [|k q]; [reflexivity|]. cbn [InstallerSpec.is_prefix].
  cbn [length] in H. rewrite IH by lia. apply andb_false_r.
Qed.

Lemma append_longer (c s : string) : s ≠ "" → c +:+ s ≠ c.
Proof.
  intros Hs. induction c as [|a c IH].
  - now rewrite append_nil.
  - rewrite append_cons. intros [= H]. now apply IH.
Qed.

(** The target is not above the sibling used for hoisting. *)
Lemma target_not_above_sibling (p : Installer.path) :
  p ≠ [] →
  InstallerSpec.is_prefix p
    (removelast p ++ [ Installer.basename p +:+ "_temp" ]) = false.
Proof.
  intros Hp. unfold Installer.basename.
  induction p as [|c p IH]; [congruence|].
  destruct p as [|c' p'].
  - cbn [removelast app List.last InstallerSpec.is_prefix].
    destruct (String.eqb_spec c (c +:+ "_temp")) as [E|_]; [|reflexivity].
    symmetry in E. now apply append_longer in E.
  - change (removelast (c :: c' :: p')) with (c :: removelast (c' :: p')).
    change (List.last (c :: c' :: p') "") with (List.last (c' :: p') "").
    cbn [app InstallerSpec.is_prefix]. rewrite String.eqb_refl.
    cbn [andb]. apply IH. discriminate.
Qed.

(** Moving a directory from inside the target to the sibling: both are
    directories afterwards. *)
Lemma move_out_is_dir (n n' : Installer.node) (p temp : Installer.path)
    (d : string) :
  length temp = length p →
  Installer.is_dir n (p ++ [d]) = true →
  Installer.move n (p ++ [d]) temp = Some n' →
  Installer.is_dir n' p = true ∧ Installer.is_dir n' temp = true.
Proof.
  intros Hlen Hd. unfold Installer.move.
  pose proof Hd as Hsrc. unfold Installer.is_dir in Hsrc.
  destruct (Installer.lookup n (p ++ [d])) as [[c|es]|] eqn:Ex;
    try discriminate.
  cbn [mbind option_bind].
  assert (Installer.is_dir n p = true) as Hp
      by exact (lookup_parent_is_dir _ _ _ _ Ex).
  assert (∀ q, length q <= length p →
               InstallerSpec.kept n (Installer.remove n (p ++ [d])) q = true)
    as Hrm.
  { intros q Hq. apply remove_kept, is_prefix_longer.
    rewrite length_app. cbn [length]. lia. }
  cbv zeta.
  set (rd := if Installer.is_dir n temp
             then temp ++ [Installer.basename (p ++ [d])] else temp).
  destruct (Installer.lookup n rd) as [[c|es']|] eqn:Ed; try discriminate.
  intros Hput.
  assert (∀ q, InstallerSpec.kept (Installer.remove n (p ++ [d])) n' q = true)
    as Hk.
  { apply (put_kept _ _ _ _ Hput). now rewrite lookup_remove_none. }
  split.
  - apply (kept_is_dir _ _ _ (Hk p)), (kept_is_dir _ _ _ (Hrm p ltac:(lia))).
    exact Hp.
  - unfold rd in Hput. destruct (Installer.is_dir n temp) eqn:Et.
    + apply (kept_is_dir _ _ _ (Hk temp)),
        (kept_is_dir _ _ _ (Hrm temp ltac:(lia))). exact Et.
    + unfold Installer.is_dir. now rewrite (lookup_put_self _ _ _ _ Hput).
Qed.

(** Removing the emptied target leaves the sibling alone. *)
Lemma rmdir_target (n n' : Installer.node) (p temp : Installer.path) :
  InstallerSpec.is_prefix p temp = false →
  Installer.is_dir n temp = true →
  Installer.rmdir n p = Some n' →
  Installer.lookup n' p = None ∧ Installer.is_dir n' temp = true.
Proof.
  intros Hpre Ht. unfold Installer.rmdir.
  destruct p as [|c p]; [discriminate|].
  destruct (Installer.lookup n (c :: p)) as [[?|[|? ?]]|]; try discriminate.
  intros H.
  assert (n' = Installer.remove n (c :: p)) as -> by congruence. split.
  - now apply lookup_remove_self.
  - exact (kept_is_dir _ _ _ (remove_kept _ _ _ Hpre) Ht).
Qed.

(** Moving the sibling to the free target path makes the target a
    directory. *)
Lemma move_back_is_dir (n n' : Installer.node) (p temp : Installer.path) :
  Installer.lookup n p = None →
  Installer.is_dir n temp = true →
  Installer.move n temp p = Some n' →
  Installer.is_dir n' p = true.
Proof.
  intros Hp Ht. unfold Installer.move, Installer.is_dir in *.
  destruct (Installer.lookup n temp) as [[c|es]|]; try discriminate.
  cbn [mbind option_bind]. cbv zeta. rewrite !Hp. intros Hput.
  now rewrite (lookup_put_self _ _ _ _ Hput).
Qed.

Lemma sibling_length (p : Installer.path) :
  p ≠ [] →
  length (removelast p ++ [ Installer.basename p +:+ "_temp" ]) = length p.
Proof.
  intros Hp. rewrite length_app. cbn [length].
  destruct (exists_last Hp) as (l & a & ->).
  rewrite removelast_last, length_app. reflexivity.
Qed.

(** The body of the second [try] on a fresh target, whose path does not
    hold a regular file: it does not when the body ends, however it
    ends. *)
Lemma extract_body_fresh_triple
    (read_zip : string → option (list Installer.member))
    (p zip_path temp_dir : Installer.path) :
  p ≠ [] →
  InstallerSpec.triple (λ n, InstallerSpec.is_file n p = false)
    (Installer.extract_body read_zip p false zip_path temp_dir)
    (λ _ n, InstallerSpec.is_file n p = false)
    (λ n, InstallerSpec.is_file n p = false).
Proof.
  intros Hp.
  set (E := λ n, InstallerSpec.is_file n p = false).
  set (D := λ n, Installer.is_dir n p = true).
  assert (∀ n, D n → E n) as HDE by (intros n; apply is_dir_not_file).
  unfold Installer.extract_body.
  apply (triple_bind _ _ (λ _, D)).
  { apply triple_fs_call; [auto|]. intros n n' _. apply mkdir_parents_is_dir. }
  intros _. unfold Installer.open_zip.
  apply (triple_bind _ _ (λ _, D)).
  { apply (triple_bind _ _ (λ _, D)); [now apply triple_fs_read|].
    intros bytes. destruct (read_zip bytes);
      [apply triple_ret | now apply triple_raise]. }
  intros zip_contents.
  apply (triple_bind _ _ (λ _, D)); [apply triple_track|]. intros _.
  apply (triple_bind _ _ (λ _, D)); [apply triple_track|]. intros _.
  unfold Installer.fresh_extract, Installer.extractall.
  apply (triple_bind _ _ (λ _, D)).
  { apply triple_for_each. intros m. apply triple_fs_call; [auto|].
    intros n n' _. apply extract_member_is_dir. }
  intros _.
  apply (triple_bind _ _ (λ _, D)); [now apply triple_fs_read|].
  intros items.
  apply (triple_bind _ _ (λ _, D)); [apply triple_track|]. intros _.
  apply (triple_bind _ _ (λ _, D)); [apply triple_track|]. intros _.
  apply (triple_bind _ _ (λ x n, x = n ∧ D n)); [apply triple_get_fs|].
  intros n0.
  assert (InstallerSpec.triple (λ n, n0 = n ∧ D n)
            (@mret Installer.M Installer.M_ret unit tt) (λ _, E) E) as Hret.
  { intros w [_ Hw]. now apply HDE. }
  destruct items as [|d [|? ?]]; try exact Hret.
  destruct (Installer.is_dir n0 (p ++ [d])) eqn:Hd; [|exact Hret].
  set (temp := removelast p ++ [ Installer.basename p +:+ "_temp" ]).
  apply (triple_bind _ _
           (λ _ n, Installer.is_dir n p = true
                   ∧ Installer.is_dir n temp = true)).
  { apply triple_fs_call; [intros n [_ Hn]; now apply HDE|].
    intros n n' [<- _] Hm.
    apply (move_out_is_dir n0 n' p temp d); auto.
    now apply sibling_length. }
  intros _.
  apply (triple_bind _ _
           (λ _ n, Installer.lookup n p = None
                   ∧ Installer.is_dir n temp = true)).
  { apply triple_fs_call; [intros n [Hn _]; now apply HDE|].
    intros n n' [_ Ht] Hm.
    apply (rmdir_target n n' p temp); auto.
    now apply target_not_above_sibling. }
  intros _.
  apply (triple_bind _ _ (λ _, D)).
  { apply triple_fs_call; [intros n [Hn _]; now apply missing_not_file|].
    intros n n' [Hn Ht] Hm. exact (move_back_is_dir n n' p temp Hn Ht Hm). }
  intros _.
  apply (triple_bind _ _ (λ _, D)); [apply triple_track|]. intros _.
  apply (triple_weaken D D _ _ (λ _, D) E E); auto.
  apply triple_track.
Qed.

(** Removing a tree creates nothing and changes no kind. *)
Lemma remove_no_new (n : Installer.node) (z q : Installer.path)
    (x : Installer.node) :
  Installer.lookup (Installer.remove n z) q = Some x →
  ∃ y, Installer.lookup n q = Some y ∧ InstallerSpec.same_kind y x = true.
Proof.
  revert n q. induction z as [|c z IH]; intros n q H.
  { exists x. split; [exact H | apply same_kind_refl]. }
  destruct n as [content|es].
  { exists x. split; [exact H | apply same_kind_refl]. }
  destruct q as [|k q].
  { cbn [Installer.lookup] in H |- *. injection H as <-. eexists.
    split; [reflexivity|]. cbn [Installer.remove].
    destruct z; [reflexivity|]. now destruct (Installer.assoc c es). }
  cbn [Installer.remove] in H.
  destruct (String.eqb_spec k c) as [->|Hne].
  - destruct z as [|c' z'].
    + cbn [Installer.lookup] in H. now rewrite assoc_adel_eq in H.
    + destruct (Installer.assoc c es) as [m|] eqn:E.
      * cbn [Installer.lookup] in H |- *. rewrite assoc_aset_eq in H.
        rewrite E. now apply IH.
      * exists x. split; [exact H | apply same_kind_refl].
  - destruct z as [|c' z'].
    + cbn [Installer.lookup] in H |- *.
      rewrite assoc_adel_ne in H by exact Hne.
      exists x. split; [exact H | apply same_kind_refl].
    + destruct (Installer.assoc c es) as [m|] eqn:E.
      * cbn [Installer.lookup] in H |- *.
        rewrite assoc_aset_ne in H by exact Hne.
        exists x. split; [exact H | apply same_kind_refl].
      * exists x. split; [exact H | apply same_kind_refl].
Qed.

Lemma remove_is_dir (n : Installer.node) (z q : Installer.path) :
  Installer.is_dir n q = false →
  Installer.is_dir (Installer.remove n z) q = false.
Proof.
  unfold Installer.is_dir. intros H.
  destruct (Installer.lookup (Installer.remove n z) q) as [[c|es]|] eqn:E;
    try reflexivity.
  destruct (remove_no_new _ _ _ _ E) as (y & Hy & Hk).
  rewrite Hy in H. now destruct y.
Qed.

(** On a fresh target whose path exists the body fails at once, at
    [mkdir], and changes nothing. *)
Lemma extract_body_on_existing
    (read_zip : string → option (list Installer.member))
    (p zip_path temp_dir : Installer.path) (w : Installer.world) :
  Installer.exists_ (Installer.fs w) p = true →
  ∃ e w', Installer.extract_body read_zip p false zip_path temp_dir w
          = (inl e, w')
          ∧ Installer.fs w' = Installer.fs w.
Proof.
  intros Hex.
  cbv [Installer.extract_body Installer.fs_call mbind Installer.M_bind
       Installer.tick Installer.update_fs Installer.mkdir_parents].
  destruct (Installer.faults w) as [|[] r];
    cbn [Installer.fs]; rewrite ?Hex; eauto.
Qed.

(** The body of the second [try] on a fresh target never changes whether
    a regular file sits at the target path: a file that is there stays, and
    none appears. *)
Lemma extract_body_target
    (read_zip : string → option (list Installer.member))
    (p zip_path temp_dir : Installer.path) (w : Installer.world) :
  InstallerSpec.is_file
    (Installer.fs
       (snd (Installer.extract_body read_zip p false zip_path temp_dir w))) p
  = InstallerSpec.is_file (Installer.fs w) p.
Proof.
  destruct (Installer.exists_ (Installer.fs w) p) eqn:Ex.
  - destruct (extract_body_on_existing read_zip p zip_path temp_dir w Ex)
      as (e & w' & -> & Hfs).
    cbn [snd]. now rewrite Hfs.
  - assert (InstallerSpec.is_file (Installer.fs w) p = false) as Hf.
    { unfold InstallerSpec.is_file. now rewrite (lookup_free _ _ Ex). }
    assert (p ≠ []) as Hp by (intros ->; discriminate).
    pose proof (extract_body_fresh_triple read_zip p zip_path temp_dir Hp w Hf)
      as H.
    rewrite Hf.
    now destruct (Installer.extract_body read_zip p false zip_path temp_dir w)
      as [[e|[]] w'].
Qed.

(** The [except] clause on a fresh target: [rmtree] refuses a regular
    file, and otherwise leaves nothing at the target path. *)
Lemma on_extract_error_run (project_path : Installer.path) (e : exn)
    (w : Installer.world) :
  project_path ≠ [] →
  if InstallerSpec.is_file (Installer.fs w) project_path
  then ∃ w1, Installer.on_extract_error project_path false e w
             = (inl (OSError "[Errno 20] Not a directory"), w1)
             ∧ Installer.fs w1 = Installer.fs w
  else ∃ w1, Installer.on_extract_error project_path false e w = (inr tt, w1)
             ∧ Installer.absent (Installer.fs w1) project_path.
Proof.
  intros Hp.
  cbv [Installer.on_extract_error mbind Installer.M_bind Installer.track
       Installer.get_fs Installer.update_fs Installer.rmtree mret
       Installer.M_ret].
  cbn [Installer.fs Installer.tracker Installer.faults negb andb].
  unfold InstallerSpec.is_file, Installer.exists_, Installer.is_dir.
  destruct (Installer.lookup (Installer.fs w) project_path) as [[c|es]|] eqn:E;
    cbn [Installer.fs Installer.tracker Installer.faults]; rewrite ?E.
  - eexists. split; reflexivity.
  - eexists. split; [reflexivity|]. cbn [Installer.fs].
    now apply absent_remove_self.
  - eexists. split; [reflexivity|]. cbn [Installer.fs].
    apply absent_missing. unfold Installer.exists_. now rewrite E.
Qed.

(** The [finally] clause never raises; it removes the archive and nothing
    else. *)
Lemma cleanup_run (zip_path : Installer.path) (w : Installer.world) :
  ∃ w1, Installer.cleanup zip_path w = (inr tt, w1)
        ∧ Installer.fs w1
          = (if Installer.exists_ (Installer.fs w) zip_path
             then Installer.remove (Installer.fs w) zip_path
             else Installer.fs w)
        ∧ ∀ p, Installer.absent (Installer.fs w) p →
               Installer.absent (Installer.fs w1) p.
Proof.
  cbv [Installer.cleanup mbind Installer.M_bind Installer.track
       Installer.get_fs Installer.fs_total mret Installer.M_ret].
  cbn [Installer.fs Installer.tracker Installer.faults].
  destruct (Installer.exists_ (Installer.fs w) zip_path).
  - eexists. split; [reflexivity|]. cbn [Installer.fs].
    split; [reflexivity|]. intros p Hp. now apply absent_remove_other.
  - eexists. split; [reflexivity|]. cbn [Installer.fs]. auto.
Qed.

(** The second [try] statement on a fresh target: it raises exactly when
    its body does; [typer.Exit(1)] on a tree without the target, unless the
    target path held a regular file, which [rmtree] refuses: its exception
    is raised then, and only the archive is gone. *)
Lemma try_extract_run
    (read_zip : string → option (list Installer.member))
    (project_path zip_path temp_dir : Installer.path) (w : Installer.world) :
  project_path ≠ [] →
  let b := Installer.extract_body read_zip project_path false zip_path
             temp_dir w in
  let run := Installer.try_extract read_zip project_path false zip_path
               temp_dir w in
  match fst b with
  | inl _ =>
      if InstallerSpec.is_file (Installer.fs w) project_path
      then fst run = inl (OSError "[Errno 20] Not a directory")
           ∧ Installer.fs (snd run)
             = (if Installer.exists_ (Installer.fs w) zip_path
                then Installer.remove (Installer.fs w) zip_path
                else Installer.fs w)
      else fst run = inl (Exit 1)
           ∧ Installer.absent (Installer.fs (snd run)) project_path
  | inr _ => fst run = inr project_path
  end.
Proof.
  intros Hp b run.
  pose proof (extract_body_target read_zip project_path zip_path temp_dir w)
    as Hkind. fold b in Hkind.
  assert (InstallerSpec.is_file (Installer.fs w) project_path = true →
          Installer.fs (snd b) = Installer.fs w) as Hsame.
  { intros Hf.
    destruct (extract_body_on_existing read_zip project_path zip_path
                temp_dir w) as (e & w' & Hb & Hfs).
    { unfold InstallerSpec.is_file in Hf. unfold Installer.exists_.
      now destruct (Installer.lookup (Installer.fs w) project_path). }
    unfold b. now rewrite Hb. }
  unfold run. clear run.
  cbv [Installer.try_extract mbind Installer.M_bind Installer.try_
       Installer.track mret Installer.M_ret Installer.raise].
  fold b. destruct b as [[e0|[]] w2]; cbn [fst snd] in *.
  - pose proof (on_extract_error_run project_path e0 w2 Hp) as Hh.
    rewrite Hkind in Hh.
    destruct (InstallerSpec.is_file (Installer.fs w) project_path).
    + destruct Hh as (w3 & -> & Hfs3).
      destruct (cleanup_run zip_path w3) as (w4 & -> & Hfs4 & _).
      cbn [fst snd]. split; [reflexivity|].
      now rewrite Hfs4, Hfs3, Hsame.
    + destruct Hh as (w3 & -> & Habs).
      destruct (cleanup_run zip_path w3) as (w4 & -> & _ & Hkeep).
      cbn [fst snd]. split; [reflexivity | now apply Hkeep].
  - match goal with
    | |- context [Installer.cleanup zip_path ?W] =>
        destruct (cleanup_run zip_path W) as (w4 & -> & _)
    end.
    reflexivity.
Qed.

Lemma announce_extract_run (w : Installer.world) :
  ∃ w1, Installer.announce_extract w = (inr tt, w1)
        ∧ Installer.fs w1 = Installer.fs w
        ∧ Installer.faults w1 = Installer.faults w.
Proof. eexists. split; [reflexivity|]. split; reflexivity. Qed.

(** A successful fetch: the archive is written under the name of the
    asset, nothing else changes on disk, and the tracker has been told. *)
Lemma fetch_template_ok (cwd : Installer.path)
    (net : option Installer.fetched) (w w1 : Installer.world)
    (zip_path : Installer.path) (meta : Installer.fetched) :
  Installer.fetch_template cwd net w = (inr (zip_path, meta), w1) →
  net = Some meta
  ∧ zip_path = cwd ++ [ Installer.filename meta ]
  ∧ Installer.write_file (Installer.fs w) zip_path (Installer.body meta)
    = Some (Installer.fs w1)
  ∧ Installer.tracker w1
    = option_map
        (λ t, Tracker.complete
                (Tracker.add
                   (Tracker.complete
                      (Tracker.start t "fetch" "contacting GitHub API")
                      "fetch"
                      ("release " +:+ Installer.release meta +:+ " ("
                       +:+ Installer.commas (Installer.size meta)
                       +:+ " bytes)"))
                   "download" "Download template")
                "download" (Installer.filename meta))
        (Installer.tracker w).
Proof.
  destruct net as [d|];
    cbv [Installer.fetch_template Installer.download_template_from_github
         mbind Installer.M_bind Installer.try_ Installer.track mret
         Installer.M_ret Installer.raise Installer.update_fs];
    cbn [Installer.fs Installer.tracker Installer.faults];
    [|discriminate].
  destruct (Installer.write_file (Installer.fs w)
              (cwd ++ [ Installer.filename d ]) (Installer.body d))
    as [n|] eqn:E; [|discriminate].
  intros [= <- <- <-]. cbn [Installer.fs Installer.tracker].
  rewrite E. destruct (Installer.tracker w); auto.
Qed.

(** The archive a fetch has written is there. *)
Lemma fetched_archive_exists (cwd : Installer.path)
    (net : option Installer.fetched) (w w1 : Installer.world)
    (zip_path : Installer.path) (meta : Installer.fetched) :
  Installer.fetch_template cwd net w = (inr (zip_path, meta), w1) →
  Installer.exists_ (Installer.fs w1) zip_path = true.
Proof.
  intros H. destruct (fetch_template_ok _ _ _ _ _ _ H) as (_ & _ & Hw & _).
  unfold Installer.write_file in Hw.
  destruct (Installer.is_dir (Installer.fs w) zip_path); [discriminate|].
  unfold Installer.exists_. now rewrite (lookup_put_self _ _ _ _ Hw).
Qed.

(** C3: on a fresh (non-current-directory) target, once the archive has
    been fetched, a failure of the extraction, at whatever file-system call
    of the [try] block it happens, leaves no directory at the target path.
    When the path was free or held a directory as the extraction began, the
    function raises [typer.Exit(1)] with nothing left at the target path or
    below it.  When it held a regular file, no directory is ever created
    ([mkdir] fails); [shutil.rmtree] then refuses the file, its
    [NotADirectoryError] is what the function raises, and the tree is the
    one the extraction began with, the downloaded archive apart.  The
    function raises only when the extraction failed.  [shutil.rmtree] of a
    directory and [unlink] of the archive are taken to succeed. *)
Theorem failed_fresh_extraction_removes_target
    (read_zip : string → option (list Installer.member))
    (project_path cwd temp_dir zip_path : Installer.path)
    (net : option Installer.fetched) (meta : Installer.fetched)
    (w w1 : Installer.world) :
  project_path ≠ [] →
  Installer.fetch_template cwd net w = (inr (zip_path, meta), w1) →
  let w2 := snd (Installer.announce_extract w1) in
  let extraction :=
    Installer.extract_body read_zip project_path false zip_path temp_dir w2 in
  let run :=
    Installer.download_and_extract_template read_zip project_path false cwd
      temp_dir net w in
  (∀ e0, fst extraction = inl e0 →
         Installer.is_dir (Installer.fs (snd run)) project_path = false
         ∧ if InstallerSpec.is_file (Installer.fs w1) project_path
           then fst run = inl (OSError "[Errno 20] Not a directory")
                ∧ Installer.fs (snd run)
                  = Installer.remove (Installer.fs w1) zip_path
           else fst run = inl (Exit 1)
                ∧ Installer.absent (Installer.fs (snd run)) project_path
                ∧ Installer.exists_ (Installer.fs (snd run)) project_path
                  = false)
  ∧ (∀ e, fst run = inl e → ∃ e0, fst extraction = inl e0).
Proof.
  intros Hp Hfetch w2 extraction run.
  assert (run = Installer.try_extract read_zip project_path false zip_path
                  temp_dir w2) as Hrun.
  { unfold run, Installer.download_and_extract_template.
    rewrite (bind_run _ _ w), Hfetch. reflexivity. }
  pose proof (try_extract_run read_zip project_path zip_path temp_dir w2 Hp)
    as Htry.
  cbv zeta in Htry. fold extraction in Htry. rewrite <- Hrun in Htry.
  change (Installer.fs w2) with (Installer.fs w1) in Htry.
  rewrite (fetched_archive_exists _ _ _ _ _ _ Hfetch) in Htry.
  destruct (fst extraction) as [e0|[]] eqn:Eb.
  - split; [|intros e _; now exists e0]. intros _ _.
    destruct (InstallerSpec.is_file (Installer.fs w1) project_path) eqn:Ef.
    + destruct Htry as [Hres Hfs]. split; [|now split].
      rewrite Hfs. apply remove_is_dir.
      unfold InstallerSpec.is_file in Ef. unfold Installer.is_dir.
      now destruct (Installer.lookup (Installer.fs w1) project_path) as [[]|].
    + destruct Htry as [Hres Habs].
      assert (Installer.lookup (Installer.fs (snd run)) project_path = None)
        as H0.
      { pose proof (Habs []) as H0. now rewrite app_nil_r in H0. }
      unfold Installer.is_dir, Installer.exists_. rewrite H0. auto.
  - split; [intros; discriminate|]. intros e He. rewrite Htry in He.
    discriminate.
Qed.

Lemma failed_fresh_extraction_removes_target_witness :
  let run := Installer.sample_run false [ false; false; false; false; true ] in
  fst run = inl (Exit 1)
  ∧ Installer.exists_ (Installer.fs (snd run)) [ "home"; "u"; "proj" ] = false.
Proof.
  intros run.
  set (w := Installer.World Installer.sample_fs
              (Some (Tracker.init "Initialize Specify Project"))
              [ false; false; false; false; true ]).
  destruct (Installer.fetch_template [ "home"; "u" ]
              (Some Installer.sample_fetched) w) as [r w1] eqn:Hfetch.
  pose proof Hfetch as Hval. vm_compute in Hval. injection Hval as <- <-.
  destruct (failed_fresh_extraction_removes_target Installer.sample_read_zip
              [ "home"; "u"; "proj" ] [ "home"; "u" ] [ "tmp"; "tmpx1" ] _ _ _
              _ _ ltac:(discriminate) Hfetch) as [Hfail _].
  edestruct Hfail as (_ & Hexit & _ & Hgone); [vm_compute; reflexivity|].
  split; [exact Hexit | exact Hgone].
Defined.

(** A target path that holds a regular file: nothing is created,
    [rmtree] raises, the file stays and the archive goes. *)
Example fresh_install_onto_a_file :
  let run :=
    Installer.download_and_extract_template Installer.sample_read_zip
      [ "home"; "u"; "README.md" ] false [ "home"; "u" ] [ "tmp"; "tmpx1" ]
      (Some Installer.sample_fetched)
      (Installer.World Installer.sample_fs None []) in
  fst run = inl (OSError "[Errno 20] Not a directory")
  ∧ Installer.fs (snd run) = Installer.sample_fs.
Proof. split; vm_compute; reflexivity. Qed.

(** Without failure the single top-level directory of the archive is
    hoisted, and the archive is removed. *)
Example fresh_install_flattens :
  fst (Installer.sample_run false []) = inr [ "home"; "u"; "proj" ]
  ∧ Installer.fs (snd (Installer.sample_run false []))
    = Installer.Dir
        [ ("home",
           Installer.Dir
             [ ("u",
                Installer.Dir
                  [ ("README.md", Installer.File "mine");
                    ("proj",
                     Installer.Dir
                       [ ("a.txt", Installer.File "A");
                         ("sub", Installer.Dir
                                   [ ("b.txt", Installer.File "B") ]) ]) ]) ]);
          ("tmp", Installer.Dir []) ].
Proof. split; vm_compute; reflexivity. Qed.

(** A failure in the middle of [extractall] on a fresh target: the tree is
    as it was before the installation. *)
Example fresh_install_rolls_back :
  Installer.fs (snd (Installer.sample_run false
                       [ false; false; false; false; true ]))
  = Installer.sample_fs.
Proof. vm_compute. reflexivity. Qed.

(** A failure of the last [shutil.move] of the hoisting: the target is
    gone, the extracted files stay in the sibling [proj_temp]. *)
Example fresh_install_fails_while_hoisting :
  let w := snd (Installer.sample_run false
                  [ false; false; false; false; false; false; false; false;
                    true ]) in
  Installer.exists_ (Installer.fs w) [ "home"; "u"; "proj" ] = false
  ∧ Installer.exists_ (Installer.fs w) [ "home"; "u"; "proj_temp"; "a.txt" ]
    = true.
Proof. split; vm_compute; reflexivity. Qed.

(** A failure while merging into the current directory: what was copied
    before the failure stays. *)
Example merge_install_keeps_partial_copy :
  let run := Installer.sample_run true
               [ false; false; false; false; false; false; false; false;
                 false; true ] in
  fst run = inl (Exit 1)
  ∧ Installer.exists_ (Installer.fs (snd run)) [ "home"; "u"; "a.txt" ] = true
  ∧ Installer.exists_ (Installer.fs (snd run)) [ "home"; "u"; "sub" ] = false.
Proof. repeat split; vm_compute; reflexivity. Qed.

(** * Further properties *)

(** ** Strings: [strip] *)

Lemma rstrip_idem (s : string) : Py.rstrip (Py.rstrip s) = Py.rstrip s.
Proof.
  induction s as [|c r IH]; [reflexivity|]. cbn [Py.rstrip].
  destruct (Py.all_space (String c r)) eqn:E; [reflexivity|].
  cbn [Py.rstrip]. rewrite IH.
  destruct (Py.all_space (String c (Py.rstrip r))) eqn:E'; [|reflexivity].
  destruct (rstrip_split r) as (w & Hr & Hw).
  pose proof (all_space_app _ _ E' Hw) as H. rewrite ?append_cons, ?append_nil in H.
  rewrite <- Hr in H. congruence.
Qed.

Lemma lstrip_head (s : string) : Py.skip_space (Py.lstrip s) = None.
Proof.
  induction s as [s E | s r E IH] using space_ind; rewrite lstrip_eq, E;
    assumption.
Qed.

Lemma lstrip_fixed (s : string) : Py.skip_space s = None → Py.lstrip s = s.
Proof. intros E. now rewrite lstrip_eq, E. Qed.

Lemma rstrip_head (s : string) :
  Py.skip_space s = None → Py.skip_space (Py.rstrip s) = None.
Proof.
  intros Hs. destruct (Py.skip_space (Py.rstrip s)) as [r|] eqn:E;
    [|reflexivity].
  destruct (rstrip_split s) as (w & Hr & _).
  apply (skip_space_app _ _ w) in E. rewrite <- Hr in E. congruence.
Qed.

(** [lstrip] cuts a run of whitespace off the front. *)
Lemma lstrip_split (s : string) :
  ∃ w, s = w +:+ Py.lstrip s ∧ Py.all_space w = true.
Proof.
  induction s as [s E | s r E (w & Hr & Hw)] using space_ind;
    rewrite lstrip_eq, E.
  - now exists "".
  - destruct (skip_space_split _ _ E) as (w0 & -> & Hne & Hskip).
    exists (w0 +:+ w). rewrite append_assoc, <- Hr. split; [reflexivity|].
    rewrite all_space_eq, Hskip.
    destruct (w0 +:+ w) eqn:E0; [reflexivity | exact Hw].
Qed.

(** What [strip] removes is whitespace, at both ends. *)
Lemma strip_split (s : string) :
  ∃ l r, s = l +:+ Py.strip s +:+ r
         ∧ Py.all_space l = true ∧ Py.all_space r = true.
Proof.
  destruct (lstrip_split s) as (l & Hl & Hwl).
  destruct (rstrip_split (Py.lstrip s)) as (r & Hr & Hwr).
  exists l, r. unfold Py.strip. now rewrite <- Hr, <- Hl.
Qed.

(** Stripping twice is stripping once. *)
Lemma strip_idem (s : string) : Py.strip (Py.strip s) = Py.strip s.
Proof.
  unfold Py.strip.
  rewrite (lstrip_fixed (Py.rstrip (Py.lstrip s))).
  - apply rstrip_idem.
  - apply rstrip_head, lstrip_head.
Qed.

(** ** GitHub token: sanitisation and precedence *)

(** X1: a token returned by [_github_token] is never empty and carries no
    leading or trailing whitespace, and [_github_auth_headers] then holds
    exactly the header [Authorization: Bearer <token>]; without a token the
    headers are empty. *)
Theorem github_token_sanitized (env : Github.environ)
    (cli : option string) :
  match Github._github_token env cli with
  | Some t =>
      t ≠ "" ∧ Py.strip t = t
      ∧ Github._github_auth_headers env cli
        = {[ "Authorization" := "Bearer " +:+ t ]}
  | None => Github._github_auth_headers env cli = ∅
  end.
Proof.
  unfold Github._github_auth_headers.
  destruct (Github._github_token env cli) as [t|] eqn:E; [|reflexivity].
  unfold Github._github_token in E.
  destruct (Py.truthy (Py.strip _)) eqn:Ht in E; [|discriminate].
  injection E as <-. repeat split.
  - intros H0. rewrite H0 in Ht. discriminate.
  - apply strip_idem.
Qed.

(** X2: without an explicit token (absent or empty), a non-empty [GH_TOKEN]
    decides alone, whatever [GITHUB_TOKEN] holds: the result is what
    [str.strip] leaves of it, that is the value between two runs of
    whitespace characters (ASCII or not), or [None] when it is made of
    whitespace only. *)
Theorem github_token_gh_shadows (env : Github.environ) (cli : option string)
    (gh : string) :
  cli = None ∨ cli = Some "" →
  env !! "GH_TOKEN" = Some gh → gh ≠ "" →
  Github._github_token env cli
  = (if Py.truthy (Py.strip gh) then Some (Py.strip gh) else None)
  ∧ (Py.all_space gh = true → Github._github_token env cli = None)
  ∧ (∀ t, Github._github_token env cli = Some t →
          ∃ l r, gh = l +:+ t +:+ r
                 ∧ Py.all_space l = true ∧ Py.all_space r = true).
Proof.
  intros Hcli Hgh Hne.
  assert (Github._github_token env cli
          = if Py.truthy (Py.strip gh) then Some (Py.strip gh) else None)
    as Heq.
  { unfold Github._github_token, Github.getenv. rewrite Hgh.
    destruct gh as [|c r]; [congruence|].
    destruct Hcli as [-> | ->]; reflexivity. }
  split; [exact Heq|]. split.
  - intros Hsp. rewrite Heq. now rewrite strip_all_space.
  - intros t. rewrite Heq.
    destruct (Py.truthy (Py.strip gh)); [|discriminate].
    intros [= <-]. apply strip_split.
Qed.

Lemma github_token_gh_shadows_witness :
  (* U+00A0 and a space *)
  let blank : string :=
    String "194" (String "160" (String " " EmptyString))%char in
  let env : Github.environ :=
    <["GH_TOKEN" := blank]> (<["GITHUB_TOKEN" := "ghp_real"]> ∅) in
  Github._github_token env None = None
  ∧ Github._github_token (delete "GH_TOKEN" env) None = Some "ghp_real".
Proof.
  intros blank env. split; [|reflexivity].
  destruct (github_token_gh_shadows env None blank) as (_ & H & _);
    [now left | reflexivity | discriminate |].
  apply H. reflexivity.
Defined.

(** ** StepTracker: the ledger *)

Lemma mem_in (k : string) (l : list string) :
  Py.mem k l = true ↔ In k l.
Proof.
  unfold Py.mem. rewrite existsb_exists. split.
  - intros (x & Hin & Heq). apply String.eqb_eq in Heq. now subst.
  - intros Hin. exists k. split; [assumption | apply String.eqb_refl].
Qed.

Lemma update_first_keys (k : string) (s' : Tracker.status) (d : string)
    (l l' : list Tracker.step) :
  Tracker.update_first k s' d l = Some l' →
  map Tracker.key l' = map Tracker.key l.
Proof.
  revert l'. induction l as [|x l IH]; intros l'; cbn [Tracker.update_first];
    [discriminate|].
  destruct (String.eqb (Tracker.key x) k).
  - intros [= <-]. reflexivity.
  - destruct (Tracker.update_first k s' d l) as [r|]; [|discriminate].
    cbn [option_map]. intros [= <-]. cbn [map]. now rewrite (IH r).
Qed.

Lemma update_first_none_mem (k : string) (s' : Tracker.status) (d : string)
    (l : list Tracker.step) :
  Tracker.update_first k s' d l = None →
  Py.mem k (map Tracker.key l) = false.
Proof.
  destruct (Py.mem k (map Tracker.key l)) eqn:E; [|reflexivity].
  destruct (update_first_present k s' d l E) as (? & ? & ? & _ & _ & _ & ->).
  discriminate.
Qed.

(** The keys after an update: the same, or one more at the end. *)
Lemma update_keys (tr : Tracker.t) (k : string) (s' : Tracker.status)
    (d : string) :
  map Tracker.key (Tracker.steps (Tracker._update tr k s' d))
  = map Tracker.key (Tracker.steps tr)
    ++ (if Py.mem k (map Tracker.key (Tracker.steps tr)) then [] else [k]).
Proof.
  unfold Tracker._update.
  destruct (Tracker.update_first k s' d (Tracker.steps tr)) as [l|] eqn:E;
    rewrite maybe_refresh_steps; cbn [Tracker.with_steps Tracker.steps].
  - rewrite (update_first_keys _ _ _ _ _ E).
    destruct (Py.mem k _) eqn:Hm.
    + now rewrite app_nil_r.
    + now rewrite (update_first_absent k s' d _ Hm) in E.
  - rewrite (update_first_none_mem _ _ _ _ E), map_app. reflexivity.
Qed.

Lemma add_keys (tr : Tracker.t) (k lbl : string) :
  map Tracker.key (Tracker.steps (Tracker.add tr k lbl))
  = map Tracker.key (Tracker.steps tr)
    ++ (if Py.mem k (map Tracker.key (Tracker.steps tr)) then [] else [k]).
Proof.
  unfold Tracker.add. destruct (Py.mem k _) eqn:Hm.
  - now rewrite app_nil_r.
  - rewrite maybe_refresh_steps. cbn [Tracker.with_steps Tracker.steps].
    now rewrite map_app.
Qed.

Lemma nodup_extend (k : string) (l : list string) :
  List.NoDup l →
  List.NoDup (l ++ (if Py.mem k l then [] else [k])).
Proof.
  intros Hl. destruct (Py.mem k l) eqn:Hm; [now rewrite app_nil_r|].
  apply List.NoDup_app; [assumption | constructor; [intros [] | constructor] |].
  intros x Hx [<- | []].
  apply mem_in in Hx. congruence.
Qed.

(** X3: the keys of a tracker stay unique, and no step is ever dropped or
    moved: [add] and every update ([start], [complete], [error], [skip])
    leave the sequence of keys as it is or append the one key they were
    given. *)
Theorem tracker_keys_stay_unique (tr : Tracker.t) (k lbl d : string)
    (s' : Tracker.status) :
  List.NoDup (map Tracker.key (Tracker.steps tr)) →
  let keys := map Tracker.key (Tracker.steps tr) in
  let grown := keys ++ (if Py.mem k keys then [] else [k]) in
  map Tracker.key (Tracker.steps (Tracker.add tr k lbl)) = grown
  ∧ map Tracker.key (Tracker.steps (Tracker._update tr k s' d)) = grown
  ∧ List.NoDup grown.
Proof.
  intros Hnd keys grown. split; [apply add_keys|].
  split; [apply update_keys | now apply nodup_extend].
Qed.

Lemma tracker_keys_stay_unique_witness :
  let tr := Tracker.add (Tracker.add (Tracker.init "Check") "git" "Git")
              "claude" "Claude" in
  map Tracker.key (Tracker.steps (Tracker.add tr "git" "Again"))
  = [ "git"; "claude" ]
  ∧ map Tracker.key (Tracker.steps (Tracker._update tr "codex" Tracker.Error
                                      "not found"))
    = [ "git"; "claude"; "codex" ].
Proof.
  intros tr.
  destruct (tracker_keys_stay_unique tr "git" "Again" "" Tracker.Done)
    as (H1 & _).
  { repeat constructor; simpl; intuition discriminate. }
  destruct (tracker_keys_stay_unique tr "codex" "" "not found" Tracker.Error)
    as (_ & H2 & _).
  { repeat constructor; simpl; intuition discriminate. }
  split; [exact H1 | exact H2].
Defined.

(** X4: adding a key twice is adding it once: the second [add] changes
    nothing, so the first label stays and no refresh is triggered. *)
Theorem tracker_add_twice (tr : Tracker.t) (k lbl lbl' : string) :
  Tracker.add (Tracker.add tr k lbl) k lbl' = Tracker.add tr k lbl
  ∧ ∃ x, Tracker.find (Tracker.add tr k lbl) k = Some x
         ∧ (Py.mem k (map Tracker.key (Tracker.steps tr)) = false →
            x = Tracker.Step k lbl Tracker.Pending "").
Proof.
  split.
  - unfold Tracker.add at 1. now rewrite add_present.
  - destruct (update_first_present k Tracker.Done "" _ (add_present tr k lbl))
      as (pre & x & post & Hs & Hpre & Hx & _).
    exists x. split; [now apply (find_first k pre post)|].
    intros Hm. unfold Tracker.add in Hs. rewrite Hm in Hs.
    rewrite maybe_refresh_steps in Hs. cbn [Tracker.with_steps Tracker.steps]
      in Hs.
    assert (Forall (λ y, Tracker.key y ≠ k) (Tracker.steps tr)) as Hall.
    { apply List.Forall_forall. intros y Hy Hk.
      assert (Py.mem k (map Tracker.key (Tracker.steps tr)) = true) as Ht.
      { apply mem_in. rewrite <- Hk. now apply in_map. }
      congruence. }
    symmetry in Hs.
    destruct (first_key_unique k _ _ _ _ _ _ Hs Hpre Hx Hall eq_refl)
      as (_ & -> & _).
    reflexivity.
Qed.

(** X5: an update always takes effect, for a known key as for an unknown
    one: afterwards the step found under the key has the requested status,
    and the requested detail unless that is empty. *)
Theorem tracker_update_takes_effect (tr : Tracker.t) (k d : string)
    (s' : Tracker.status) :
  ∃ x, Tracker.find (Tracker._update tr k s' d) k = Some x
       ∧ Tracker.key x = k
       ∧ Tracker.st x = s'
       ∧ (d ≠ "" → Tracker.detail x = d)
       ∧ (Py.mem k (map Tracker.key (Tracker.steps tr)) = false →
          x = Tracker.Step k k s' d
          ∧ Tracker.steps (Tracker._update tr k s' d)
            = Tracker.steps tr ++ [x]).
Proof.
  destruct (Py.mem k (map Tracker.key (Tracker.steps tr))) eqn:Hm.
  - destruct (update_first_present k s' d _ Hm)
      as (pre & x & post & Hs & Hpre & Hx & Hup).
    assert (Tracker.steps (Tracker._update tr k s' d)
            = pre ++ Tracker.Step k (Tracker.label x) s'
                       (if Py.truthy d then d else Tracker.detail x) :: post)
      as Hs'.
    { unfold Tracker._update. rewrite Hup. now rewrite maybe_refresh_steps. }
    eexists. split; [exact (find_first k pre post _ _ Hs' Hpre eq_refl)|].
    cbn [Tracker.key Tracker.st Tracker.detail]. repeat split.
    + intros Hd. destruct d; [congruence | reflexivity].
    + discriminate.
    + discriminate.
  - exists (Tracker.Step k k s' d).
    assert (Tracker.steps (Tracker._update tr k s' d)
            = Tracker.steps tr ++ [Tracker.Step k k s' d]) as Hs.
    { unfold Tracker._update. rewrite (update_first_absent _ _ _ _ Hm).
      now rewrite maybe_refresh_steps. }
    split.
    { apply (find_first k (Tracker.steps tr) []); [exact Hs | | reflexivity].
      apply List.Forall_forall. intros y Hy Hk.
      assert (Py.mem k (map Tracker.key (Tracker.steps tr)) = true) as Ht.
      { apply mem_in. rewrite <- Hk. now apply in_map. }
      congruence. }
    cbn [Tracker.key Tracker.st Tracker.detail]. repeat split; auto.
Qed.

(** X6: the rendering shows one line per step, in order, and a line depends
    on the detail only through its stripped form: surrounding whitespace
    is dropped and a blank detail is shown like no detail. *)
Theorem render_normalizes_detail (tr : Tracker.t) (k k' lbl d : string)
    (s : Tracker.status) :
  length (snd (TrackerView.render tr)) = length (Tracker.steps tr)
  ∧ TrackerView.render_line (Tracker.Step k lbl s d)
    = TrackerView.render_line (Tracker.Step k' lbl s (Py.strip d))
  ∧ (Py.all_space d = true →
     TrackerView.render_line (Tracker.Step k lbl s d)
     = TrackerView.render_line (Tracker.Step k lbl s "")).
Proof.
  split; [unfold TrackerView.render; cbn [snd]; now rewrite length_map|].
  assert (∀ k1 k2 d1 d2,
            (if Py.truthy d1 then Py.strip d1 else "")
            = (if Py.truthy d2 then Py.strip d2 else "") →
            TrackerView.render_line (Tracker.Step k1 lbl s d1)
            = TrackerView.render_line (Tracker.Step k2 lbl s d2)) as Hdep.
  { intros k1 k2 d1 d2 Heq. unfold TrackerView.render_line.
    cbn [Tracker.label Tracker.detail Tracker.st]. now rewrite Heq. }
  split.
  - apply Hdep. destruct d as [|c r]; [reflexivity|].
    cbn [Py.truthy]. destruct (Py.strip (String c r)) eqn:E; [reflexivity|].
    cbn [Py.truthy]. rewrite <- E. now rewrite strip_idem.
  - intros Hsp. apply Hdep. destruct d; [reflexivity|].
    cbn [Py.truthy]. now rewrite strip_all_space.
Qed.

(** ** Classifier: what the scan gathers *)

Lemma firstn_snoc {A} (n : nat) (l : list A) (x : A) :
  firstn n (l ++ [x])
  = if (length l <? n)%nat then firstn n l ++ [x] else firstn n l.
Proof.
  rewrite List.firstn_app.
  destruct (Nat.ltb_spec (length l) n) as [Hlt|Hge].
  - f_equal. destruct (n - length l) as [|m] eqn:E; [lia|].
    cbn [firstn]. now destruct m.
  - replace (n - length l) with 0 by lia. cbn [firstn]. apply app_nil_r.
Qed.

Lemma gathered_step (seen : list (string * string)) (a : scan_acc)
    (root : list string) (name : string) :
  ScanSpec.gathered seen a →
  ScanSpec.gathered (seen ++ [(name, Py.join "/" (root ++ [name]))])
    (scan_file root name a).
Proof.
  intros (Hc & Hs & Hh). unfold ScanSpec.gathered, scan_file.
  cbn [acc_file_count acc_sample_paths acc_config_hits].
  repeat split.
  - rewrite length_app, Hc. cbn [length]. lia.
  - rewrite firstn_snoc, Hs, length_map, List.length_firstn.
    destruct (Nat.ltb_spec (length seen) 6) as [Hlt|Hge].
    + replace (Nat.min 6 (length seen) <? 6)%nat with true
        by (symmetry; apply Nat.ltb_lt; lia).
      now rewrite map_app.
    + replace (Nat.min 6 (length seen) <? 6)%nat with false
        by (symmetry; apply Nat.ltb_ge; lia).
      reflexivity.
  - rewrite List.filter_app. cbn [List.filter]. unfold ScanSpec.is_marker at 2.
    cbn [fst]. rewrite Hh, length_map, List.length_firstn.
    destruct (Py.mem name CONFIG_FILE_MARKERS); cbn [andb].
    + rewrite firstn_snoc.
      set (F := List.filter ScanSpec.is_marker seen).
      destruct (Nat.ltb_spec (length F) 12) as [Hlt|Hge].
      * replace (Nat.min 12 (length F) <? 12)%nat with true
          by (symmetry; apply Nat.ltb_lt; lia).
        now rewrite map_app.
      * replace (Nat.min 12 (length F) <? 12)%nat with false
          by (symmetry; apply Nat.ltb_ge; lia).
        reflexivity.
    + now rewrite app_nil_r.
Qed.

Lemma firstn_exact {A} (l r : list A) (n : nat) :
  length l = n → firstn n (l ++ r) = l.
Proof.
  intros <-. rewrite List.firstn_app, Nat.sub_diag, List.firstn_all.
  cbn [firstn]. apply app_nil_r.
Qed.

Lemma scan_files_gathered (root files : list string)
    (seen : list (string * string)) (a : scan_acc) :
  ScanSpec.gathered seen a → length seen < MAX_CLASSIFICATION_SCAN →
  ScanSpec.gathered
    (firstn MAX_CLASSIFICATION_SCAN (seen ++ ScanSpec.item_files (root, files)))
    (scan_files root files a).
Proof.
  revert seen a. induction files as [|name rest IH]; intros seen a Hg Hlt.
  - cbn [scan_files ScanSpec.item_files snd map]. rewrite app_nil_r.
    rewrite List.firstn_all2 by lia. assumption.
  - cbn [scan_files]. pose proof (gathered_step seen a root name Hg) as Hg'.
    unfold ScanSpec.item_files. cbn [snd fst map].
    change (seen ++ (name, Py.join "/" (root ++ [name]))
                 :: map (λ n, (n, Py.join "/" (root ++ [n]))) rest)
      with (seen ++ [(name, Py.join "/" (root ++ [name]))]
                 ++ ScanSpec.item_files (root, rest)).
    rewrite app_assoc.
    destruct (Nat.leb_spec MAX_CLASSIFICATION_SCAN
                (acc_file_count (scan_file root name a))) as [Hge|Hlt'].
    + rewrite firstn_exact; [assumption|].
      destruct Hg' as (Hc & _). rewrite <- Hc.
      cbn [scan_file acc_file_count] in *. destruct Hg as (Hc0 & _). lia.
    + apply IH; [assumption|]. destruct Hg' as (Hc & _). now rewrite <- Hc.
Qed.

Lemma scan_walk_gathered (items : list (list string * list string))
    (seen : list (string * string)) (a : scan_acc) :
  ScanSpec.gathered seen a → length seen < MAX_CLASSIFICATION_SCAN →
  ScanSpec.gathered
    (firstn MAX_CLASSIFICATION_SCAN
       (seen ++ flat_map ScanSpec.item_files items))
    (scan_walk items a).
Proof.
  revert seen a. induction items as [|[root files] rest IH];
    intros seen a Hg Hlt.
  - cbn [scan_walk flat_map]. rewrite app_nil_r.
    rewrite List.firstn_all2 by lia. assumption.
  - cbn [scan_walk flat_map]. rewrite app_assoc.
    pose proof (scan_files_gathered root files seen a Hg Hlt) as Hg'.
    set (seen' := seen ++ ScanSpec.item_files (root, files)) in *.
    pose proof (Hg') as (Hc & _). rewrite List.length_firstn in Hc.
    destruct (Nat.leb_spec MAX_CLASSIFICATION_SCAN
                (acc_file_count (scan_files root files a))) as [Hge|Hlt'].
    + replace (firstn MAX_CLASSIFICATION_SCAN
                 (seen' ++ flat_map ScanSpec.item_files rest))
        with (firstn MAX_CLASSIFICATION_SCAN seen'); [assumption|].
      rewrite List.firstn_app.
      replace (MAX_CLASSIFICATION_SCAN - length seen') with 0 by lia.
      cbn [firstn]. now rewrite app_nil_r.
    + rewrite List.firstn_all2 in Hg' by lia.
      apply IH; [assumption | lia].
Qed.

(** X7: the scan is a pipeline over the walk: when its loops end, the
    counter is the number of files among the first 800 the walk yields, the
    sample paths are the paths of the first six of them, and the config
    hits the paths of the first twelve of them whose name is a config
    marker; files beyond the 800th are never looked at.  The dict returned
    holds these three values; none is returned only when one of the two
    [exists()] that follow the loops raises. *)
Theorem scan_is_capped_pipeline (tr : tree) (tg : target) :
  let a := scan_loops tr in
  let seen := firstn 800 (ScanSpec.walk_files tr) in
  (acc_file_count a = length seen
   ∧ acc_sample_paths a = map snd (firstn 6 seen)
   ∧ acc_config_hits a
     = map snd (firstn 12 (List.filter ScanSpec.is_marker seen))
   ∧ acc_file_count a <= 800
   ∧ length (acc_sample_paths a) <= 6
   ∧ length (acc_config_hits a) <= 12)
  ∧ match _scan_project_state tr tg with
    | inr s =>
        scan_file_count s = length seen
        ∧ scan_sample_paths s = map snd (firstn 6 seen)
        ∧ scan_config_hits s
          = map snd (firstn 12 (List.filter ScanSpec.is_marker seen))
        ∧ scan_file_count s <= 800
        ∧ length (scan_sample_paths s) <= 6
        ∧ length (scan_config_hits s) <= 12
    | inl e => specify_probe tg = inl e ∨ specs_probe tg = inl e
    end.
Proof.
  intros a seen.
  assert (ScanSpec.gathered seen a) as (Hc & Hs & Hh).
  { apply (scan_walk_gathered (os_walk [] tr) [] (Acc 0 [] [])).
    - repeat split.
    - cbn [length]. unfold MAX_CLASSIFICATION_SCAN. lia. }
  assert (acc_file_count a = length seen
          ∧ acc_sample_paths a = map snd (firstn 6 seen)
          ∧ acc_config_hits a
            = map snd (firstn 12 (List.filter ScanSpec.is_marker seen))
          ∧ acc_file_count a <= 800
          ∧ length (acc_sample_paths a) <= 6
          ∧ length (acc_config_hits a) <= 12) as Hall.
  { rewrite Hc, Hs, Hh. repeat split.
    - unfold seen. rewrite List.length_firstn. lia.
    - rewrite length_map, List.length_firstn. lia.
    - rewrite length_map, List.length_firstn. lia. }
  split; [exact Hall|].
  pose proof (scan_outcome tr tg) as Ho. fold a in Ho.
  destruct (_scan_project_state tr tg) as [e|sc].
  - destruct Ho as [Ho | [_ Ho]]; auto.
  - destruct Ho as (-> & -> & -> & _). exact Hall.
Qed.

(** A tree with a config marker below an excluded directory and one below
    a visible directory: only the second is reported. *)
Example scan_skips_excluded_directories :
  let tr := Listing [ "README.md" ]
              [ ("node_modules", Listing [ "package.json" ] []);
                ("web", Listing [ "package.json"; "index.js" ] []) ] in
  ∃ s, _scan_project_state tr
         (Target (Some tr) None None (inr false) (inr false)) = inr s
       ∧ scan_file_count s = 3
       ∧ scan_config_hits s = [ "web/package.json" ]
       ∧ scan_sample_paths s
         = [ "README.md"; "web/package.json"; "web/index.js" ].
Proof. eexists. split; [reflexivity|]. repeat split. Qed.

(** ** Classifier: the decision *)

(** X8: the heuristic type in closed form: brownfield exactly when one of
    the three thresholds is reached (20 commits, 2 config hits, 120 files),
    greenfield exactly when nothing at all speaks for prior work (no
    [.specify], no [specs], no commit, no config hit, fewer than 12 files),
    ongoing in every other case. *)
Theorem auto_type_closed_form (sc : scan) :
  let strong := (20 <= scan_git_commits sc)%N
                ∨ 2 <= length (scan_config_hits sc)
                ∨ 120 <= scan_file_count sc in
  let blank := scan_has_specify sc = false ∧ scan_has_specs_dir sc = false
               ∧ scan_git_commits sc = 0%N
               ∧ scan_config_hits sc = []
               ∧ scan_file_count sc < 12 in
  (auto_type_of sc = "brownfield" ↔ strong)
  ∧ (auto_type_of sc = "greenfield" ↔ blank)
  ∧ (auto_type_of sc = "ongoing" ↔ ¬ strong ∧ ¬ blank).
Proof.
  intros strong blank. unfold auto_type_of, strong, blank.
  destruct (N.leb_spec 20 (scan_git_commits sc)),
    (Nat.leb_spec 2 (length (scan_config_hits sc))),
    (Nat.leb_spec 120 (scan_file_count sc)),
    (N.leb_spec 1 (scan_git_commits sc)),
    (Nat.leb_spec 1 (length (scan_config_hits sc))),
    (Nat.leb_spec 12 (scan_file_count sc)),
    (scan_has_specify sc), (scan_has_specs_dir sc),
    (scan_config_hits sc) as [|h hs] eqn:Eh;
    cbn [orb andb negb String.eqb Ascii.eqb Bool.eqb length] in *;
    repeat split; intros; try discriminate; try lia;
    try (intuition (try discriminate; try lia); fail);
    try (exfalso;
         match goal with
         | H : _ ∧ ¬ _ |- _ =>
             destruct H as [_ Hb]; apply Hb; repeat split;
             try reflexivity; lia
         end).
Qed.

(** A call that returns has met no failing query. *)
Lemma classify_inr_query (tg : target) (override : option string)
    (utcnow : string) (v : verdict) :
  classify_project_state tg override utcnow = inr v → query_error tg = None.
Proof.
  intros Hv. destruct (query_error tg) as [e|] eqn:Hq; [|reflexivity].
  rewrite (classify_raises tg override utcnow e
             (classify_inr_valid _ _ _ _ Hv) Hq) in Hv.
  discriminate.
Qed.


(** Letter case is irrelevant to the validity of an override, and an
    invalid override is reported whatever the path. *)
Example classify_accepts_any_case :
  valid_override (Some "BrownField") ∧ valid_override (Some "ONGOING")
  ∧ valid_override None ∧ valid_override (Some "")
  ∧ ¬ valid_override (Some "legacy") ∧ ¬ valid_override (Some " auto")
  ∧ classify_project_state
      (Target None None (Some (OSError "[Errno 36] File name too long"))
         (inr false) (inr false)) (Some "legacy") "t"
    = inl (BadParameter "Invalid project type 'legacy'. Choose from auto, brownfield, greenfield, ongoing.")
  ∧ classify_project_state
      (Target None None (Some (OSError "[Errno 36] File name too long"))
         (inr false) (inr false)) (Some "ongoing") "t"
    = inl (OSError "[Errno 36] File name too long").
Proof. unfold valid_override. repeat split; try discriminate. Qed.

Lemma detect_type_cases (found : option scan) :
  In (d_project_type (detect found)) ["greenfield"; "ongoing"; "brownfield"].
Proof.
  unfold detect. destruct found; cbn [d_project_type].
  - apply auto_type_cases.
  - simpl. auto.
Qed.

Lemma valid_cases (s : string) :
  Py.mem s VALID_PROJECT_TYPES = true →
  In s ["auto"; "greenfield"; "brownfield"; "ongoing"].
Proof. intros H. now apply mem_in in H. Qed.

(** The fields of the verdict that an override leaves alone. *)
Lemma classify_fields (tg : target) (override : option string)
    (utcnow : string) (v : verdict) :
  classify_project_state tg override utcnow = inr v →
  let o := Py.lower (Py.or_str override "auto") in
  ∃ found,
    scanned tg = inr found
    ∧ v_stats v = d_stats (detect found)
    ∧ analysis_timestamp v = utcnow +:+ "Z"
    ∧ migration_recommendations v = recommendations (project_type v)
    ∧ existing_files_count v
      = (if bool_decide (is_Some (tree_of tg))
         then file_count (d_stats (detect found)) else 0)
    ∧ (o = "auto" →
       signals v = d_signals (detect found)
       ∧ requires_confirmation v = d_requires_confirmation (detect found))
    ∧ (o ≠ "auto" →
       signals v
       = d_signals (detect found) ++ [ "Manual override requested: " +:+ o ]
       ∧ requires_confirmation v
         = d_requires_confirmation (detect found)
           || Py.mem o [ "brownfield"; "ongoing" ]
       ∧ reason v = "manual override").
Proof.
  intros Hv o.
  destruct (classify_inr_queries _ _ _ _ Hv) as (Hp & found & Hs).
  rewrite (classify_queries _ _ _ _ (classify_inr_valid _ _ _ _ Hv) Hp Hs)
    in Hv.
  cbv zeta in Hv. fold o in Hv. exists found. split; [exact Hs|].
  destruct (String.eqb_spec o "auto") as [Ho|Ho]; cbn [negb] in Hv.
  - destruct (py_round _); [discriminate|]. injection Hv as <-. cbn.
    repeat split; intros; congruence.
  - destruct (py_round _); [discriminate|]. injection Hv as <-. cbn.
    repeat split; intros; congruence.
Qed.

(** X10: the final project type is always greenfield, ongoing or
    brownfield (never the literal auto), and the verdict carries migration
    recommendations exactly for ongoing (two) and brownfield (three),
    after an override as without. *)
Theorem verdict_type_and_recommendations (tg : target)
    (override : option string) (utcnow : string) (v : verdict) :
  classify_project_state tg override utcnow = inr v →
  In (project_type v) ["greenfield"; "ongoing"; "brownfield"]
  ∧ (project_type v = "brownfield" → length (migration_recommendations v) = 3)
  ∧ (project_type v = "ongoing" → length (migration_recommendations v) = 2)
  ∧ (project_type v = "greenfield" → migration_recommendations v = [])
  ∧ (migration_recommendations v ≠ [] ↔
     project_type v = "ongoing" ∨ project_type v = "brownfield").
Proof.
  intros Hv.
  assert (migration_recommendations v = recommendations (project_type v))
    as Hrec.
  { now destruct (classify_fields _ _ _ _ Hv) as (found & _ & _ & _ & H & _). }
  assert (In (project_type v) ["greenfield"; "ongoing"; "brownfield"]) as Hin.
  { destruct (String.eqb_spec (Py.lower (Py.or_str override "auto")) "auto")
      as [Ho | Ho].
    - destruct (classify_auto tg override utcnow v Ho Hv)
        as (found & _ & -> & _).
      apply detect_type_cases.
    - pose proof (classify_inr_valid _ _ _ _ Hv) as Hvalid.
      destruct (classify_override tg override utcnow v Ho Hv) as (Hpt & _).
      rewrite Hpt.
      apply valid_cases in Hvalid. simpl in Hvalid |- *.
      intuition congruence. }
  split; [exact Hin|]. rewrite Hrec.
  simpl in Hin. destruct Hin as [<-|[<-|[<-|[]]]];
    repeat split; intros; try discriminate; try reflexivity;
    try (right; reflexivity); try (left; reflexivity);
    try (intuition discriminate).
Qed.

Lemma verdict_type_and_recommendations_witness :
  ∃ v, classify_project_state (Target None None None (inr false) (inr false))
         (Some "Ongoing") "t" = inr v
       ∧ project_type v = "ongoing"
       ∧ length (migration_recommendations v) = 2.
Proof.
  eexists. split; [vm_compute; reflexivity|]. split; [reflexivity|].
  edestruct (verdict_type_and_recommendations
               (Target None None None (inr false) (inr false))
               (Some "Ongoing") "t") as (_ & _ & H & _);
    [vm_compute; reflexivity|].
  apply H. reflexivity.
Defined.

(** X11: an override changes the type, the confidence and the flags, not
    the evidence: compared with the verdict of the same target without
    override, the statistics are the same, the signals are the same with
    one line about the override appended, [requires_confirmation] is never
    lowered, and it is raised for brownfield and ongoing. *)
Theorem override_keeps_evidence (tg : target) (raw utcnow : string)
    (v : verdict) :
  classify_project_state tg (Some raw) utcnow = inr v →
  override_applied v = true →
  ∃ v0, classify_project_state tg None utcnow = inr v0
        ∧ v_stats v = v_stats v0
        ∧ existing_files_count v = existing_files_count v0
        ∧ signals v
          = signals v0 ++ [ "Manual override requested: " +:+ project_type v ]
        ∧ (requires_confirmation v0 = true → requires_confirmation v = true)
        ∧ (project_type v ≠ "greenfield" → requires_confirmation v = true)
        ∧ (project_type v = "greenfield" →
           requires_confirmation v = requires_confirmation v0).
Proof.
  intros Hv Hap.
  destruct (classify_returns tg None utcnow eq_refl
              (classify_inr_query _ _ _ _ Hv)) as [v0 Hv0].
  exists v0. split; [exact Hv0|].
  destruct (classify_fields _ _ _ _ Hv0)
    as (found0 & Hs0 & Hst0 & _ & _ & Hex0 & Hauto0 & _).
  destruct (Hauto0 eq_refl) as (Hsig0 & Hrc0).
  destruct (classify_fields _ _ _ _ Hv)
    as (found & Hs & Hst & _ & _ & Hex & Hauto & Hover).
  assert (found0 = found) as -> by congruence.
  assert (Py.lower (Py.or_str (Some raw) "auto") ≠ "auto") as Ho.
  { intros Ho.
    destruct (classify_auto _ _ _ _ Ho Hv) as (? & _ & _ & _ & _ & _ & H & _).
    congruence. }
  destruct (Hover Ho) as (Hsig & Hrc & _).
  pose proof (classify_inr_valid _ _ _ _ Hv) as Hvalid.
  destruct (classify_override tg (Some raw) utcnow v Ho Hv) as (Hpt & _).
  split; [congruence|]. split; [congruence|].
  split; [rewrite Hsig, Hsig0, Hpt; reflexivity|].
  rewrite Hrc, Hrc0, <- Hpt.
  apply valid_cases in Hvalid. rewrite <- Hpt in Ho.
  unfold valid_override in Hvalid. rewrite <- Hpt in Hvalid.
  simpl in Hvalid. destruct Hvalid as [H|[H|[H|[H|[]]]]]; rewrite <- H in *;
    try congruence; cbn; repeat split; intros; try congruence;
    try apply orb_true_r; try apply orb_false_r;
    try (match goal with
         | Hd : d_requires_confirmation _ = true |- _ => rewrite Hd
         end; reflexivity).
Qed.

Lemma override_keeps_evidence_witness :
  let tg := Target (Some (Listing [ "a.py"; "b.py" ] [])) (Some 2%N) None
              (inr false) (inr false) in
  ∃ v v0,
    classify_project_state tg (Some "greenfield") "t" = inr v
    ∧ classify_project_state tg None "t" = inr v0
    ∧ project_type v0 = "ongoing"
    ∧ project_type v = "greenfield"
    ∧ requires_confirmation v = true
    ∧ v_stats v = v_stats v0.
Proof.
  intros tg. eexists. 
  edestruct (override_keeps_evidence tg "greenfield" "t")
    as (v0 & Hv0 & Hst & _ & _ & Hrc & _);
    [vm_compute; reflexivity | reflexivity |].
  exists v0. split; [vm_compute; reflexivity|].
  split; [exact Hv0|].
  assert (project_type v0 = "ongoing" ∧ requires_confirmation v0 = true)
    as [Hpt Hrc0].
  { vm_compute in Hv0. injection Hv0 as <-. split; reflexivity. }
  split; [exact Hpt|]. split; [reflexivity|].
  split; [exact (Hrc Hrc0) | exact Hst].
Defined.

(** X12: binary64 rounding never shows in the score: in every verdict
    returned for an existing directory classified without override,
    [confidence_score] is the score of the decimal arithmetic of the
    heuristic, between 65 and 98.  The scan it is computed from holds for
    [has_specify] and [has_specs_dir] what the two [exists()] answer, not
    what the walk lists. *)
Theorem heuristic_score_is_decimal (tg : target) (tr : tree)
    (utcnow : string) (v : verdict) :
  tree_of tg = Some tr →
  classify_project_state tg None utcnow = inr v →
  ∃ sc, _scan_project_state tr tg = inr sc
        ∧ specify_probe tg = inr (scan_has_specify sc)
        ∧ specs_probe tg = inr (scan_has_specs_dir sc)
        ∧ project_type v = auto_type_of sc
        ∧ confidence_score v = decimal_score (auto_type_of sc) sc
        ∧ (65 <= confidence_score v <= 98)%Z.
Proof.
  intros Htr Hv.
  destruct (classify_auto tg None utcnow v eq_refl Hv)
    as (found & Hs & Hpt & Hc & Hr & _).
  unfold scanned in Hs. rewrite Htr in Hs.
  pose proof (scan_outcome tr tg) as Ho.
  destruct (_scan_project_state tr tg) as [e|sc]; [discriminate|].
  injection Hs as <-. destruct Ho as (_ & _ & _ & H1 & H2 & _).
  exists sc. split; [reflexivity|]. split; [exact H1|]. split; [exact H2|].
  cbn [detect d_project_type d_confidence] in Hpt, Hc.
  split; [exact Hpt|].
  pose proof (confidence_score_decimal (auto_type_of sc) sc
                (auto_type_cases sc)) as Hdec.
  rewrite <- Hc, Hr in Hdec. injection Hdec as Hdec.
  split; [exact Hdec|]. rewrite Hdec.
  unfold decimal_score.
  pose proof (auto_type_cases sc) as Hcs. simpl in Hcs.
  destruct Hcs as [<-|[<-|[<-|[]]]];
    cbn [String.eqb Ascii.eqb Bool.eqb];
    repeat match goal with |- context [if ?b then _ else _] => destruct b end;
    lia.
Qed.

(** A directory in which [specs] is a dangling link: the walk lists the
    name, [exists()] denies it, and the directory is greenfield with score
    80. *)
Lemma heuristic_score_is_decimal_witness :
  let tr := Listing [ "specs"; "notes.txt" ] [] in
  let tg := Target (Some tr) None None (inr false) (inr false) in
  ∃ v, classify_project_state tg None "t" = inr v
       ∧ project_type v = "greenfield"
       ∧ confidence_score v = 80%Z.
Proof.
  intros tr tg. eexists. split; [vm_compute; reflexivity|].
  split; [reflexivity|].
  edestruct (heuristic_score_is_decimal tg tr "t") as (sc & Hsc & _ & _ & _ & Hd & _);
    [reflexivity | vm_compute; reflexivity |].
  vm_compute in Hsc. injection Hsc as <-. exact Hd.
Defined.

(** The scenario of twenty-five commits, no config marker and three files:
    brownfield, with score 80 although [0.7 + 0.1] is not 0.8 in
    binary64. *)
Example brownfield_by_commits_alone :
  let tg := Target (Some (Listing [ "a"; "b"; "c" ] [])) (Some 25%N) None
              (inr false) (inr false) in
  ∃ v, classify_project_state tg None "t" = inr v
       ∧ project_type v = "brownfield"
       ∧ confidence_score v = 80%Z
       ∧ PrimFloat.eqb (confidence v) 0.8%float = false
       ∧ warnings v = [].
Proof. eexists. split; [vm_compute; reflexivity|]. repeat split. Qed.

(** ** Legacy analysis: the score *)

Lemma calculate_confidence_sum (fc gc cc : Z) (t : Analysis.tech_info) :
  Analysis.calculate_confidence fc gc cc t
  = (AnalysisSpec.file_points fc + AnalysisSpec.git_points gc
     + AnalysisSpec.config_points cc + AnalysisSpec.tech_points t)%Z.
Proof.
  unfold Analysis.calculate_confidence, AnalysisSpec.file_points,
    AnalysisSpec.git_points, AnalysisSpec.config_points,
    AnalysisSpec.tech_points.
  repeat match goal with
         | |- context [if ?b then _ else _] => destruct b
         end; reflexivity.
Qed.

Lemma file_points_mono (a b : Z) :
  (a <= b)%Z → (AnalysisSpec.file_points a <= AnalysisSpec.file_points b)%Z.
Proof.
  intros H. unfold AnalysisSpec.file_points.
  repeat match goal with
         | |- context [(?x <? ?y)%Z] => destruct (Z.ltb_spec x y)
         end; lia.
Qed.

Lemma git_points_mono (a b : Z) :
  (a <= b)%Z → (AnalysisSpec.git_points a <= AnalysisSpec.git_points b)%Z.
Proof.
  intros H. unfold AnalysisSpec.git_points.
  repeat match goal with
         | |- context [(?x <? ?y)%Z] => destruct (Z.ltb_spec x y)
         end; lia.
Qed.

Lemma config_points_mono (a b : Z) :
  (a <= b)%Z → (AnalysisSpec.config_points a <= AnalysisSpec.config_points b)%Z.
Proof.
  intros H. unfold AnalysisSpec.config_points.
  repeat match goal with
         | |- context [(?x <? ?y)%Z] => destruct (Z.ltb_spec x y)
         end; lia.
Qed.

Lemma points_ranges (fc gc cc : Z) (t : Analysis.tech_info) :
  (0 <= AnalysisSpec.file_points fc <= 30
   ∧ 0 <= AnalysisSpec.git_points gc <= 30
   ∧ 0 <= AnalysisSpec.config_points cc <= 20
   ∧ 0 <= AnalysisSpec.tech_points t <= 20
   ∧ (AnalysisSpec.file_points fc + AnalysisSpec.git_points gc
      + AnalysisSpec.config_points cc + AnalysisSpec.tech_points t) mod 5 = 0)%Z.
Proof.
  unfold AnalysisSpec.file_points, AnalysisSpec.git_points,
    AnalysisSpec.config_points, AnalysisSpec.tech_points.
  repeat match goal with
         | |- context [if ?b then _ else _] => destruct b
         end; repeat split; try lia; reflexivity.
Qed.

(** X13: [calculate_confidence] is the plain sum of the points of its four
    criteria: the sum never exceeds 100, so the final [min(score, 100)]
    never cuts; the score is a multiple of 5 between 0 and 100 and grows
    with the number of files, of commits and of config files. *)
Theorem calculate_confidence_bounds (fc gc cc fc' gc' cc' : Z)
    (t : Analysis.tech_info) :
  let score := Analysis.calculate_confidence fc gc cc t in
  (0 <= score <= 100)%Z
  ∧ (score mod 5 = 0)%Z
  ∧ score = (AnalysisSpec.file_points fc + AnalysisSpec.git_points gc
             + AnalysisSpec.config_points cc + AnalysisSpec.tech_points t)%Z
  ∧ ((fc <= fc')%Z → (gc <= gc')%Z → (cc <= cc')%Z →
     (score <= Analysis.calculate_confidence fc' gc' cc' t)%Z).
Proof.
  intros score. unfold score. rewrite calculate_confidence_sum.
  pose proof (points_ranges fc gc cc t) as (Hf & Hg & Hc & Ht & Hm).
  repeat split; try lia.
  intros H1 H2 H3. rewrite calculate_confidence_sum.
  pose proof (file_points_mono _ _ H1). pose proof (git_points_mono _ _ H2).
  pose proof (config_points_mono _ _ H3). lia.
Qed.

(** [detect_tech_stack] raises what the first failing [exists()] raises,
    provided no earlier pattern was found; otherwise it answers with the
    first pattern found, or with [unknown]. *)
Lemma detect_tech_stack_spec (exists_ : string → exn + bool)
    (l : list (string * Analysis.tech_info)) :
  match Analysis.detect_tech_stack exists_ l with
  | inl e =>
      AnalysisSpec.probe_error exists_ (map fst l) = Some e
      ∧ ∃ pre name info post,
          l = pre ++ (name, info) :: post
          ∧ Forall (λ x, exists_ (fst x) = inr false) pre
          ∧ exists_ name = inl e
  | inr t =>
      AnalysisSpec.probe_error exists_ (map fst l) = None
      ∧ ((∃ pre name post,
            l = pre ++ (name, t) :: post
            ∧ Forall (λ x, exists_ (fst x) = inr false) pre
            ∧ exists_ name = inr true)
         ∨ (t = Analysis.Tech "unknown" (Some 0.1%float)
            ∧ Forall (λ x, exists_ (fst x) = inr false) l))
  end.
Proof.
  induction l as [|[name info] l IH];
    cbn [Analysis.detect_tech_stack AnalysisSpec.probe_error map fst].
  - split; [reflexivity|]. right. split; [reflexivity | constructor].
  - destruct (exists_ name) as [e|[]] eqn:En.
    + split; [reflexivity|]. exists [], name, info, l.
      split; [reflexivity|]. split; [constructor | exact En].
    + split; [reflexivity|]. left. exists [], name, l.
      split; [reflexivity|]. split; [constructor | exact En].
    + destruct (Analysis.detect_tech_stack exists_ l) as [e|t].
      * destruct IH as (Hp & pre & n & i & post & -> & Hpre & Hn).
        split; [exact Hp|]. exists ((name, info) :: pre), n, i, post.
        split; [reflexivity|]. split; [now constructor | exact Hn].
      * destruct IH as (Hp & [(pre & n & post & -> & Hpre & Hn) | [-> Hall]]).
        -- split; [exact Hp|]. left. exists ((name, info) :: pre), n, post.
           split; [reflexivity|]. split; [now constructor | exact Hn].
        -- split; [exact Hp|]. right. split; [reflexivity | now constructor].
Qed.

(** X14: [analyze_existing_project] returns or raises, and which is
    settled by its calls in order.  It raises exactly when [iterdir]
    raises, or else the git command raises something other than the two
    exceptions [get_git_history_length] catches ([PermissionError] on a
    directory that cannot be entered, say), or else the [exists()] of a
    tech pattern raises before any pattern is found; it raises the
    exception of that first failure.  A verdict it returns is consistent:
    it counts the entries listed, takes 0 commits for a git failure that
    is caught, requires the safeguard only for a type other than
    greenfield; a mature brownfield always requires it, comes with the
    four-step migration path and needs more than ten commits, and a
    greenfield verdict comes with the standard two-step path. *)
Theorem analysis_is_consistent (entries : exn + list string)
    (git : Analysis.git_run) (exists_ : string → exn + bool) :
  match Analysis.analyze_existing_project entries git exists_ with
  | inl e => AnalysisSpec.first_error entries git exists_ = Some e
  | inr a =>
      AnalysisSpec.first_error entries git exists_ = None
      ∧ (∃ es, entries = inr es
               ∧ Analysis.existing_files_count a = length es)
      ∧ Analysis.git_commits a
        = match git with Analysis.GitCount n => n | _ => 0%Z end
      ∧ (0 <= Analysis.confidence_score a <= 100)%Z
      ∧ (Analysis.safeguard_required a = true →
         Analysis.project_type a ≠ "greenfield")
      ∧ (Analysis.project_type a = "mature_brownfield" →
         Analysis.safeguard_required a = true
         ∧ length (Analysis.migration_recommendations a) = 4
         ∧ (10 < Analysis.git_commits a)%Z)
      ∧ (Analysis.project_type a = "greenfield" →
         (Analysis.confidence_score a <= 20)%Z
         ∧ length (Analysis.migration_recommendations a) = 2)
      ∧ (Analysis.git_commits a <= 10 →
         Analysis.confidence_score a <= 70)%Z
  end.
Proof.
  unfold Analysis.analyze_existing_project, AnalysisSpec.first_error.
  destruct entries as [e|es]; [reflexivity|].
  pose proof (detect_tech_stack_spec exists_ Analysis.tech_patterns) as Ht.
  destruct git as [n| |e]; cbn [Analysis.get_git_history_length];
    try reflexivity;
    (destruct (Analysis.detect_tech_stack exists_ Analysis.tech_patterns)
       as [e|t]; [exact (proj1 Ht)|]);
    (split; [exact (proj1 Ht)|]);
    cbn [Analysis.confidence_score Analysis.project_type
         Analysis.safeguard_required Analysis.migration_recommendations
         Analysis.git_commits Analysis.existing_files_count];
    (split; [now exists es|]); (split; [reflexivity|]).
  all: match goal with
       | |- context [Analysis.calculate_confidence ?fc ?g ?cc ?t] =>
           rewrite (calculate_confidence_sum fc g cc t);
           pose proof (points_ranges fc g cc t) as (Hf & Hg & Hc & Hp & _);
           assert ((g <= 10)%Z → AnalysisSpec.git_points g = 0%Z) as Hg0
             by (intros H; unfold AnalysisSpec.git_points;
                 repeat match goal with
                        | |- context [(?x <? ?y)%Z] =>
                            destruct (Z.ltb_spec x y)
                        end; lia);
           set (score := (AnalysisSpec.file_points fc
                          + AnalysisSpec.git_points g
                          + AnalysisSpec.config_points cc
                          + AnalysisSpec.tech_points t)%Z) in *
       end;
       unfold Analysis.determine_project_type,
         Analysis.generate_migration_path;
       destruct (Z.ltb_spec 70 score), (Z.ltb_spec 40 score),
         (Z.ltb_spec 20 score), (Z.ltb_spec 30 score);
       repeat split; intros; try discriminate; try reflexivity; try lia.
Qed.

(** A repository with fifty-one commits, thirty files, a manifest and a few
    config files is a mature brownfield with the full score. *)
Example analysis_of_a_mature_project :
  let entries :=
    [ "package.json"; "tsconfig.json"; ".env"; ".env.local"; "Dockerfile";
      "Makefile"; "a.yaml"; "b.yaml"; "c.yml"; "d.toml"; "e.ini" ]
    ++ map (λ i : nat, "src" +:+ pretty i) (seq 0 19) in
  ∃ a, Analysis.analyze_existing_project (inr entries)
         (Analysis.GitCount 51)
         (λ name, inr (String.eqb name "package.json")) = inr a
       ∧ Analysis.confidence_score a = 100%Z
       ∧ Analysis.project_type a = "mature_brownfield"
       ∧ Analysis.config_files_count a = 11.
Proof. eexists. split; [vm_compute; reflexivity|]. repeat split. Qed.

(** A directory that can be listed but not entered: [iterdir] answers,
    the git command cannot change to it, and its [PermissionError] is not
    one of the exceptions caught. *)
Example analysis_of_a_closed_directory :
  Analysis.analyze_existing_project (inr [ "README.md" ])
    (Analysis.GitRaised (OSError "[Errno 13] Permission denied"))
    (λ _, inl (OSError "[Errno 13] Permission denied"))
  = inl (OSError "[Errno 13] Permission denied")
  ∧ ∃ a, Analysis.analyze_existing_project (inr [ "README.md" ])
           Analysis.GitFailed (λ _, inr false) = inr a
         ∧ Analysis.git_commits a = 0%Z
         ∧ Analysis.project_type a = "greenfield".
Proof.
  split; [reflexivity|]. eexists. split; [vm_compute; reflexivity|].
  split; reflexivity.
Qed.

(** ** Legacy analysis: the config patterns *)

Lemma glob_literal (pat s : string) :
  AnalysisSpec.literal pat = true →
  Analysis.glob_match pat s = String.eqb pat s.
Proof.
  revert s. induction pat as [|c pat IH]; intros s Hl.
  - now destruct s.
  - cbn [AnalysisSpec.literal] in Hl.
    apply andb_true_iff in Hl as [Hc Hp]. apply negb_true_iff in Hc.
    cbn [Analysis.glob_match]. rewrite Hc.
    destruct s as [|d s]; [reflexivity|].
    cbn [String.eqb]. now rewrite IH.
Qed.

Lemma glob_star_suffix (suf s : string) :
  AnalysisSpec.literal suf = true →
  Analysis.glob_match (String "*" suf) s = Py.endswith suf s.
Proof.
  intros Hl. cbn [Analysis.glob_match]. rewrite Ascii.eqb_refl.
  induction s as [|d s IH].
  - cbn [Py.endswith]. now rewrite glob_literal.
  - cbn [Py.endswith]. rewrite <- IH. now rewrite glob_literal.
Qed.

Lemma glob_star_any (s : string) : Analysis.glob_match "*" s = true.
Proof.
  induction s as [|d s IH]; [reflexivity|].
  simpl in IH |- *. exact IH.
Qed.

Lemma glob_prefix_star (pre s : string) :
  AnalysisSpec.literal pre = true →
  Analysis.glob_match (pre +:+ "*") s = Py.startswith pre s.
Proof.
  revert s. induction pre as [|c pre IH]; intros s Hl.
  - change ("" +:+ "*") with "*". rewrite glob_star_any. reflexivity.
  - cbn [AnalysisSpec.literal] in Hl.
    apply andb_true_iff in Hl as [Hc Hp]. apply negb_true_iff in Hc.
    change (String c pre +:+ "*") with (String c (pre +:+ "*")).
    cbn [Analysis.glob_match Py.startswith]. rewrite Hc.
    destruct s as [|d s]; [reflexivity|]. now rewrite IH.
Qed.

Lemma existsb_patterns (name : string) :
  existsb (λ pat, Analysis.glob_match pat name) Analysis.config_patterns
  = AnalysisSpec.config_name name.
Proof.
  unfold Analysis.config_patterns, AnalysisSpec.config_name.
  cbn [existsb].
  rewrite !glob_star_suffix by reflexivity.
  rewrite (glob_literal "Dockerfile"), (glob_literal "Makefile")
    by reflexivity.
  change "docker-compose.*" with ("docker-compose." +:+ "*").
  change ".env*" with (".env" +:+ "*").
  rewrite !glob_prefix_star by reflexivity.
  rewrite orb_false_r, !orb_assoc. reflexivity.
Qed.

Lemma list_sum_cons_eq (x : nat) (l : list nat) :
  list_sum (x :: l) = x + list_sum l.
Proof. reflexivity. Qed.

Lemma filter_cons_length {A} (g : A → bool) (x : A) (l : list A) :
  length (List.filter g (x :: l))
  = (if g x then 1 else 0) + length (List.filter g l).
Proof. cbn [List.filter]. now destruct (g x). Qed.

Lemma length_flat_map_filter {A B} (f : B → A → bool) (ps : list B)
    (es : list A) :
  length (flat_map (λ p, List.filter (f p) es) ps)
  = list_sum (map (λ e, length (List.filter (λ p, f p e) ps)) es).
Proof.
  induction ps as [|p ps IH].
  - induction es as [|e es IHe]; [reflexivity|].
    rewrite map_cons, list_sum_cons_eq, <- IHe. reflexivity.
  - cbn [flat_map]. rewrite length_app, IH. clear IH.
    induction es as [|e es IHe]; [reflexivity|].
    rewrite !map_cons, !list_sum_cons_eq, <- IHe, !filter_cons_length.
    lia.
Qed.

(** X15: [detect_config_files] reports a directory entry exactly when its
    name ends in [.json], [.yaml], [.yml], [.toml], [.ini] or [.conf], is
    [Dockerfile] or [Makefile], or starts with [docker-compose.] or
    [.env]; an entry is reported once for every pattern it matches, so the
    result can hold more items than the directory has config files. *)
Theorem detect_config_files_spec (entries : list string) (name : string) :
  (In name (Analysis.detect_config_files entries)
   ↔ In name entries ∧ AnalysisSpec.config_name name = true)
  ∧ length (Analysis.detect_config_files entries)
    = list_sum
        (map (λ e, length (List.filter (λ pat, Analysis.glob_match pat e)
                             Analysis.config_patterns)) entries)
  ∧ length (List.filter AnalysisSpec.config_name entries)
    <= length (Analysis.detect_config_files entries).
Proof.
  split; [|split].
  - unfold Analysis.detect_config_files. rewrite in_flat_map.
    rewrite <- existsb_patterns, existsb_exists. split.
    + intros (pat & Hp & Hin). apply List.filter_In in Hin as [Hin Hm].
      split; [assumption|]. now exists pat.
    + intros (Hin & pat & Hp & Hm). exists pat. split; [assumption|].
      now apply List.filter_In.
  - apply length_flat_map_filter.
  - unfold Analysis.detect_config_files. rewrite length_flat_map_filter.
    induction entries as [|e es IH]; [reflexivity|].
    rewrite map_cons, list_sum_cons_eq, filter_cons_length,
      <- existsb_patterns.
    destruct (existsb _ Analysis.config_patterns) eqn:E; [|lia].
    apply existsb_exists in E as (pat & Hp & Hm).
    assert (In pat (List.filter (λ p, Analysis.glob_match p e)
                      Analysis.config_patterns)) as Hin
        by now apply List.filter_In.
    destruct (List.filter (λ p, Analysis.glob_match p e)
                Analysis.config_patterns); [destruct Hin|].
    cbn [length]. lia.
Qed.

(** One file, counted twice: [.env.json] matches [*.json] and [.env*]. *)
Example config_file_counted_twice :
  Analysis.detect_config_files [ ".env.json"; "notes.txt" ]
  = [ ".env.json"; ".env.json" ].
Proof. reflexivity. Qed.

(** ** Arrow-key selection *)

Lemma index_of_spec (d : string) (l : list string) :
  Py.mem d l = true →
  (0 <= Menu.index_of d l < Z.of_nat (length l))%Z
  ∧ nth_error l (Z.to_nat (Menu.index_of d l)) = Some d.
Proof.
  induction l as [|x l IH]; [discriminate|].
  unfold Py.mem. cbn [existsb Menu.index_of length].
  rewrite String.eqb_sym.
  destruct (String.eqb_spec x d) as [->|Hne]; cbn [orb].
  - intros _. split; [lia | reflexivity].
  - intros Hm. destruct (IH Hm) as (Hb & Hn). split; [lia|].
    replace (Z.to_nat (1 + Menu.index_of d l))
      with (S (Z.to_nat (Menu.index_of d l))) by lia.
    exact Hn.
Qed.

Lemma initial_index_bound (l : list string) (default_key : option string) :
  l ≠ [] →
  (0 <= Menu.initial_index l default_key < Z.of_nat (length l))%Z.
Proof.
  intros Hl.
  assert (0 < Z.of_nat (length l))%Z as Hn by (destruct l; [congruence|cbn; lia]).
  unfold Menu.initial_index. destruct default_key as [d|]; [|lia].
  destruct (Py.truthy d && Py.mem d l) eqn:E; [|lia].
  apply andb_true_iff in E as [_ Hm]. now apply index_of_spec.
Qed.

Lemma nth_error_in_range (l : list string) (i : Z) :
  (0 <= i < Z.of_nat (length l))%Z →
  ∃ k, nth_error l (Z.to_nat i) = Some k ∧ In k l.
Proof.
  intros Hi. destruct (nth_error l (Z.to_nat i)) as [k|] eqn:E.
  - exists k. split; [reflexivity|]. eapply nth_error_In, E.
  - apply nth_error_None in E. lia.
Qed.

(** The index stays inside the list, whatever is typed. *)
Lemma selection_loop_safe (l : list string) (keys : list Menu.keypress)
    (i : Z) :
  (0 <= i < Z.of_nat (length l))%Z →
  match Menu.run_selection_loop l i keys with
  | Menu.Selected k => In k l
  | Menu.Crashed _ => False
  | Menu.Cancelled => In Menu.KEsc keys ∨ In Menu.KCtrlC keys
  | Menu.Waiting j =>
      (0 <= j < Z.of_nat (length l))%Z ∧ ¬ In Menu.KEnter keys
      ∧ ¬ In Menu.KEsc keys ∧ ¬ In Menu.KCtrlC keys
  end.
Proof.
  revert i. induction keys as [|k keys IH]; intros i Hi.
  - cbn. intuition.
  - cbn [Menu.run_selection_loop].
    assert ((Z.of_nat (length l) =? 0)%Z = false) as Hn0
        by (apply Z.eqb_neq; lia).
    destruct k; rewrite ?Hn0.
    + specialize (IH ((i - 1) mod Z.of_nat (length l))%Z
                    ltac:(apply Z.mod_pos_bound; lia)).
      destruct (Menu.run_selection_loop l _ keys); cbn [In];
        intuition discriminate.
    + specialize (IH ((i + 1) mod Z.of_nat (length l))%Z
                    ltac:(apply Z.mod_pos_bound; lia)).
      destruct (Menu.run_selection_loop l _ keys); cbn [In];
        intuition discriminate.
    + destruct (nth_error_in_range l i Hi) as (key & -> & Hin). exact Hin.
    + cbn [In]. auto.
    + cbn [In]. auto.
    + specialize (IH i Hi).
      destruct (Menu.run_selection_loop l i keys); cbn [In];
        intuition discriminate.
Qed.

(** X16: with at least one option, [select_with_arrows] never fails on an
    index: whatever keys are pressed and whatever default is given, it
    returns one of the option keys, or is cancelled (and then Escape or
    Ctrl-C was pressed), or is still waiting for a key (and then none of
    Enter, Escape, Ctrl-C was pressed). *)
Theorem select_with_arrows_safe (options : list (string * string))
    (default_key : option string) (keys : list Menu.keypress) :
  options ≠ [] →
  match Menu.select_with_arrows options default_key keys with
  | Menu.Selected k => In k (map fst options)
  | Menu.Crashed _ => False
  | Menu.Cancelled => In Menu.KEsc keys ∨ In Menu.KCtrlC keys
  | Menu.Waiting _ =>
      ¬ In Menu.KEnter keys ∧ ¬ In Menu.KEsc keys ∧ ¬ In Menu.KCtrlC keys
  end.
Proof.
  intros Hne. unfold Menu.select_with_arrows.
  assert (map fst options ≠ []) as Hl by (destruct options; [congruence|discriminate]).
  pose proof (selection_loop_safe (map fst options) keys _
                (initial_index_bound _ default_key Hl)) as H.
  destruct (Menu.run_selection_loop _ _ keys); intuition.
Qed.

Lemma select_with_arrows_safe_witness :
  Menu.select_with_arrows [ ("sh", "POSIX Shell (bash/zsh)"); ("ps", "PowerShell") ]
    (Some "ps") [ Menu.KDown; Menu.KOther "x"; Menu.KUp; Menu.KUp; Menu.KEnter ]
  = Menu.Selected "sh"
  ∧ In "sh" [ "sh"; "ps" ].
Proof.
  split; [reflexivity|].
  exact (select_with_arrows_safe
           [ ("sh", "POSIX Shell (bash/zsh)"); ("ps", "PowerShell") ]
           (Some "ps")
           [ Menu.KDown; Menu.KOther "x"; Menu.KUp; Menu.KUp; Menu.KEnter ]
           ltac:(discriminate)).
Defined.

Lemma loop_downs (l : list string) (d : nat) (rest : list Menu.keypress)
    (i : Z) :
  l ≠ [] →
  Menu.run_selection_loop l (i mod Z.of_nat (length l))
    (repeat Menu.KDown d ++ rest)
  = Menu.run_selection_loop l ((i + Z.of_nat d) mod Z.of_nat (length l)) rest.
Proof.
  intros Hl.
  assert (Z.of_nat (length l) ≠ 0)%Z as Hn by (destruct l; [congruence|cbn; lia]).
  revert i. induction d as [|d IH]; intros i.
  - cbn [repeat app]. now rewrite Z.add_0_r.
  - cbn [repeat app Menu.run_selection_loop].
    apply Z.eqb_neq in Hn as Hn'. rewrite Hn'.
    rewrite Z.add_mod_idemp_l by assumption. rewrite IH. f_equal. f_equal. lia.
Qed.

Lemma loop_ups (l : list string) (u : nat) (rest : list Menu.keypress)
    (i : Z) :
  l ≠ [] →
  Menu.run_selection_loop l (i mod Z.of_nat (length l))
    (repeat Menu.KUp u ++ rest)
  = Menu.run_selection_loop l ((i - Z.of_nat u) mod Z.of_nat (length l)) rest.
Proof.
  intros Hl.
  assert (Z.of_nat (length l) ≠ 0)%Z as Hn by (destruct l; [congruence|cbn; lia]).
  revert i. induction u as [|u IH]; intros i.
  - cbn [repeat app]. now rewrite Z.sub_0_r.
  - cbn [repeat app Menu.run_selection_loop].
    apply Z.eqb_neq in Hn as Hn'. rewrite Hn'.
    rewrite Zminus_mod_idemp_l. rewrite IH. f_equal. f_equal. lia.
Qed.

(** X17: the arrows move around a ring: starting from the default (or from
    the first option), [d] presses of Down and [u] presses of Up followed
    by Enter select the option at position (start + d - u) modulo the
    number of options; whatever is typed after Enter is not read. *)
Theorem select_with_arrows_ring (options : list (string * string))
    (default_key : option string) (d u : nat) (rest : list Menu.keypress) :
  options ≠ [] →
  let option_keys := map fst options in
  let n := Z.of_nat (length options) in
  let start := Menu.initial_index option_keys default_key in
  ∃ k, nth_error option_keys
         (Z.to_nat ((start + Z.of_nat d - Z.of_nat u) mod n)) = Some k
       ∧ Menu.select_with_arrows options default_key
           (repeat Menu.KDown d ++ repeat Menu.KUp u ++ Menu.KEnter :: rest)
         = Menu.Selected k.
Proof.
  intros Hne option_keys n start.
  assert (option_keys ≠ []) as Hl
      by (unfold option_keys; destruct options; [congruence|discriminate]).
  assert (n = Z.of_nat (length option_keys)) as Hn
      by (unfold n, option_keys; now rewrite length_map).
  pose proof (initial_index_bound option_keys default_key Hl) as Hs.
  fold start in Hs. rewrite <- Hn in Hs.
  assert (0 < n)%Z as Hpos by lia.
  destruct (nth_error_in_range option_keys
              ((start + Z.of_nat d - Z.of_nat u) mod n)) as (k & Hk & _).
  { rewrite <- Hn. now apply Z.mod_pos_bound. }
  exists k. split; [exact Hk|].
  unfold Menu.select_with_arrows. fold option_keys. fold start.
  rewrite <- (Z.mod_small start n) at 1 by lia.
  rewrite Hn, loop_downs, loop_ups by assumption.
  cbn [Menu.run_selection_loop]. rewrite <- Hn, Hk. reflexivity.
Qed.

Lemma select_with_arrows_ring_witness :
  Menu.select_with_arrows
    [ ("copilot", "GitHub Copilot"); ("claude", "Claude Code");
      ("gemini", "Gemini CLI") ]
    (Some "copilot")
    (repeat Menu.KDown 1 ++ repeat Menu.KUp 3 ++ [ Menu.KEnter; Menu.KEsc ])
  = Menu.Selected "claude".
Proof.
  edestruct (select_with_arrows_ring
               [ ("copilot", "GitHub Copilot"); ("claude", "Claude Code");
                 ("gemini", "Gemini CLI") ]
               (Some "copilot") 1 3 [ Menu.KEsc ]) as (k & Hk & Hsel);
    [discriminate|].
  vm_compute in Hk. injection Hk as <-. exact Hsel.
Defined.

(** ** Permission pass: the new mode and the second pass *)

Lemma new_mode_has_exec (m : Z) :
  Z.eqb (Z.land (Permissions.new_mode m) Permissions.o111) 0 = false.
Proof.
  apply Z.eqb_neq. intros H.
  assert (Z.testbit (Z.land (Permissions.new_mode m) Permissions.o111) 6
          = true) as Hb.
  { rewrite Z.land_spec, new_mode_bits by lia. cbn.
    now rewrite orb_true_r. }
  rewrite H, Z.bits_0 in Hb. discriminate.
Qed.

(** X18: for every mode, the mode handed to [os.chmod] keeps every bit
    that was set, differs from the old mode in execute bits only, has
    owner-execute set, and is a fixed point: computing it again changes
    nothing. *)
Theorem new_mode_only_adds_execute (m : Z) :
  let nm := Permissions.new_mode m in
  (∀ i, (0 <= i)%Z → Z.testbit m i = true → Z.testbit nm i = true)
  ∧ (∀ i, (0 <= i)%Z → i ≠ 6%Z → i ≠ 3%Z → i ≠ 0%Z →
          Z.testbit nm i = Z.testbit m i)
  ∧ Z.testbit nm 6 = true
  ∧ Z.land nm Permissions.o111 ≠ 0%Z
  ∧ Permissions.new_mode nm = nm.
Proof.
  intros nm. unfold nm. split; [|split; [|split; [|split]]].
  - intros i Hi Hb. rewrite new_mode_bits, Hb by assumption. reflexivity.
  - intros i Hi H6 H3 H0. rewrite new_mode_bits by assumption.
    destruct (Z.eqb_spec 6 i), (Z.eqb_spec 3 i), (Z.eqb_spec 0 i);
      try congruence.
    cbn. now rewrite !orb_false_r.
  - rewrite new_mode_bits by lia. cbn. now rewrite orb_true_r.
  - apply Z.eqb_neq, new_mode_has_exec.
  - apply Z.bits_inj'. intros i Hi.
    rewrite (new_mode_bits (Permissions.new_mode m)) by assumption.
    rewrite (new_mode_bits m 5), (new_mode_bits m 2) by lia.
    rewrite (new_mode_bits m i) by assumption.
    change (6 =? 5)%Z with false. change (3 =? 5)%Z with false.
    change (0 =? 5)%Z with false. change (6 =? 2)%Z with false.
    change (3 =? 2)%Z with false. change (0 =? 2)%Z with false.
    destruct (Z.testbit m i), (6 =? i)%Z, (3 =? i)%Z, (0 =? i)%Z,
      (Z.testbit m 5), (Z.testbit m 2); reflexivity.
Qed.

Lemma visit_after_visit (e : Permissions.entry) :
  Py.endswith ".sh" (Permissions.basename (Permissions.path e)) = true →
  Permissions.visit (PermissionsEffect.after_visit e)
  = match Permissions.visit e with
    | Permissions.Chmod _ _ => Permissions.Skip
    | a => a
    end.
Proof.
  intros Hsh. unfold PermissionsEffect.after_visit. rewrite Hsh.
  destruct (Permissions.visit e) as [|p m|msg] eqn:E; try exact E.
  unfold Permissions.visit in E |- *.
  cbn [Permissions.is_symlink Permissions.is_file Permissions.head
       Permissions.st_mode Permissions.chmod_error Permissions.path].
  destruct (Permissions.is_symlink e || negb (Permissions.is_file e));
    [discriminate|].
  destruct (Permissions.head e) as [h|]; [|discriminate].
  destruct (negb (String.eqb h "#!")); [discriminate|].
  destruct (negb (Z.eqb (Z.land (Permissions.st_mode e) Permissions.o111) 0));
    [discriminate|].
  destruct (Permissions.chmod_error e); [discriminate|].
  injection E as _ <-. now rewrite new_mode_has_exec.
Qed.

Lemma after_visit_path (e : Permissions.entry) :
  Permissions.path (PermissionsEffect.after_visit e) = Permissions.path e.
Proof.
  unfold PermissionsEffect.after_visit.
  destruct (Py.endswith _ _); [|reflexivity].
  now destruct (Permissions.visit e).
Qed.

Lemma after_visit_idem (e : Permissions.entry) :
  PermissionsEffect.after_visit (PermissionsEffect.after_visit e)
  = PermissionsEffect.after_visit e.
Proof.
  unfold PermissionsEffect.after_visit at 1. rewrite after_visit_path.
  destruct (Py.endswith ".sh" (Permissions.basename (Permissions.path e)))
    eqn:Hsh; [|reflexivity].
  rewrite visit_after_visit by exact Hsh.
  now destruct (Permissions.visit e).
Qed.

Lemma rglob_after_visit (below : list Permissions.entry) :
  Permissions.rglob_sh (map PermissionsEffect.after_visit below)
  = map PermissionsEffect.after_visit (Permissions.rglob_sh below).
Proof.
  unfold Permissions.rglob_sh.
  induction below as [|e l IH]; [reflexivity|].
  cbn [map List.filter]. rewrite IH, after_visit_path.
  now destruct (Py.endswith _ _).
Qed.

Lemma run_loop_failures (l : list Permissions.entry)
    (o : Permissions.outcome) :
  Permissions.failures (Permissions.run_loop l o)
  = Permissions.failures o ++ flat_map PermissionsEffect.failure_of l.
Proof.
  revert o. induction l as [|e l IH]; intros o.
  - cbn. now rewrite app_nil_r.
  - cbn [Permissions.run_loop flat_map]. rewrite IH.
    unfold PermissionsEffect.failure_of at 2.
    destruct (Permissions.visit e); cbn [Permissions.failures];
      rewrite <- ?app_assoc; reflexivity.
Qed.

Lemma run_loop_second (l : list Permissions.entry) (o : Permissions.outcome) :
  Forall (λ e, Py.endswith ".sh" (Permissions.basename (Permissions.path e))
               = true) l →
  Permissions.run_loop (map PermissionsEffect.after_visit l) o
  = Permissions.Outcome (Permissions.chmods o) (Permissions.updated o)
      (Permissions.failures o ++ flat_map PermissionsEffect.failure_of l).
Proof.
  intros Hall. revert o. induction Hall as [|e l He _ IH]; intros o.
  - cbn. rewrite app_nil_r. now destruct o.
  - cbn [map Permissions.run_loop flat_map]. rewrite visit_after_visit by exact He.
    rewrite IH. unfold PermissionsEffect.failure_of at 2.
    destruct (Permissions.visit e);
      cbn [Permissions.chmods Permissions.updated Permissions.failures];
      rewrite <- ?app_assoc; reflexivity.
Qed.

(** X19: the pass is idempotent: run again on the directory it has just
    treated, it changes no mode and updates nothing; the files whose
    [os.chmod] failed fail again, with the same messages. *)
Theorem second_pass_updates_nothing (os_name : string) (root_is_dir : bool)
    (below : list Permissions.entry) (tracker tracker' : option Tracker.t) :
  let o1 := fst (Permissions.ensure_executable_scripts os_name root_is_dir
                   below tracker) in
  let below' := PermissionsEffect.after_pass os_name root_is_dir below in
  let o2 := fst (Permissions.ensure_executable_scripts os_name root_is_dir
                   below' tracker') in
  Permissions.updated o2 = 0
  ∧ Permissions.chmods o2 = []
  ∧ Permissions.failures o2 = Permissions.failures o1
  ∧ PermissionsEffect.after_pass os_name root_is_dir below' = below'.
Proof.
  intros o1 below' o2.
  unfold o1, o2, below', Permissions.ensure_executable_scripts,
    PermissionsEffect.after_pass.
  destruct (String.eqb os_name "nt"); [cbn; auto|].
  destruct root_is_dir; cbn [negb fst]; [|cbn; auto].
  rewrite rglob_after_visit, run_loop_second, run_loop_failures.
  - cbn [Permissions.updated Permissions.chmods Permissions.failures].
    repeat split. rewrite map_map. apply map_ext. intros e.
    apply after_visit_idem.
  - unfold Permissions.rglob_sh. apply List.Forall_forall.
    intros e He. now apply List.filter_In in He.
Qed.

(** Two scripts without execute bits, one of them on a read-only file
    system: the first pass updates one and fails on the other, the second
    pass updates nothing and fails on the same one. *)
Example second_pass_run :
  let below :=
    [ Permissions.Entry [ "bash"; "setup.sh" ] false true (Some "#!") 33188
        None;
      Permissions.Entry [ "bash"; "ro.sh" ] false true (Some "#!") 33188
        (Some "Read-only file system") ] in
  let o1 := fst (Permissions.ensure_executable_scripts "posix" true below
                   None) in
  let o2 := fst (Permissions.ensure_executable_scripts "posix" true
                   (PermissionsEffect.after_pass "posix" true below) None) in
  o1 = Permissions.Outcome [ ([ "bash"; "setup.sh" ], 33261%Z) ] 1
         [ "bash/ro.sh: Read-only file system" ]
  ∧ o2 = Permissions.Outcome [] 0 [ "bash/ro.sh: Read-only file system" ].
Proof. split; reflexivity. Qed.

(** ** StepTracker: what an update leaves alone *)

Lemma find_update_first_other (k k' : string) (s' : Tracker.status)
    (d : string) (l : list Tracker.step) :
  k' ≠ k →
  List.find (λ s, String.eqb (Tracker.key s) k')
    (match Tracker.update_first k s' d l with
     | Some l' => l'
     | None => l ++ [Tracker.Step k k s' d]
     end)
  = List.find (λ s, String.eqb (Tracker.key s) k') l.
Proof.
  intros Hne. apply String.eqb_neq in Hne.
  induction l as [|s r IH]; cbn [Tracker.update_first app List.find].
  - cbn [Tracker.key]. now rewrite String.eqb_sym, Hne.
  - destruct (String.eqb (Tracker.key s) k) eqn:E.
    + apply String.eqb_eq in E. cbn [List.find Tracker.key].
      rewrite E, String.eqb_sym, Hne. reflexivity.
    + destruct (Tracker.update_first k s' d r) as [l'|];
        cbn [option_map List.find app];
        destruct (String.eqb (Tracker.key s) k'); auto.
Qed.

Lemma find_update_other (tr : Tracker.t) (k k' d : string)
    (s' : Tracker.status) :
  k' ≠ k →
  Tracker.find (Tracker._update tr k s' d) k' = Tracker.find tr k'.
Proof.
  intros Hne. unfold Tracker.find, Tracker._update.
  rewrite <- (find_update_first_other k k' s' d (Tracker.steps tr) Hne).
  destruct (Tracker.update_first k s' d (Tracker.steps tr));
    now rewrite maybe_refresh_steps.
Qed.

Lemma find_add_other (tr : Tracker.t) (k k' lbl : string) :
  k' ≠ k → Tracker.find (Tracker.add tr k lbl) k' = Tracker.find tr k'.
Proof.
  intros Hne. unfold Tracker.find, Tracker.add.
  destruct (Py.mem k (map Tracker.key (Tracker.steps tr))); [reflexivity|].
  rewrite maybe_refresh_steps. cbn [Tracker.with_steps Tracker.steps].
  apply String.eqb_neq in Hne.
  induction (Tracker.steps tr) as [|s r IH]; cbn [app List.find Tracker.key].
  - now rewrite String.eqb_sym, Hne.
  - now destruct (String.eqb (Tracker.key s) k').
Qed.

(** The step found under the key of an update: it has the new status; the
    detail is the new one unless that is empty; the label is the old one
    when the key was known, the key itself otherwise. *)
Lemma find_update_same (tr : Tracker.t) (k d : string) (s' : Tracker.status) :
  Tracker.find (Tracker._update tr k s' d) k
  = Some (match Tracker.find tr k with
          | Some y => Tracker.Step k (Tracker.label y) s'
                        (if Py.truthy d then d else Tracker.detail y)
          | None => Tracker.Step k k s' d
          end).
Proof.
  unfold Tracker.find, Tracker._update.
  assert (List.find (λ s, String.eqb (Tracker.key s) k)
            (match Tracker.update_first k s' d (Tracker.steps tr) with
             | Some l' => l'
             | None => Tracker.steps tr ++ [Tracker.Step k k s' d]
             end)
          = Some (match List.find (λ s, String.eqb (Tracker.key s) k)
                          (Tracker.steps tr) with
                  | Some y => Tracker.Step k (Tracker.label y) s'
                                (if Py.truthy d then d else Tracker.detail y)
                  | None => Tracker.Step k k s' d
                  end)) as H.
  { induction (Tracker.steps tr) as [|s r IH];
      cbn [Tracker.update_first app List.find Tracker.key].
    - now rewrite String.eqb_refl.
    - destruct (String.eqb (Tracker.key s) k) eqn:E.
      + cbn [List.find Tracker.key]. rewrite E.
        apply String.eqb_eq in E. now rewrite E.
      + destruct (Tracker.update_first k s' d r) as [l'|];
          cbn [option_map List.find app]; rewrite E; exact IH. }
  rewrite <- H.
  destruct (Tracker.update_first k s' d (Tracker.steps tr));
    now rewrite maybe_refresh_steps.
Qed.

Lemma find_add_same (tr : Tracker.t) (k lbl : string) :
  Tracker.find (Tracker.add tr k lbl) k
  = Some (match Tracker.find tr k with
          | Some y => y
          | None => Tracker.Step k lbl Tracker.Pending ""
          end).
Proof.
  unfold Tracker.find, Tracker.add.
  destruct (Py.mem k (map Tracker.key (Tracker.steps tr))) eqn:Hm.
  - apply mem_in, in_map_iff in Hm as (y & Hk & Hy).
    destruct (List.find _ (Tracker.steps tr)) as [z|] eqn:E; [reflexivity|].
    apply (List.find_none _ _ E) in Hy. rewrite Hk, String.eqb_refl in Hy.
    discriminate.
  - rewrite maybe_refresh_steps. cbn [Tracker.with_steps Tracker.steps].
    assert (Forall (λ y, String.eqb (Tracker.key y) k = false)
              (Tracker.steps tr)) as Hall.
    { apply List.Forall_forall. intros y Hy.
      destruct (String.eqb (Tracker.key y) k) eqn:E; [|reflexivity].
      apply String.eqb_eq in E.
      assert (Py.mem k (map Tracker.key (Tracker.steps tr)) = true) as Ht.
      { apply mem_in. rewrite <- E. now apply in_map. }
      congruence. }
    clear Hm. induction Hall as [|s r Hs _ IH]; cbn [app List.find Tracker.key].
    + now rewrite String.eqb_refl.
    + now rewrite Hs.
Qed.

Lemma truthy_app (a b : string) :
  Py.truthy (a +:+ b) = Py.truthy a || Py.truthy b.
Proof. now destruct a. Qed.

(** ** ensure_executable_scripts: the report *)

Lemma run_loop_account (l : list Permissions.entry) (o : Permissions.outcome) :
  let o' := Permissions.run_loop l o in
  length (Permissions.chmods o') + length (Permissions.failures o')
  <= length (Permissions.chmods o) + length (Permissions.failures o)
     + length l
  ∧ (length (Permissions.chmods o) = Permissions.updated o →
     length (Permissions.chmods o') = Permissions.updated o').
Proof.
  revert o. induction l as [|e l IH]; intros o; cbn [Permissions.run_loop length].
  - split; [lia | auto].
  - match goal with
    | |- context [Permissions.run_loop l ?O] =>
        destruct (IH O) as [Hle Heq]; cbn zeta in Hle, Heq
    end.
    split.
    + etransitivity; [exact Hle|].
      destruct (Permissions.visit e);
        cbn [Permissions.chmods Permissions.failures];
        rewrite ?length_app; cbn [length]; lia.
    + intros Ho. apply Heq.
      destruct (Permissions.visit e);
        cbn [Permissions.chmods Permissions.updated]; auto.
      rewrite length_app. cbn [length]. lia.
Qed.

(** Every [os.chmod] of the loop is on a visited entry without execute
    bits, with the mode computed from its own. *)
Lemma run_loop_chmods_from (l : list Permissions.entry)
    (o : Permissions.outcome) (p : list string) (m : Z) :
  In (p, m) (Permissions.chmods (Permissions.run_loop l o)) →
  In (p, m) (Permissions.chmods o)
  ∨ ∃ e, In e l ∧ Permissions.path e = p
         ∧ m = Permissions.new_mode (Permissions.st_mode e)
         ∧ Permissions.shebang_without_exec e = true
         ∧ Permissions.chmod_error e = None.
Proof.
  revert o. induction l as [|e l IH]; intros o; cbn [Permissions.run_loop];
    [auto|].
  intros Hin. apply IH in Hin as [Hin | (x & Hx & Hrest)].
  - destruct (Permissions.visit e) as [|p' m'|msg] eqn:Hv;
      cbn [Permissions.chmods] in Hin; auto.
    apply in_app_or in Hin as [Hin | [[= <- <-] | []]]; [auto|].
    right. exists e. split; [now left|].
    unfold Permissions.visit in Hv. unfold Permissions.shebang_without_exec.
    destruct (Permissions.is_symlink e), (Permissions.is_file e);
      cbn [orb negb andb] in Hv |- *; try discriminate.
    destruct (Permissions.head e) as [h|]; [|discriminate].
    destruct (String.eqb h "#!"); cbn [negb] in Hv |- *; [|discriminate].
    destruct (Z.eqb (Z.land (Permissions.st_mode e) Permissions.o111) 0);
      cbn [negb] in Hv |- *; [|discriminate].
    destruct (Permissions.chmod_error e); [discriminate|].
    injection Hv as <- <-. auto.
  - right. exists x. split; [now right | exact Hrest].
Qed.

(** X20: the figures of the pass add up, and the tracker is told the
    truth: there is one successful [os.chmod] per counted script, each on a
    [*.sh] file that had the shebang and no execute bit; counted and failed
    scripts together never exceed the [*.sh] entries; with a tracker, the
    step [chmod] ends as done exactly when nothing failed and as error
    otherwise, its detail gives the two counts, and no other step is
    touched.  On Windows, or without the scripts directory, the tracker is
    left as it was. *)
Theorem permission_pass_report (os_name : string) (root_is_dir : bool)
    (below : list Permissions.entry) (tr : Tracker.t) :
  let r := Permissions.ensure_executable_scripts os_name root_is_dir below
             (Some tr) in
  let o := fst r in
  length (Permissions.chmods o) = Permissions.updated o
  ∧ Permissions.updated o + length (Permissions.failures o)
    <= length (Permissions.rglob_sh below)
  ∧ (∀ p m, In (p, m) (Permissions.chmods o) →
       ∃ e, In e below ∧ Permissions.counted e = true
            ∧ Permissions.path e = p
            ∧ m = Permissions.new_mode (Permissions.st_mode e))
  ∧ ∃ tr', snd r = Some tr'
      ∧ (∀ k, k ≠ "chmod" → Tracker.find tr' k = Tracker.find tr k)
      ∧ if String.eqb os_name "nt" || negb root_is_dir then tr' = tr
        else ∃ x, Tracker.find tr' "chmod" = Some x
               ∧ Tracker.st x = match Permissions.failures o with
                                | [] => Tracker.Done
                                | _ => Tracker.Error
                                end
               ∧ Tracker.detail x
                 = pretty (Permissions.updated o) +:+ " updated"
                   +:+ match Permissions.failures o with
                       | [] => ""
                       | fs => ", " +:+ pretty (length fs) +:+ " failed"
                       end
               ∧ (Tracker.find tr "chmod" = None →
                  Tracker.label x = "Set script permissions recursively").
Proof.
  intros r o. unfold o, r, Permissions.ensure_executable_scripts.
  destruct (String.eqb os_name "nt"); cbn [orb fst snd].
  { split; [reflexivity|]. split; [cbn; lia|]. split; [intros p m []|].
    exists tr. auto. }
  destruct root_is_dir; cbn [negb fst snd].
  2: { split; [reflexivity|]. split; [cbn; lia|]. split; [intros p m []|].
       exists tr. auto. }
  set (l := Permissions.rglob_sh below).
  set (o' := Permissions.run_loop l (Permissions.Outcome [] 0 [])).
  destruct (run_loop_account l (Permissions.Outcome [] 0 [])) as [Hle Heq].
  fold o' in Hle, Heq. cbn [Permissions.chmods Permissions.failures
    Permissions.updated length] in Hle, Heq.
  specialize (Heq eq_refl).
  split; [exact Heq|]. split; [lia|]. split.
  { intros p m Hin.
    apply run_loop_chmods_from in Hin as [[] | (e & He & Hp & Hm & Hc & Hok)].
    apply List.filter_In in He as [He Hsh].
    exists e. split; [assumption|]. split; [|auto].
    unfold Permissions.counted. now rewrite Hsh, Hc, Hok. }
  cbn [option_map]. eexists. split; [reflexivity|].
  unfold Permissions.report.
  set (d := pretty (Permissions.updated o') +:+ " updated" +:+ _).
  set (tr1 := Tracker.add tr "chmod" "Set script permissions recursively").
  assert (Py.truthy d = true) as Hd.
  { unfold d. rewrite truthy_app. apply orb_true_r. }
  split.
  { intros k Hk.
    destruct (Permissions.failures o');
      unfold Tracker.complete, Tracker.error;
      rewrite find_update_other by exact Hk;
      now apply find_add_other. }
  unfold Tracker.complete, Tracker.error.
  destruct (Permissions.failures o');
    (eexists; split; [apply find_update_same|]);
    unfold tr1; rewrite find_add_same, Hd;
    destruct (Tracker.find tr "chmod");
    cbn [Tracker.st Tracker.detail Tracker.label]; repeat split;
    discriminate.
Qed.

(** ** Archive installer: invariants of a run *)

Section Preserves.

Variable K : Installer.node → Installer.node → Prop.
Variable T : option Tracker.t → option Tracker.t → Prop.

(** Both relations are reflexive and transitive. *)
Hypothesis pre :
  ((∀ n, K n n) ∧ (∀ a b c, K a b → K b c → K a c))
  ∧ ((∀ t, T t t) ∧ (∀ a b c, T a b → T b c → T a c)).

Lemma related_refl (w : Installer.world) : InstallerSpec.related K T w w.
Proof. split; apply pre. Qed.

Lemma related_trans (a b c : Installer.world) :
  InstallerSpec.related K T a b → InstallerSpec.related K T b c →
  InstallerSpec.related K T a c.
Proof.
  destruct pre as [[_ Kt] [_ Tt]]. intros [H1 H2] [H3 H4].
  split; [exact (Kt _ _ _ H1 H3) | exact (Tt _ _ _ H2 H4)].
Qed.

Lemma preserves_ret {A} (x : A) :
  InstallerSpec.preserves K T (@mret Installer.M Installer.M_ret A x).
Proof. intros w. apply related_refl. Qed.

Lemma preserves_raise {A} (e : exn) :
  InstallerSpec.preserves K T (@Installer.raise A e).
Proof. intros w. apply related_refl. Qed.

Lemma preserves_get_fs : InstallerSpec.preserves K T Installer.get_fs.
Proof. intros w. apply related_refl. Qed.

Lemma preserves_bind {A B} (m : Installer.M A) (f : A → Installer.M B) :
  InstallerSpec.preserves K T m →
  (∀ x, InstallerSpec.preserves K T (f x)) →
  InstallerSpec.preserves K T (@mbind Installer.M Installer.M_bind A B f m).
Proof.
  intros Hm Hf w. rewrite bind_run. specialize (Hm w).
  destruct (m w) as [[e|x] w1]; cbn [snd] in Hm |- *; [exact Hm|].
  exact (related_trans _ _ _ Hm (Hf x w1)).
Qed.

Lemma preserves_try {A} (m : Installer.M A) :
  InstallerSpec.preserves K T m →
  InstallerSpec.preserves K T (Installer.try_ m).
Proof.
  intros Hm w. specialize (Hm w). unfold Installer.try_.
  pose proof (related_refl w) as _.
  now destruct (m w).
Qed.

Lemma preserves_for_each {A} (l : list A) (f : A → Installer.M unit) :
  (∀ x, InstallerSpec.preserves K T (f x)) →
  InstallerSpec.preserves K T (Installer.for_each l f).
Proof.
  intros Hf. induction l as [|x l IH]; cbn [Installer.for_each].
  - apply preserves_ret.
  - apply preserves_bind; [apply Hf | intros _; exact IH].
Qed.

Lemma preserves_tick : InstallerSpec.preserves K T Installer.tick.
Proof.
  intros w. unfold Installer.tick.
  destruct (Installer.faults w) as [|[] r]; cbn [snd];
    try apply related_refl; split; cbn [Installer.fs Installer.tracker];
    apply pre.
Qed.

Lemma preserves_update_fs (what : string)
    (f : Installer.node → option Installer.node) :
  (∀ n n', f n = Some n' → K n n') →
  InstallerSpec.preserves K T (Installer.update_fs what f).
Proof.
  intros Hf w. unfold Installer.update_fs.
  destruct (f (Installer.fs w)) as [n|] eqn:E; cbn [snd].
  - split; cbn [Installer.fs Installer.tracker]; [now apply Hf | apply pre].
  - apply related_refl.
Qed.

Lemma preserves_read_fs {A} (what : string) (f : Installer.node → option A) :
  InstallerSpec.preserves K T (Installer.read_fs what f).
Proof.
  intros w. unfold Installer.read_fs.
  destruct (f (Installer.fs w)); apply related_refl.
Qed.

Lemma preserves_fs_call (what : string)
    (f : Installer.node → option Installer.node) :
  (∀ n n', f n = Some n' → K n n') →
  InstallerSpec.preserves K T (Installer.fs_call what f).
Proof.
  intros Hf. unfold Installer.fs_call.
  apply preserves_bind; [apply preserves_tick|].
  intros _. now apply preserves_update_fs.
Qed.

Lemma preserves_fs_read {A} (what : string) (f : Installer.node → option A) :
  InstallerSpec.preserves K T (Installer.fs_read what f).
Proof.
  unfold Installer.fs_read.
  apply preserves_bind; [apply preserves_tick|].
  intros _. apply preserves_read_fs.
Qed.

Lemma preserves_fs_total (f : Installer.node → Installer.node) :
  (∀ n, K n (f n)) →
  InstallerSpec.preserves K T (Installer.fs_total f).
Proof.
  intros Hf w. split; cbn; [apply Hf | apply pre].
Qed.

Lemma preserves_track (f : Tracker.t → Tracker.t) :
  (∀ t, T t (option_map f t)) →
  InstallerSpec.preserves K T (Installer.track f).
Proof.
  intros Hf w. split; cbn; [apply pre | apply Hf].
Qed.

End Preserves.

Ltac preserves_step P side :=
  first
    [ apply (preserves_ret _ _ P)
    | apply (preserves_raise _ _ P)
    | apply (preserves_get_fs _ _ P)
    | apply (preserves_fs_read _ _ P)
    | apply (preserves_fs_call _ _ P); [side]
    | apply (preserves_fs_total _ _ P); [side]
    | apply (preserves_track _ _ P); [side]
    | apply (preserves_try _ _ P)
    | apply (preserves_for_each _ _ P); intros ?; cbv beta zeta
    | apply (preserves_bind _ _ P); [|intros ?; cbv beta zeta]
    | match goal with
      | |- InstallerSpec.preserves _ _ (match ?x with _ => _ end) =>
          destruct x
      | |- InstallerSpec.preserves _ _ (if ?b then _ else _) => destruct b
      end
    | progress unfold Installer.merge_item ].

(** *** The tracker *)

Lemma frames_refl (keys : list string) (t : option Tracker.t) :
  InstallerSpec.frames keys t t.
Proof. split; auto. Qed.

Lemma frames_trans (keys : list string) (a b c : option Tracker.t) :
  InstallerSpec.frames keys a b → InstallerSpec.frames keys b c →
  InstallerSpec.frames keys a c.
Proof.
  intros [H1 H2] [H3 H4]. split; [auto|].
  intros k Hk. now rewrite H4, H2.
Qed.




Lemma pre_frames (keys : list string) :
  ((∀ n : Installer.node, True)
   ∧ (∀ a b c : Installer.node, True → True → True))
  ∧ ((∀ t, InstallerSpec.frames keys t t)
     ∧ (∀ a b c, InstallerSpec.frames keys a b →
                 InstallerSpec.frames keys b c →
                 InstallerSpec.frames keys a c)).
Proof.
  split; [split; auto | split; [apply frames_refl | apply frames_trans]].
Qed.

Lemma pre_keeps (roots : list Installer.path) :
  ((∀ n, InstallerSpec.keeps roots n n)
   ∧ (∀ a b c, InstallerSpec.keeps roots a b → InstallerSpec.keeps roots b c →
               InstallerSpec.keeps roots a c))
  ∧ ((∀ t : option Tracker.t, True)
     ∧ (∀ a b c : option Tracker.t, True → True → True)).
Proof.
  split; [split; [apply keeps_refl | apply keeps_trans] | split; auto].
Qed.


(** Merging into the current directory keeps every path outside the
    scratch directory. *)
Lemma merge_body_keeps
    (read_zip : string → option (list Installer.member))
    (project_path zip_path temp_dir : Installer.path)
    (roots : list Installer.path) :
  In temp_dir roots →
  InstallerSpec.preserves (InstallerSpec.keeps roots) (λ _ _, True)
    (Installer.extract_body read_zip project_path true zip_path temp_dir).
Proof.
  intros Hin. pose proof (pre_keeps roots) as P.
  unfold Installer.extract_body, Installer.merge_extract,
    Installer.with_temp, Installer.open_zip, Installer.extractall.
  repeat preserves_step P
    ltac:(first [ intros; exact I
                | intros n; now apply keeps_remove
                | intros n n' Hf; apply keeps_all;
                  eauto using mkdir_kept, mkdir_p_kept, copy2_kept,
                    copytree_kept, extract_member_kept ]).
Qed.

(** ** Archive installer: the whole run *)

(** The fetch writes the archive or leaves the tree as it is: nothing
    that was there disappears. *)
Lemma fetch_template_fs (cwd : Installer.path)
    (net : option Installer.fetched) (w : Installer.world) :
  ∀ q, InstallerSpec.kept (Installer.fs w)
         (Installer.fs (snd (Installer.fetch_template cwd net w))) q = true.
Proof.
  destruct net as [d|];
    cbv [Installer.fetch_template Installer.download_template_from_github
         mbind Installer.M_bind Installer.try_ Installer.track mret
         Installer.M_ret Installer.raise Installer.update_fs];
    cbn [snd Installer.fs Installer.tracker Installer.faults];
    [|intros q; apply kept_refl].
  destruct (Installer.write_file (Installer.fs w)
              (cwd ++ [ Installer.filename d ]) (Installer.body d))
    as [n|] eqn:E; cbn [snd Installer.fs]; [|intros q; apply kept_refl].
  now apply (write_file_kept _ _ _ _ E).
Qed.

Lemma exists_remove_self (n : Installer.node) (p : Installer.path) :
  p ≠ [] → Installer.exists_ (Installer.remove n p) p = false.
Proof.
  intros Hp. unfold Installer.exists_. now rewrite lookup_remove_self.
Qed.

Lemma try_run {A} (m : Installer.M A) (w : Installer.world) :
  Installer.try_ m w = (inr (fst (m w)), snd (m w)).
Proof. unfold Installer.try_. now destruct (m w). Qed.

(** The [except] clause in either mode: the tracker is told, the target
    directory of a fresh install is removed, and [typer.Exit(1)] is raised,
    unless [rmtree] has refused a regular file. *)
Lemma except_clause_run (project_path : Installer.path)
    (is_current_dir : bool) (e : exn) (w : Installer.world) :
  ∃ n1,
    @mbind Installer.M Installer.M_bind unit unit
      (λ _, Installer.raise (Exit 1))
      (Installer.on_extract_error project_path is_current_dir e) w
    = (inl (if negb is_current_dir
               && InstallerSpec.is_file (Installer.fs w) project_path
            then OSError "[Errno 20] Not a directory"
            else Exit 1),
       Installer.World n1
         (option_map (λ t, Tracker.error t "extract" (exn_str e))
            (Installer.tracker w))
         (Installer.faults w))
    ∧ (n1 = Installer.fs w
       ∨ is_current_dir = false
         ∧ n1 = Installer.remove (Installer.fs w) project_path).
Proof.
  cbv [Installer.on_extract_error mbind Installer.M_bind Installer.track
       Installer.get_fs Installer.update_fs Installer.rmtree mret
       Installer.M_ret Installer.raise].
  cbn [Installer.fs Installer.tracker Installer.faults].
  unfold InstallerSpec.is_file, Installer.exists_, Installer.is_dir.
  destruct is_current_dir; cbn [negb andb];
    [|destruct (Installer.lookup (Installer.fs w) project_path)
        as [[c|es]|] eqn:E;
      cbn [Installer.fs Installer.tracker Installer.faults]; rewrite ?E];
    eexists; (split; [reflexivity|]); auto.
Qed.

(** The second [try] statement with its clauses, in either mode. *)
Lemma try_extract_final
    (read_zip : string → option (list Installer.member))
    (project_path : Installer.path) (is_current_dir : bool)
    (zip_path temp_dir : Installer.path) (w : Installer.world) :
  zip_path ≠ [] →
  let b := Installer.extract_body read_zip project_path is_current_dir
             zip_path temp_dir w in
  let run := Installer.try_extract read_zip project_path is_current_dir
               zip_path temp_dir w in
  fst run = match fst b with
            | inl _ =>
                inl (if negb is_current_dir
                        && InstallerSpec.is_file (Installer.fs (snd b))
                             project_path
                     then OSError "[Errno 20] Not a directory"
                     else Exit 1)
            | inr _ => inr project_path
            end
  ∧ Installer.exists_ (Installer.fs (snd run)) zip_path = false
  ∧ (is_current_dir = true →
     ∀ roots, In zip_path roots →
       InstallerSpec.keeps roots (Installer.fs (snd b))
         (Installer.fs (snd run)))
  ∧ InstallerSpec.frames [ "extract"; "cleanup" ]
      (Installer.tracker (snd b)) (Installer.tracker (snd run))
  ∧ (is_Some (Installer.tracker (snd b)) →
     InstallerSpec.status_of (Installer.tracker (snd run)) "extract"
     = Some match fst b with
            | inl _ => Tracker.Error
            | inr _ => Tracker.Done
            end
     ∧ is_Some (InstallerSpec.status_of (Installer.tracker (snd run))
                  "cleanup")).
Proof.
  intros Hz b run. unfold run, b. clear run b.
  pose proof (pre_frames [ "extract"; "cleanup" ]) as [_ [Fr Ft]].
  assert (∀ (t : option Tracker.t) (d : string) (s' : Tracker.status)
            (f : Tracker.t → Tracker.t),
            (f = (λ x, x) ∨ f = (λ x, Tracker.complete x "cleanup" "")) →
            InstallerSpec.frames [ "extract"; "cleanup" ] t
              (option_map
                 (λ t, f (Tracker.add (Tracker._update t "extract" s' d)
                            "cleanup" "Remove temporary archive")) t)
            ∧ (is_Some t →
               InstallerSpec.status_of
                 (option_map
                    (λ t, f (Tracker.add (Tracker._update t "extract" s' d)
                               "cleanup" "Remove temporary archive")) t)
                 "extract" = Some s'
               ∧ is_Some
                   (InstallerSpec.status_of
                      (option_map
                         (λ t, f (Tracker.add
                                    (Tracker._update t "extract" s' d)
                                    "cleanup" "Remove temporary archive")) t)
                      "cleanup"))) as Htr.
  { intros t d s' f Hf. destruct t as [tr|].
    2: { split; [apply Fr|]. intros [? [=]]. }
    cbn [option_map InstallerSpec.status_of]. split.
    - split; [now eexists|]. intros k Hk.
      assert (k ≠ "extract" ∧ k ≠ "cleanup") as [H1 H2].
      { split; intros ->; discriminate. }
      cbn [InstallerSpec.status_of].
      destruct Hf as [-> | ->]; unfold Tracker.complete;
        rewrite ?find_update_other by exact H2;
        rewrite find_add_other by exact H2;
        now rewrite find_update_other by exact H1.
    - intros _. split.
      + destruct Hf as [-> | ->]; unfold Tracker.complete;
          rewrite ?find_update_other by discriminate;
          rewrite find_add_other by discriminate;
          rewrite find_update_same;
          now destruct (Tracker.find tr "extract").
      + destruct Hf as [-> | ->]; unfold Tracker.complete;
          rewrite ?find_update_same, ?find_add_same; now eexists. }
  unfold Installer.try_extract. rewrite bind_run, try_run.
  destruct (Installer.extract_body read_zip project_path is_current_dir
              zip_path temp_dir w) as [[e0|[]] w2];
    cbn [fst snd]; rewrite bind_run, try_run.
  - destruct (except_clause_run project_path is_current_dir e0 w2)
      as (n1 & -> & Hn1).
    cbn [fst snd].
    cbv [Installer.cleanup mbind Installer.M_bind Installer.track
         Installer.get_fs Installer.fs_total mret Installer.M_ret
         Installer.raise].
    cbn [Installer.fs Installer.tracker Installer.faults].
    destruct (Installer.exists_ n1 zip_path) eqn:Ez;
      cbn [fst snd Installer.fs Installer.tracker Installer.faults];
      (split; [reflexivity|]);
      (split; [first [now apply exists_remove_self | exact Ez]|]);
      (split;
       [intros -> roots Hin;
        destruct Hn1 as [-> | [[=] _]];
        first [now apply keeps_remove | apply keeps_refl]|]);
      destruct (Installer.tracker w2) as [tr|]; cbn [option_map].
    + apply (Htr (Some tr) (exn_str e0) Tracker.Error
               (λ x, Tracker.complete x "cleanup" "")); auto.
    + apply (Htr None (exn_str e0) Tracker.Error (λ x, x)); auto.
    + apply (Htr (Some tr) (exn_str e0) Tracker.Error (λ x, x)); auto.
    + apply (Htr None (exn_str e0) Tracker.Error (λ x, x)); auto.
  - cbv [Installer.cleanup mbind Installer.M_bind Installer.track
         Installer.get_fs Installer.fs_total mret Installer.M_ret
         Installer.raise].
    cbn [fst snd Installer.fs Installer.tracker Installer.faults].
    destruct (Installer.exists_ (Installer.fs w2) zip_path) eqn:Ez;
      cbn [fst snd Installer.fs Installer.tracker Installer.faults];
      (split; [reflexivity|]);
      (split; [first [now apply exists_remove_self | exact Ez]|]);
      (split; [intros _ roots Hin;
               first [now apply keeps_remove | apply keeps_refl]|]);
      destruct (Installer.tracker w2) as [tr|]; cbn [option_map].
    + apply (Htr (Some tr) "" Tracker.Done
               (λ x, Tracker.complete x "cleanup" "")); auto.
    + apply (Htr None "" Tracker.Done (λ x, x)); auto.
    + apply (Htr (Some tr) "" Tracker.Done (λ x, x)); auto.
    + apply (Htr None "" Tracker.Done (λ x, x)); auto.
Qed.

Lemma run_after_fetch
    (read_zip : string → option (list Installer.member))
    (project_path : Installer.path) (is_current_dir : bool)
    (cwd temp_dir zip_path : Installer.path)
    (net : option Installer.fetched) (meta : Installer.fetched)
    (w w1 : Installer.world) :
  Installer.fetch_template cwd net w = (inr (zip_path, meta), w1) →
  Installer.download_and_extract_template read_zip project_path
    is_current_dir cwd temp_dir net w
  = Installer.try_extract read_zip project_path is_current_dir zip_path
      temp_dir (snd (Installer.announce_extract w1)).
Proof.
  intros Hfetch. unfold Installer.download_and_extract_template.
  rewrite (bind_run _ _ w), Hfetch. reflexivity.
Qed.




(** X22: a fresh install never merges into an existing target: when
    [project_path] is already a directory, [mkdir] fails, the function
    raises [typer.Exit(1)], and its clean-up removes that directory with
    everything that was in it. *)
Theorem fresh_install_removes_existing_target
    (read_zip : string → option (list Installer.member))
    (project_path cwd temp_dir zip_path : Installer.path)
    (net : option Installer.fetched) (meta : Installer.fetched)
    (w w1 : Installer.world) :
  project_path ≠ [] →
  Installer.fetch_template cwd net w = (inr (zip_path, meta), w1) →
  Installer.is_dir (Installer.fs w) project_path = true →
  let run :=
    Installer.download_and_extract_template read_zip project_path false cwd
      temp_dir net w in
  fst run = inl (Exit 1)
  ∧ Installer.absent (Installer.fs (snd run)) project_path.
Proof.
  intros Hp Hfetch Hex run. unfold run. clear run.
  rewrite (run_after_fetch _ _ _ _ _ _ _ _ _ _ Hfetch).
  set (w2 := snd (Installer.announce_extract w1)).
  assert (Installer.is_dir (Installer.fs w2) project_path = true) as Hdir2.
  { destruct (fetch_template_ok _ _ _ _ _ _ Hfetch) as (_ & _ & Hw & _).
    change (Installer.fs w2) with (Installer.fs w1).
    exact (kept_is_dir _ _ _ (write_file_kept _ _ _ _ Hw project_path) Hex). }
  assert (Installer.exists_ (Installer.fs w2) project_path = true) as Hex2.
  { unfold Installer.is_dir in Hdir2. unfold Installer.exists_.
    now destruct (Installer.lookup (Installer.fs w2) project_path). }
  pose proof (try_extract_run read_zip project_path zip_path temp_dir w2 Hp)
    as Htry.
  cbv zeta in Htry.
  destruct (extract_body_on_existing read_zip project_path zip_path temp_dir
              w2 Hex2) as (e & w3 & Hb & _).
  rewrite Hb in Htry. cbn [fst] in Htry.
  now rewrite (is_dir_not_file _ _ Hdir2) in Htry.
Qed.

Lemma fresh_install_removes_existing_target_witness :
  let run :=
    Installer.download_and_extract_template Installer.sample_read_zip
      [ "home"; "u" ] false [ "home"; "u" ] [ "tmp"; "tmpx1" ]
      (Some Installer.sample_fetched)
      (Installer.World Installer.sample_fs None []) in
  fst run = inl (Exit 1)
  ∧ Installer.lookup (Installer.fs (snd run)) [ "home"; "u"; "README.md" ]
    = None.
Proof.
  intros run.
  set (w := Installer.World Installer.sample_fs None []).
  destruct (Installer.fetch_template [ "home"; "u" ]
              (Some Installer.sample_fetched) w) as [r w1] eqn:Hfetch.
  pose proof Hfetch as Hval. vm_compute in Hval. injection Hval as <- <-.
  destruct (fresh_install_removes_existing_target Installer.sample_read_zip
              [ "home"; "u" ] [ "home"; "u" ] [ "tmp"; "tmpx1" ] _ _ _ _ _
              ltac:(discriminate) Hfetch eq_refl) as [Hexit Habs].
  split; [exact Hexit | exact (Habs [ "README.md" ])].
Defined.

(** X23: merging into the current directory deletes nothing: whether the
    installation succeeds or fails, and wherever it fails, every path that
    existed before still exists afterwards, a file as a file and a
    directory as a directory, except inside the scratch directory and at
    the place of the downloaded archive. *)
Theorem merge_install_deletes_nothing
    (read_zip : string → option (list Installer.member))
    (project_path cwd temp_dir : Installer.path)
    (d : Installer.fetched) (w : Installer.world) :
  let run :=
    Installer.download_and_extract_template read_zip project_path true cwd
      temp_dir (Some d) w in
  InstallerSpec.keeps [ temp_dir; cwd ++ [ Installer.filename d ] ]
    (Installer.fs w) (Installer.fs (snd run)).
Proof.
  intros run.
  set (scratch := [ temp_dir; cwd ++ [ Installer.filename d ] ]).
  destruct (Installer.fetch_template cwd (Some d) w)
    as [[e|[zip_path meta]] w1] eqn:Hfetch.
  - unfold run, Installer.download_and_extract_template.
    rewrite (bind_run _ _ w), Hfetch. cbn [snd].
    apply keeps_all. intros q.
    pose proof (fetch_template_fs cwd (Some d) w q) as Hk.
    now rewrite Hfetch in Hk.
  - unfold run. rewrite (run_after_fetch _ _ _ _ _ _ _ _ _ _ Hfetch).
    destruct (fetch_template_ok _ _ _ _ _ _ Hfetch) as (Hd & Hzp & Hw & _).
    injection Hd as Hd.
    assert (zip_path ≠ []) as Hz by (rewrite Hzp; now destruct cwd).
    set (w2 := snd (Installer.announce_extract w1)).
    destruct (try_extract_final read_zip project_path true zip_path temp_dir
                w2 Hz) as (_ & _ & Hkeep & _).
    destruct (merge_body_keeps read_zip project_path zip_path temp_dir
                scratch ltac:(now left) w2) as [Hbody _].
    apply (keeps_trans _ _ (Installer.fs w2)).
    { apply keeps_all. now apply (write_file_kept _ _ _ _ Hw). }
    apply (keeps_trans _ _ _ _ Hbody).
    apply Hkeep; [reflexivity|]. right. left. now rewrite Hzp, Hd.
Qed.

(** A merge that fails half-way: the file that was in the directory is
    still there, next to what was copied before the failure. *)
Example merge_install_keeps_existing_file :
  let run := Installer.sample_run true
               [ false; false; false; false; false; false; false; false;
                 false; true ] in
  fst run = inl (Exit 1)
  ∧ Installer.lookup (Installer.fs (snd run)) [ "home"; "u"; "README.md" ]
    = Some (Installer.File "mine")
  ∧ Installer.exists_ (Installer.fs (snd run)) [ "tmp"; "tmpx1" ] = false.
Proof. repeat split; vm_compute; reflexivity. Qed.

(** ** Tool detection *)

Lemma check_tool_for_tracker_update (which : string → option string)
    (tool : string) (tr : Tracker.t) :
  Tools.check_tool_for_tracker which tool tr
  = (Tools.found which tool,
     Tracker._update tr tool
       (if Tools.found which tool then Tracker.Done else Tracker.Error)
       (if Tools.found which tool then "available" else "not found")).
Proof.
  unfold Tools.check_tool_for_tracker.
  now destruct (Tools.found which tool).
Qed.

Lemma truthy_verdict (b : bool) :
  Py.truthy (if b then "available" else "not found") = true.
Proof. now destruct b. Qed.

(** X24: the [check] command tells the truth about every tool: its tracker
    holds the twelve tools in the order they were added, each under its
    label, done with [available] when [shutil.which] finds it and in error
    with [not found] otherwise; the git tip is printed exactly when git is
    missing and the assistant tip exactly when none of the nine assistant
    CLIs is found (the two VS Code entries do not count).  One such check
    on any tracker touches no other step, and whenever it succeeds
    [check_tool] does too; the two differ only for [claude] installed at
    the local path. *)
Theorem check_reports_every_tool (which : string → option string)
    (tr : Tracker.t) (tool : string) (local_exists local_is_file : bool) :
  let r := Tools.check which in
  let c := Tools.check_tool_for_tracker which tool tr in
  Tracker.steps (Tools.tracker r) = map (Tools.step_for which) Tools.listed
  ∧ Tools.tip_git r = negb (Tools.found which "git")
  ∧ (Tools.tip_agent r = false
     ↔ ∃ a, In a Tools.assistants ∧ Tools.found which a = true)
  ∧ fst c = Tools.found which tool
  ∧ option_map Tracker.st (Tracker.find (snd c) tool)
    = Some (if fst c then Tracker.Done else Tracker.Error)
  ∧ (∀ k, k ≠ tool → Tracker.find (snd c) k = Tracker.find tr k)
  ∧ (fst c = true →
     Tools.check_tool local_exists local_is_file which tool = true)
  ∧ (Tools.check_tool local_exists local_is_file which tool = true →
     fst c = false →
     tool = "claude" ∧ local_exists = true ∧ local_is_file = true).
Proof.
  intros r c. unfold r. clear r. split; [|split; [|split]].
  - unfold Tools.check. cbv zeta.
    repeat (rewrite check_tool_for_tracker_update; cbv beta iota).
    cbn [Tools.tracker]. unfold Tools.step_for, Tools.listed.
    cbn [map fst snd].
    repeat match goal with
           | |- context [Tools.found which ?t] =>
               let b := fresh "b" in
               generalize (Tools.found which t); intros b
           end.
    lazy - [Py.truthy]. rewrite !truthy_verdict. reflexivity.
  - unfold Tools.check. cbv zeta.
    repeat (rewrite check_tool_for_tracker_update; cbv beta iota).
    reflexivity.
  - unfold Tools.check. cbv zeta.
    repeat (rewrite check_tool_for_tracker_update; cbv beta iota).
    cbn [Tools.tip_agent]. rewrite negb_false_iff, <- existsb_exists.
    unfold Tools.assistants. cbn [existsb].
    now rewrite orb_false_r, !orb_assoc.
  - unfold c. rewrite check_tool_for_tracker_update. cbn [fst snd].
    split; [reflexivity|]. split.
    { rewrite find_update_same.
      now destruct (Tracker.find tr tool), (Tools.found which tool). }
    split; [intros k Hk; now apply find_update_other|].
    unfold Tools.check_tool. split.
    + intros ->. now destruct (_ && _).
    + intros Hc Hf. rewrite Hf in Hc.
      destruct (String.eqb_spec tool "claude") as [->|]; [|discriminate].
      destruct local_exists, local_is_file; try discriminate. auto.
Qed.

(** Only git and VS Code are installed: the report says so tool by tool,
    and the assistant tip is printed. *)
Example check_with_git_and_code :
  let which := λ tool,
    if String.eqb tool "git" then Some "/usr/bin/git"
    else if String.eqb tool "code" then Some "/usr/bin/code"
    else None in
  let r := Tools.check which in
  map (λ s, (Tracker.key s, Tracker.st s)) (Tracker.steps (Tools.tracker r))
  = [ ("git", Tracker.Done); ("claude", Tracker.Error);
      ("gemini", Tracker.Error); ("qwen", Tracker.Error);
      ("code", Tracker.Done); ("code-insiders", Tracker.Error);
      ("cursor-agent", Tracker.Error); ("windsurf", Tracker.Error);
      ("kilocode", Tracker.Error); ("opencode", Tracker.Error);
      ("codex", Tracker.Error); ("auggie", Tracker.Error) ]
  ∧ Tools.tip_git r = false ∧ Tools.tip_agent r = true.
Proof. repeat split; vm_compute; reflexivity. Qed.
